(** * MrSauce (Anime Sauce Finder): the search core of [script.js]

    A shallow embedding of the parts of [class AnimeSauceFinder] that carry
    the search logic: the result cache ([searchCache], a JS [Map]), the
    retry loop of [performSearch], the periodic [cleanupCache], file
    validation ([isValidImageFile], [assessImageQuality]) and the ranking
    done by [displayResults].

    Conventions of the embedding.
    - JS integers (timestamps of [Date.now()], file sizes, HTTP statuses)
      are [Z]; JS numbers that are not integers (similarities, delays,
      response times, quality scores) are rationals [Q], every finite
      binary64 number being one.  The rounding of binary64 arithmetic is
      [binary64]; it is applied where a property depends on it, in the
      backoff delay and in the displayed percentage, and left out of the
      running average of the response time and of the quality score.
    - A JS [Map] is an association list in insertion order with one entry
      per key, as the iteration order of [Map.prototype.entries] requires.
    - What the browser supplies (the clock, [fetch], [Math.random], the
      digest of [crypto.subtle]) is an explicit environment [Env]; the
      mutable fields of the controller are an explicit [State] that every
      operation threads through. *)

From Stdlib Require Import List ZArith QArith Qabs String Ascii Bool Lia Lqa.
From Stdlib Require Import Permutation Sorted DecimalString.
From Stdlib Require DecimalPos DecimalZ.
From Stdlib Require Import Qround Qpower.
Import ListNotations.

Local Open Scope Z_scope.

(** ** JS [Map] with string keys *)

Module JsMap.

Definition t (V : Type) : Type := list (string * V).

Definition empty {V} : t V := [].

(** [Map.prototype.get]: [undefined] is [None]. *)
Fixpoint get {V} (m : t V) (k : string) : option V :=
  match m with
  | [] => None
  | (k', v) :: m' => if String.eqb k' k then Some v else get m' k
  end.

(** [Map.prototype.set]: an existing key keeps its place in the
    iteration order and takes the new value; a new key goes last. *)
Fixpoint set {V} (m : t V) (k : string) (v : V) : t V :=
  match m with
  | [] => [(k, v)]
  | (k', v') :: m' =>
      if String.eqb k' k then (k, v) :: m' else (k', v') :: set m' k v
  end.

(** [Map.prototype.delete]. *)
Definition delete {V} (m : t V) (k : string) : t V :=
  filter (fun kv => negb (String.eqb (fst kv) k)) m.

(** [Map.prototype.size]. *)
Definition size {V} (m : t V) : Z := Z.of_nat (List.length m).

(** [Array.from(map.entries())]. *)
Definition entries {V} (m : t V) : list (string * V) := m.

Definition keys {V} (m : t V) : list string := map fst m.

(** One entry per key, as a boolean. *)
Fixpoint wf {V} (m : t V) : bool :=
  match m with
  | [] => true
  | (k, _) :: m' => negb (existsb (String.eqb k) (keys m')) && wf m'
  end.

End JsMap.

(** ** [Array.prototype.sort], [slice], [filter]

    [Array.prototype.sort] is stable: elements the comparator does not
    separate keep their relative order.  [Array_sort] takes the predicate
    [leb a b], true when [compareFn(a, b) <= 0]. *)

Section ArraySort.

Context {A : Type} (leb : A -> A -> bool).

Fixpoint sort_insert (x : A) (l : list A) : list A :=
  match l with
  | [] => [x]
  | y :: l' => if leb x y then x :: y :: l' else y :: sort_insert x l'
  end.

Fixpoint Array_sort (l : list A) : list A :=
  match l with
  | [] => []
  | x :: l' => sort_insert x (Array_sort l')
  end.

End ArraySort.

(** [array.slice(0, n)] for an integer [n]: a negative [n] counts from
    the end. *)
Definition Array_slice0 {A} (l : list A) (n : Z) : list A :=
  if n <? 0 then firstn (List.length l - Z.to_nat (- n))%nat l
  else firstn (Z.to_nat n) l.

(** ** Data of the search core *)

(** A JS exception value: only [name] and [message] are ever inspected. *)
Record JsError : Type := mkError { name : string; message : string }.

(** [new Error(msg)]. *)
Definition Error (msg : string) : JsError := mkError "Error" msg.

(** The outcome of awaiting a promise. *)
Inductive Settled (A : Type) : Type :=
| Fulfilled (a : A)
| Rejected (e : JsError).
Arguments Fulfilled {A} a.
Arguments Rejected {A} e.

(** One match of the recognition service. *)
Record RawMatch : Type := mkMatch {
  similarity : Q;
  filename : string;
  episode : option Z
}.

(** The value stored under a cache key (script.js, lines 972-976). *)
Record CacheEntry : Type := mkEntry {
  data : list RawMatch;
  timestamp : Z;
  responseTime : Q
}.

(** A [File] as far as the core reads it. *)
Record File : Type := mkFile {
  fileName : string;
  fileType : string;
  fileSize : Z
}.

(** What [data.error] and [data.result] read on a parsed body other than
    [null]: an optional [error] string and an optional [result] array.  A
    missing field reads as [undefined], here [None]; so do both fields of
    a body that is a number, a string, a boolean or an array. *)
Record ApiData : Type := mkData {
  error : option string;
  result : option (list RawMatch)
}.

(** The parsed JSON body: [null], on which every property read throws a
    [TypeError], or any other value. *)
Inductive JsonBody : Type :=
| JsonNull
| JsonValue (d : ApiData).

(** The [TypeError] of [data.error] for [data === null]. *)
Definition nullPropertyError : JsError :=
  mkError "TypeError" "Cannot read properties of null (reading 'error')".

(** A [Response]: its status line and what [response.json()] settles
    to. *)
Record Response : Type := mkResponse {
  status : Z;
  statusText : string;
  json : Settled JsonBody
}.

(** [response.ok]. *)
Definition ok (r : Response) : bool := (200 <=? status r) && (status r <=? 299).

(** Truthiness of [data.error]: [undefined] and the empty string are
    falsy. *)
Definition truthy (v : option string) : bool :=
  match v with
  | Some s => negb (String.eqb s "")
  | None => false
  end.

(** [this.metrics], the fields [performSearch] writes. *)
Record Metrics : Type := mkMetrics {
  cacheHits : Z;
  cacheMisses : Z;
  avgResponseTime : Q
}.

(** What a call does to the outside world, in order. *)
Inductive Effect : Type :=
| EffFetch (n : nat)       (* the [n]-th call of [fetch] *)
| EffSleep (ms : Q).       (* [await this.sleep(ms)] *)

(** What the browser supplies.  The streams are indexed by the number of
    earlier calls of the same primitive. *)
Record Env : Type := mkEnv {
  subtleDigest : File -> Settled (list Z); (* arrayBuffer + crypto.subtle.digest *)
  dateNow : nat -> Z;                      (* Date.now() *)
  fetchOutcome : nat -> Settled Response;  (* fetch(...) *)
  requestTime : nat -> Q;                  (* requestEnd - requestStart *)
  mathRandom : nat -> Q                    (* Math.random() *)
}.

(** The mutable fields of the controller the search core touches, and
    the counters and log of its calls to the environment. *)
Record State : Type := mkState {
  currentFile : option File;
  urlInput : option string;          (* [this.urlInput.value]; [None]: no element *)
  searchCache : JsMap.t CacheEntry;
  metrics : Metrics;
  clockReads : nat;
  fetchCalls : nat;
  randomCalls : nat;
  effects : list Effect
}.

Definition with_cache (s : State) (c : JsMap.t CacheEntry) : State :=
  mkState (currentFile s) (urlInput s) c (metrics s)
          (clockReads s) (fetchCalls s) (randomCalls s) (effects s).

Definition with_metrics (s : State) (m : Metrics) : State :=
  mkState (currentFile s) (urlInput s) (searchCache s) m
          (clockReads s) (fetchCalls s) (randomCalls s) (effects s).

(** [Date.now()]. *)
Definition Date_now (env : Env) (s : State) : Z * State :=
  (dateNow env (clockReads s),
   mkState (currentFile s) (urlInput s) (searchCache s) (metrics s)
           (S (clockReads s)) (fetchCalls s) (randomCalls s) (effects s)).

(** [Math.random()]. *)
Definition Math_random (env : Env) (s : State) : Q * State :=
  (mathRandom env (randomCalls s),
   mkState (currentFile s) (urlInput s) (searchCache s) (metrics s)
           (clockReads s) (fetchCalls s) (S (randomCalls s)) (effects s)).

(** [await fetch(searchUrl, ...)] together with the two readings of
    [performance.now()] around it. *)
Definition fetch (env : Env) (s : State) : Settled Response * Q * State :=
  (fetchOutcome env (fetchCalls s), requestTime env (fetchCalls s),
   mkState (currentFile s) (urlInput s) (searchCache s) (metrics s)
           (clockReads s) (S (fetchCalls s)) (randomCalls s)
           (effects s ++ [EffFetch (fetchCalls s)])).

(** [await this.sleep(ms)] (script.js, line 1538). *)
Definition sleep (ms : Q) (s : State) : State :=
  mkState (currentFile s) (urlInput s) (searchCache s) (metrics s)
          (clockReads s) (fetchCalls s) (randomCalls s)
          (effects s ++ [EffSleep ms]).

(** ** Constants of the constructor (script.js, lines 76-82) *)

Definition CACHE_EXPIRY : Z := 3600000.
Definition MAX_FILE_SIZE : Z := 25 * 1024 * 1024.
Definition SUPPORTED_FORMATS : list string :=
  ["image/jpeg"; "image/jpg"; "image/png";
   "image/gif"; "image/webp"; "image/bmp"; "image/avif"]%string.
Definition IMAGE_QUALITY_THRESHOLD : Q := 8 # 10.

(** ** Cache keys (script.js, lines 1503-1521) *)

(** [`${n}`] for an integer. *)
Definition Z_to_string (z : Z) : string := NilZero.string_of_int (Z.to_int z).

Definition hex_digit (d : Z) : ascii :=
  if d <? 10 then ascii_of_nat (Z.to_nat (48 + d))
  else ascii_of_nat (Z.to_nat (87 + d)).

(** [b.toString(16).padStart(2, '0')] for a byte. *)
Definition hex_byte (b : Z) : string :=
  String (hex_digit (b / 16)) (String (hex_digit (b mod 16)) EmptyString).

Definition hashFile (env : Env) (file : File) : Settled string :=
  match subtleDigest env file with
  | Rejected e => Rejected e
  | Fulfilled hashArray => Fulfilled (String.concat "" (map hex_byte hashArray))
  end.

Definition generateCacheKey (env : Env) (s : State) : Settled string :=
  match currentFile s with
  | Some file =>
      match hashFile env file with
      | Rejected e => Rejected e
      | Fulfilled hash =>
          Fulfilled ("file_" ++ hash ++ "_" ++ Z_to_string (fileSize file))%string
      end
  | None =>
      match urlInput s with
      | Some v =>
          if negb (String.eqb v "") then Fulfilled ("url_" ++ v)%string
          else Fulfilled "unknown"%string
      | None => Fulfilled "unknown"%string
      end
  end.

(** ** Binary64 arithmetic *)

(** The nearest integer, ties to the even one. *)
Definition roundHalfEven (x : Q) : Z :=
  let f := Qfloor x in
  match (x - inject_Z f ?= 1 # 2)%Q with
  | Lt => f
  | Gt => f + 1
  | Eq => if Z.even f then f else f + 1
  end.

(** The exponent [e] with [2^e <= |x| < 2^(e+1)], for [x] other than 0. *)
Definition binade (x : Q) : Z :=
  let e0 := Z.log2 (Z.abs (Qnum x)) - Z.log2 (Zpos (Qden x)) in
  if Qle_bool (2 ^ e0) (Qabs x) then e0 else e0 - 1.

(** The spacing of the binary64 numbers around [x]: 53 significant bits,
    and the spacing of the subnormal numbers below [2^-1022]. *)
Definition ulp (x : Q) : Q := (2 ^ (Z.max (binade x) (-1022) - 52))%Q.

(** The binary64 number nearest to [x], ties to the even significand: the
    result of every arithmetic operation of JS on the exact result [x].
    Overflow to [Infinity], which starts at [2^1024], is left out. *)
Definition binary64 (x : Q) : Q :=
  if Qeq_bool x 0 then 0%Q
  else (inject_Z (roundHalfEven (x / ulp x)) * ulp x)%Q.

(** ** [performSearch] (script.js, lines 926-1000) *)

Definition maxRetries : nat := 3.

(** How an async function ends: [return results], falling off the end
    ([undefined]), or [throw]. *)
Inductive Completion : Type :=
| Return (results : list RawMatch)
| ReturnUndefined
| Throw (e : JsError).

(** The cache write of lines 971-977: only a non-empty result array is
    stored. *)
Definition cacheWrite (cache : JsMap.t CacheEntry) (cacheKey : string)
    (results : list RawMatch) (now : Z) (rt : Q) : JsMap.t CacheEntry :=
  if (0 <? Z.of_nat (List.length results)) then
    JsMap.set cache cacheKey (mkEntry results now rt)
  else cache.

(** The body of the [try] block, lines 943-982. *)
Definition attemptOnce (env : Env) (cacheKey : string) (s : State)
  : Settled (list RawMatch) * State :=
  let '(outcome, rt, s1) := fetch env s in
  match outcome with
  | Rejected e => (Rejected e, s1)
  | Fulfilled response =>
      if negb (ok response) then
        (Rejected (Error ("API request failed: " ++ Z_to_string (status response)
                          ++ " " ++ statusText response)%string), s1)
      else
        match json response with
        | Rejected e => (Rejected e, s1)
        | Fulfilled JsonNull => (Rejected nullPropertyError, s1)
        | Fulfilled (JsonValue d) =>
            if truthy (error d) then
              (Rejected (Error (match error d with Some m => m | None => "" end)), s1)
            else
              let results := match result d with Some r => r | None => [] end in
              let s2 :=
                if (0 <? Z.of_nat (List.length results)) then
                  let '(now, s') := Date_now env s1 in
                  with_cache s' (cacheWrite (searchCache s') cacheKey results now rt)
                else s1 in
              let m := metrics s2 in
              let s3 := with_metrics s2
                          (mkMetrics (cacheHits m) (cacheMisses m)
                                     ((avgResponseTime m + rt) / 2)%Q) in
              (Fulfilled results, s3)
        end
  end.

(** [Math.pow(2, attempt) * 1000 + Math.random() * 1000]: two products
    and a sum, each rounded to binary64. *)
Definition backoffDelay (attempt : nat) (rnd : Q) : Q :=
  binary64 (binary64 (inject_Z (2 ^ Z.of_nat attempt) * 1000)
            + binary64 (rnd * 1000))%Q.

(** The [while (attempt < maxRetries)] loop.  [remaining] is its variant
    [maxRetries - attempt]; [remaining = 0] is the exit of the loop, after
    which the function falls off its end. *)
Fixpoint retryLoop (env : Env) (cacheKey : string) (remaining attempt : nat)
    (s : State) : Completion * State :=
  match remaining with
  | O => (ReturnUndefined, s)
  | S remaining' =>
      match attemptOnce env cacheKey s with
      | (Fulfilled results, s') => (Return results, s')
      | (Rejected e, s') =>
          let attempt := S attempt in
          if String.eqb (name e) "AbortError" then (Throw e, s')
          else if Nat.eqb attempt maxRetries then (Throw e, s')
          else
            let '(rnd, s'') := Math_random env s' in
            let delay := backoffDelay attempt rnd in
            retryLoop env cacheKey remaining' attempt (sleep delay s'')
      end
  end.

Definition performSearch (env : Env) (s : State) : Completion * State :=
  match generateCacheKey env s with
  | Rejected e => (Throw e, s)
  | Fulfilled cacheKey =>
      let '(hit, s1) :=
        match JsMap.get (searchCache s) cacheKey with
        | Some cachedResult =>
            let '(now, s') := Date_now env s in
            if now - timestamp cachedResult <? CACHE_EXPIRY
            then (Some (data cachedResult), s') else (None, s')
        | None => (None, s)
        end in
      match hit with
      | Some cached =>
          let m := metrics s1 in
          (Return cached,
           with_metrics s1 (mkMetrics (cacheHits m + 1) (cacheMisses m)
                                      (avgResponseTime m)))
      | None =>
          let m := metrics s1 in
          let s2 := with_metrics s1 (mkMetrics (cacheHits m) (cacheMisses m + 1)
                                               (avgResponseTime m)) in
          retryLoop env cacheKey maxRetries 0 s2
      end
  end.

(** ** [cleanupCache] (script.js, lines 1733-1748) *)

(** The first loop, lines 1735-1739: delete while iterating over the
    entries. *)
Definition cleanupCache_expired (now : Z) (cache : JsMap.t CacheEntry)
  : JsMap.t CacheEntry :=
  fold_left
    (fun m kv =>
       if now - timestamp (snd kv) >? CACHE_EXPIRY then JsMap.delete m (fst kv)
       else m)
    (JsMap.entries cache) cache.

(** The comparator [(a, b) => a[1].timestamp - b[1].timestamp], as the
    test [compareFn(a, b) <= 0]. *)
Definition byTimestamp (a b : string * CacheEntry) : bool :=
  timestamp (snd a) - timestamp (snd b) <=? 0.

(** The size limit, lines 1742-1747. *)
Definition cleanupCache_limit (cache : JsMap.t CacheEntry)
  : JsMap.t CacheEntry :=
  if JsMap.size cache >? 100 then
    let entries := Array_sort byTimestamp (JsMap.entries cache) in
    let toDelete := Array_slice0 entries (Z.of_nat (List.length entries) - 100) in
    fold_left (fun m kv => JsMap.delete m (fst kv)) toDelete cache
  else cache.

Definition cleanupCache (now : Z) (cache : JsMap.t CacheEntry)
  : JsMap.t CacheEntry :=
  cleanupCache_limit (cleanupCache_expired now cache).

(** ** [displayResults] (script.js, lines 1045-1048): the ranked list *)

Definition Qltb (x y : Q) : bool := negb (Qle_bool y x).

(** The comparator [(a, b) => b.similarity - a.similarity], as the test
    [compareFn(a, b) <= 0]. *)
Definition bySimilarityDesc (a b : RawMatch) : bool :=
  Qle_bool (similarity b - similarity a)%Q 0%Q.

Definition filteredResults (results : list RawMatch) : list RawMatch :=
  Array_slice0
    (Array_sort bySimilarityDesc
       (filter (fun r => Qltb (1 # 10)%Q (similarity r)) results))
    10.

(** ** File validation (script.js, lines 454-559) *)

(** A JS number that may be [NaN] ([None]). *)
Definition JsNum : Type := option Q.

Definition num_add (a b : JsNum) : JsNum :=
  match a, b with Some x, Some y => Some (x + y)%Q | _, _ => None end.
Definition num_sub (a b : JsNum) : JsNum :=
  match a, b with Some x, Some y => Some (x - y)%Q | _, _ => None end.
Definition num_mul (a b : JsNum) : JsNum :=
  match a, b with Some x, Some y => Some (x * y)%Q | _, _ => None end.
Definition num_abs (a : JsNum) : JsNum :=
  match a with Some x => Some (Qabs x) | None => None end.
(** Division; the only zero divisor below is [data.length / 4] of an empty
    buffer, whose dividend is [0] too: [0 / 0] is [NaN]. *)
Definition num_div (a : JsNum) (d : Q) : JsNum :=
  match a with
  | Some x => if Qeq_bool d 0%Q then None else Some (x / d)%Q
  | None => None
  end.
(** [a < b]: false when either side is [NaN]. *)
Definition num_ltb (a : JsNum) (b : Q) : bool :=
  match a with Some x => Qltb x b | None => false end.
(** [Math.min(1, a)]. *)
Definition Math_min1 (a : JsNum) : JsNum :=
  match a with
  | Some x => if Qle_bool 1 x then Some 1%Q else Some x
  | None => None
  end.

(** What loading the blob into an [Image] of [assessImageQuality] gives:
    [onload], whose handler runs to its end with the RGBA bytes that
    [getImageData] returned; [onerror]; or [onload] whose handler throws
    on the way (the context of the canvas is [null], or [drawImage] or
    [getImageData] refuse a canvas of that size), so that it never reaches
    its [resolve]. *)
Inductive ImageLoad : Type :=
| ImgLoaded (pixels : list Z)
| ImgError
| ImgLoadedThrows.

(** What [await] sees of a promise that has no way to reject: the value
    it was resolved with, or nothing at all when no handler ever settles
    it; the function awaiting it then never goes on. *)
Inductive Promise (A : Type) : Type :=
| Resolved (a : A)
| NeverSettled.
Arguments Resolved {A} a.
Arguments NeverSettled {A}.

(** [(r + g + b) / 3]; an index past the end reads [undefined] and makes
    the sum [NaN]. *)
Definition brightnessOf (r g b : option Z) : JsNum :=
  match r, g, b with
  | Some r, Some g, Some b => Some (inject_Z (r + g + b) / 3)%Q
  | _, _, _ => None
  end.

(** The [for (i = 0; i < data.length; i += 4)] loop, lines 531-543.
    [first] is [i = 0]; [prev] is the brightness of the pixel at [i - 4],
    which the loop recomputes from the same three bytes. *)
Fixpoint qualityLoop (first : bool) (prev : JsNum) (data : list Z)
    (sharpness contrast : JsNum) : JsNum * JsNum :=
  match data with
  | [] => (sharpness, contrast)
  | r :: rest =>
      let brightness := brightnessOf (Some r) (nth_error rest 0) (nth_error rest 1) in
      let sharpness' :=
        if first then sharpness
        else num_add sharpness (num_abs (num_sub brightness prev)) in
      let contrast' := num_add contrast brightness in
      match rest with
      | _ :: _ :: _ :: rest' => qualityLoop false brightness rest' sharpness' contrast'
      | _ => (sharpness', contrast')
      end
  end.

(** The promise of [assessImageQuality] has only a [resolve]: an
    exception inside [img.onload] is thrown in an event handler, outside
    the executor and outside every [try], and leaves the promise
    pending. *)
Definition assessImageQuality (img : ImageLoad) : Promise JsNum :=
  match img with
  | ImgError => Resolved (Some (5 # 10)%Q)
  | ImgLoadedThrows => NeverSettled
  | ImgLoaded data =>
      let '(sharpness, contrast) := qualityLoop true None data (Some 0%Q) (Some 0%Q) in
      let pixels := (inject_Z (Z.of_nat (List.length data)) / 4)%Q in
      let avgSharpness := num_div sharpness pixels in
      let avgBrightness := num_div contrast pixels in
      Resolved
        (Math_min1 (num_mul (num_div avgSharpness 50) (num_div avgBrightness 128)))
  end.

(** The two decodes [isValidImageFile] awaits: whether the [Image] of
    [validateImageIntegrity] loads, and what the [Image] of
    [assessImageQuality] loads. *)
Record ImageEnv : Type := mkImageEnv {
  integrityLoads : bool;
  qualityImage : ImageLoad
}.

Definition validateImageIntegrity (ienv : ImageEnv) : Settled unit :=
  if integrityLoads ienv then Fulfilled tt else Rejected (Error "Invalid image").

(** The calls of [showStatus] made by the validation. *)
Inductive Status : Type :=
| UnsupportedFileType (type : string)   (* kind 'error' *)
| FileTooLarge (size : Z)               (* kind 'error' *)
| LowQualityImage.                      (* kind 'warning' *)

(** The verdict and the statuses shown, or [NeverSettled] when the
    function never returns. *)
Definition isValidImageFile (ienv : ImageEnv) (file : File)
  : Promise (bool * list Status) :=
  if negb (existsb (String.eqb (fileType file)) SUPPORTED_FORMATS) then
    Resolved (false, [UnsupportedFileType (fileType file)])
  else if fileSize file >? MAX_FILE_SIZE then
    Resolved (false, [FileTooLarge (fileSize file)])
  else
    match validateImageIntegrity ienv with
    | Rejected _ => Resolved (true, [])
    | Fulfilled _ =>
        match assessImageQuality (qualityImage ienv) with
        | NeverSettled => NeverSettled
        | Resolved quality =>
            if num_ltb quality IMAGE_QUALITY_THRESHOLD
            then Resolved (true, [LowQualityImage])
            else Resolved (true, [])
        end
    end.

(** ** The request (script.js, lines 1005-1039) *)

(** The unreserved characters of [encodeURIComponent]:
    [A-Z a-z 0-9 - _ . ! ~ * ' ( )]. *)
Definition isUnreserved (c : ascii) : bool :=
  let n := Z.of_nat (nat_of_ascii c) in
  ((65 <=? n) && (n <=? 90)) || ((97 <=? n) && (n <=? 122))
  || ((48 <=? n) && (n <=? 57))
  || existsb (Z.eqb n) [45; 95; 46; 33; 126; 42; 39; 40; 41].

(** An upper-case hexadecimal digit. *)
Definition HEX_digit (d : Z) : ascii :=
  if d <? 10 then ascii_of_nat (Z.to_nat (48 + d))
  else ascii_of_nat (Z.to_nat (55 + d)).

(** [%XX] for one byte. *)
Definition percentEncode (c : ascii) : string :=
  let n := Z.of_nat (nat_of_ascii c) in
  String "%" (String (HEX_digit (n / 16)) (String (HEX_digit (n mod 16)) EmptyString)).

(** [encodeURIComponent] on a string given by its UTF-8 bytes: every byte
    that is not an unreserved character is escaped. *)
Fixpoint encodeURIComponent (s : string) : string :=
  match s with
  | EmptyString => EmptyString
  | String c s' =>
      if isUnreserved c then String c (encodeURIComponent s')
      else (percentEncode c ++ encodeURIComponent s')%string
  end.

Definition API_BASE_URL : string := "https://api.trace.moe".
Definition API_ENDPOINTS_search : string := "/search".

(** The options object of [buildRequestOptions]; [body] is the file
    appended to the form data under the name [image]. *)
Record RequestOptions : Type := mkOptions {
  method : string;
  body : option (option File);
  headers : list (string * string)
}.

Section Request.

(** [String.prototype.trim]. *)
Variable trim : string -> string.

(** [this.urlInput ? this.urlInput.value.trim() : ''] *)
Definition urlValueOf (s : State) : string :=
  match urlInput s with
  | Some v => trim v
  | None => EmptyString
  end.

Definition buildSearchUrl (s : State) : string :=
  let urlValue := urlValueOf s in
  if negb (String.eqb urlValue "") then
    (API_BASE_URL ++ API_ENDPOINTS_search ++ "?url=" ++ encodeURIComponent urlValue)%string
  else (API_BASE_URL ++ API_ENDPOINTS_search)%string.

Definition buildRequestOptions (s : State) : RequestOptions :=
  let urlValue := urlValueOf s in
  if negb (String.eqb urlValue "") then
    mkOptions "GET" None [("Accept", "application/json")]%string
  else
    mkOptions "POST" (Some (currentFile s)) [].

End Request.

(** ** Error messages (script.js, lines 1569-1609) *)

(** [String.prototype.toLowerCase] on ASCII text: bytes outside [A-Z] are
    left as they are. *)
Definition lowerChar (c : ascii) : ascii :=
  let n := nat_of_ascii c in
  if (65 <=? n)%nat && (n <=? 90)%nat then ascii_of_nat (n + 32) else c.

Fixpoint toLowerCase (s : string) : string :=
  match s with
  | EmptyString => EmptyString
  | String c s' => String (lowerChar c) (toLowerCase s')
  end.

(** [hay.includes(needle)]. *)
Fixpoint includes (hay needle : string) : bool :=
  if String.prefix needle hay then true
  else match hay with
       | EmptyString => false
       | String _ hay' => includes hay' needle
       end.

Definition getErrorMessage (e : JsError) : string :=
  let message := toLowerCase (message e) in
  if String.eqb (name e) "AbortError" then "Search was cancelled"
  else if includes message "network" || includes message "fetch"
          || includes message "failed to fetch" then
    "🌐 Network error. Please check your internet connection and try again."
  else if includes message "429" || includes message "rate limit" then
    "⏳ Too many requests. Please wait a moment and try again."
  else if includes message "500" || includes message "502"
          || includes message "503" then
    "🛠️ Server error. The service might be temporarily unavailable."
  else if includes message "400" || includes message "bad request" then
    "❌ Invalid request. Please check your image and try again."
  else if includes message "413" || includes message "payload too large" then
    "📏 Image too large. Please use a smaller image."
  else "🔧 Something went wrong. Please try again with a different image.".

(** ** [Number.prototype.toFixed] for 0 and 1 digits *)

(** The integer nearest to [x >= 0], the larger one on a tie. *)
Definition roundHalfUp (x : Q) : Z := Qfloor (x + (1 # 2)).

Definition signOf (x : Q) : string := if Qltb x 0 then "-" else "".

Definition toFixed0 (x : Q) : string :=
  (signOf x ++ Z_to_string (roundHalfUp (Qabs x)))%string.

Definition toFixed1 (x : Q) : string :=
  let n := roundHalfUp (Qabs x * 10) in
  (signOf x ++ Z_to_string (n / 10) ++ "." ++ Z_to_string (n mod 10))%string.

(** ** The search history and [searchAnime] (script.js, lines 784-829,
    846-921, 1345-1364) *)

Record HistoryItem : Type := mkHistoryItem {
  id : Z;                       (* Date.now() *)
  addedAt : Z;                  (* new Date() *)
  input : string;
  inputType : string;
  resultsCount : Z;
  topResult : option string;
  topSimilarity : Q
}.

(** A call of [showStatus(message, type)]. *)
Record StatusLine : Type := mkStatus {
  shownMessage : string;
  shownType : string
}.

(** The controller beyond the search core: the fields [searchAnime]
    reads and writes.  [resultsShown] is what the results container
    renders: [None] when cleared, the rendered items otherwise. *)
Record App : Type := mkApp {
  core : State;
  isSearching : bool;
  abortController : option nat;   (* the live AbortController, by number *)
  abortedControllers : list nat;  (* the controllers [abort()] was called on *)
  controllersMade : nat;
  searchHistory : list HistoryItem;
  successCount : Z;
  errorCount : Z;
  searchTimes : list Q;
  perfReads : nat;
  statusLog : list StatusLine;
  resultsShown : option (list RawMatch)
}.

(** What the browser supplies to [searchAnime] beyond [Env]. *)
Record AppEnv : Type := mkAppEnv {
  base : Env;
  performanceNow : nat -> Q;              (* performance.now() *)
  urlProtocol : string -> option string   (* new URL(url).protocol; None: it throws *)
}.

Definition with_core (a : App) (c : State) : App :=
  mkApp c (isSearching a) (abortController a) (abortedControllers a)
        (controllersMade a) (searchHistory a) (successCount a) (errorCount a)
        (searchTimes a) (perfReads a) (statusLog a) (resultsShown a).

Definition with_history (a : App) (h : list HistoryItem) : App :=
  mkApp (core a) (isSearching a) (abortController a) (abortedControllers a)
        (controllersMade a) h (successCount a) (errorCount a)
        (searchTimes a) (perfReads a) (statusLog a) (resultsShown a).

Definition with_counts (a : App) (ok_count err_count : Z) : App :=
  mkApp (core a) (isSearching a) (abortController a) (abortedControllers a)
        (controllersMade a) (searchHistory a) ok_count err_count
        (searchTimes a) (perfReads a) (statusLog a) (resultsShown a).

Definition with_results (a : App) (r : option (list RawMatch)) : App :=
  mkApp (core a) (isSearching a) (abortController a) (abortedControllers a)
        (controllersMade a) (searchHistory a) (successCount a) (errorCount a)
        (searchTimes a) (perfReads a) (statusLog a) r.

Definition showStatus (msg type : string) (a : App) : App :=
  mkApp (core a) (isSearching a) (abortController a) (abortedControllers a)
        (controllersMade a) (searchHistory a) (successCount a) (errorCount a)
        (searchTimes a) (perfReads a) (statusLog a ++ [mkStatus msg type])
        (resultsShown a).

(** [performance.now()]. *)
Definition performance_now (aenv : AppEnv) (a : App) : Q * App :=
  (performanceNow aenv (perfReads a),
   mkApp (core a) (isSearching a) (abortController a) (abortedControllers a)
         (controllersMade a) (searchHistory a) (successCount a) (errorCount a)
         (searchTimes a) (S (perfReads a)) (statusLog a) (resultsShown a)).

(** [isValidUrl] (lines 834-841). *)
Definition isValidUrl (aenv : AppEnv) (url : string) : bool :=
  match urlProtocol aenv url with
  | Some protocol => String.eqb protocol "http:" || String.eqb protocol "https:"
  | None => false
  end.

(** [startSearch] (lines 846-865); the loading animation is left out. *)
Definition startSearch (a : App) : App :=
  let aborted :=
    match abortController a with
    | Some c => abortedControllers a ++ [c]
    | None => abortedControllers a
    end in
  mkApp (core a) true (Some (controllersMade a)) aborted
        (S (controllersMade a)) (searchHistory a) (successCount a) (errorCount a)
        (searchTimes a) (perfReads a) (statusLog a) None.

(** [endSearch] (lines 897-910). *)
Definition endSearch (a : App) : App :=
  mkApp (core a) false None (abortedControllers a)
        (controllersMade a) (searchHistory a) (successCount a) (errorCount a)
        (searchTimes a) (perfReads a) (statusLog a) (resultsShown a).

(** [abortCurrentSearch] (lines 915-921). *)
Definition abortCurrentSearch (a : App) : App :=
  match abortController a with
  | Some c =>
      showStatus "🛑 Search cancelled" "info"
        (endSearch
           (mkApp (core a) (isSearching a) (abortController a)
                  (abortedControllers a ++ [c]) (controllersMade a)
                  (searchHistory a) (successCount a) (errorCount a)
                  (searchTimes a) (perfReads a) (statusLog a) (resultsShown a)))
  | None => a
  end.

(** [handleError] (lines 1569-1579). *)
Definition handleError (e : JsError) (context : string) (a : App) : App :=
  let message := getErrorMessage e in
  let message :=
    if negb (String.eqb context "") then (context ++ ": " ++ message)%string
    else message in
  let a1 := showStatus message "error" a in
  with_counts a1 (successCount a1) (errorCount a1 + 1).

(** The list part of [addToHistory]: [unshift], then [slice(0, 50)] when
    longer than 50. *)
Definition pushHistory (item : HistoryItem) (h : list HistoryItem)
  : list HistoryItem :=
  let h' := item :: h in
  if Z.of_nat (List.length h') >? 50 then Array_slice0 h' 50 else h'.

Section Controller.

(** [String.prototype.trim], and [extractAnimeTitle] on a match. *)
Variable trim : string -> string.
Variable extractAnimeTitle : RawMatch -> string.

(** [addToHistory] (lines 1345-1364), without the write to
    [localStorage]. *)
Definition addToHistory (aenv : AppEnv) (input : File + string)
    (results : list RawMatch) (a : App) : App :=
  let '(now1, c1) := Date_now (base aenv) (core a) in
  let '(now2, c2) := Date_now (base aenv) c1 in
  let historyItem :=
    mkHistoryItem
      now1 now2
      (match input with inr url => url | inl file => fileName file end)
      (match input with inr _ => "url" | inl _ => "file" end)
      (Z.of_nat (List.length results))
      (match results with r :: _ => Some (extractAnimeTitle r) | [] => None end)
      (match results with r :: _ => similarity r | [] => 0%Q end) in
  with_history (with_core a c2) (pushHistory historyItem (searchHistory a)).

(** [displayResults] (lines 1044-1067) and [showNoResults]
    (lines 1286-1303), as far as they change the rendered items. *)
Definition displayResults (results : list RawMatch) (a : App) : App :=
  with_results a (Some (filteredResults results)).

Definition showNoResults (a : App) : App :=
  showStatus "❌ No anime matches found. Try the tips above for better results."
             "error" (with_results a (Some [])).

(** [this.currentFile || urlValue]. *)
Definition searchInput (a : App) (urlValue : string) : File + string :=
  match currentFile (core a) with
  | Some file => inl file
  | None => inr urlValue
  end.

(** [searchAnime] (lines 784-829), run to completion: no other handler
    of the page runs while it awaits. *)
Definition searchAnime (aenv : AppEnv) (a : App) : App :=
  if isSearching a then a
  else
    let urlValue := urlValueOf trim (core a) in
    let noFile := match currentFile (core a) with None => true | Some _ => false end in
    if noFile && String.eqb urlValue "" then
      showStatus "❌ Please upload an image or provide an image URL" "error" a
    else if negb (String.eqb urlValue "") && negb (isValidUrl aenv urlValue) then
      showStatus "❌ Please provide a valid image URL" "error" a
    else
      let a1 := startSearch a in
      let '(searchStartTime, a2) := performance_now aenv a1 in
      let '(completion, c') := performSearch (base aenv) (core a2) in
      let a3 := with_core a2 c' in
      let a4 :=
        match completion with
        | Throw e =>
            handleError e "Search failed"
              (with_counts a3 (successCount a3) (errorCount a3 + 1))
        | Return _ | ReturnUndefined =>
            let results :=
              match completion with Return r => r | _ => [] end in
            let '(searchEndTime, a5) := performance_now aenv a3 in
            let searchTime := (searchEndTime - searchStartTime)%Q in
            let a6 :=
              mkApp (core a5) (isSearching a5) (abortController a5)
                    (abortedControllers a5) (controllersMade a5)
                    (searchHistory a5) (successCount a5) (errorCount a5)
                    (searchTimes a5 ++ [searchTime]) (perfReads a5)
                    (statusLog a5) (resultsShown a5) in
            if 0 <? Z.of_nat (List.length results) then
              let a7 := displayResults results a6 in
              let a8 := addToHistory aenv (searchInput a7 urlValue) results a7 in
              let a9 := with_counts a8 (successCount a8 + 1) (errorCount a8) in
              showStatus
                ("🎉 Found " ++ Z_to_string (Z.of_nat (List.length results))
                 ++ " matches in " ++ toFixed0 searchTime ++ "ms!")%string
                "success" a9
            else
              let a7 := showNoResults a6 in
              addToHistory aenv (searchInput a7 urlValue) [] a7
        end in
      endSearch a4.

End Controller.

(** ** Presentation of a match (script.js, lines 1163-1252) *)

(** [Math.trunc] and the remainder [n % d] of JS numbers. *)
Definition Qtrunc (x : Q) : Z := if Qltb x 0 then Qceiling x else Qfloor x.
Definition jsRem (n d : Q) : Q := (n - d * inject_Z (Qtrunc (n / d)))%Q.

(** [s.padStart(2, '0')]. *)
Definition padStart2 (s : string) : string :=
  match String.length s with
  | O => "00"
  | S O => String "0" s
  | _ => s
  end.

(** The local [formatTime] of [formatTimestamp]. *)
Definition formatTime (seconds : Q) : string :=
  let minutes := Qfloor (seconds / 60) in
  let secs := Qfloor (jsRem seconds 60) in
  (Z_to_string minutes ++ ":" ++ padStart2 (Z_to_string secs))%string.

(** [formatTimestamp(from, to)]; [None] is [undefined] for the arguments
    and [null] for the result. *)
Definition formatTimestamp (from to : option Q) : option string :=
  match from, to with
  | Some f, Some t =>
      if Qeq_bool f t then Some ("At " ++ formatTime f)%string
      else Some (formatTime f ++ " - " ++ formatTime t)%string
  | _, _ => None
  end.

(** The [episode] field: missing or [null], an integer, or a string. *)
Inductive Episode : Type :=
| EpMissing
| EpNumber (n : Z)
| EpString (s : string).

(** [s.split(sep)] for a separator of one character. *)
Fixpoint splitOn (sep : ascii) (s : string) : list string :=
  match s with
  | EmptyString => [EmptyString]
  | String c s' =>
      if Ascii.eqb c sep then EmptyString :: splitOn sep s'
      else match splitOn sep s' with
           | x :: xs => String c x :: xs
           | [] => [String c EmptyString]
           end
  end.

(** [formatEpisode] (lines 1222-1233); a missing part of the
    destructuring prints as [undefined]. *)
Definition formatEpisode (episode : Episode) : string :=
  match episode with
  | EpMissing => "Episode Unknown"
  | EpString s =>
      if includes s "|" then
        let parts := splitOn "|" s in
        ("Episode " ++ nth 0 parts "undefined" ++ " of " ++ nth 1 parts "undefined")%string
      else ("Episode " ++ s)%string
  | EpNumber n => ("Episode " ++ Z_to_string n)%string
  end.

(** [formatRelativeTime] (lines 1523-1536) on the difference
    [now - new Date(date)] in milliseconds; [localeDate] is what
    [toLocaleDateString()] prints for the date. *)
Definition formatRelativeTime (diffMs : Z) (localeDate : string) : string :=
  let diffMins := diffMs / 60000 in
  let diffHours := diffMs / 3600000 in
  let diffDays := diffMs / 86400000 in
  if diffMins <? 1 then "Just now"
  else if diffMins <? 60 then (Z_to_string diffMins ++ "m ago")%string
  else if diffHours <? 24 then (Z_to_string diffHours ++ "h ago")%string
  else if diffDays <? 7 then (Z_to_string diffDays ++ "d ago")%string
  else localeDate.

(** The [title] object of an AniList record; a missing or [null] name is
    [None]. *)
Record AnilistTitle : Type := mkTitle {
  english : option string;
  romaji : option string;
  native : option string
}.

(** The fields of a match that [extractAnimeTitle] reads; [anilistTitle]
    is [result.anilist.title] when [result.anilist] is an object that has
    one. *)
Record ResultTitleView : Type := mkTitleView {
  anilistTitle : option AnilistTitle;
  viewFilename : option string;
  anime : option string
}.

(** [a || b] on strings that may be missing: the first non-empty one. *)
Definition orElse (a : option string) (b : string) : string :=
  match a with
  | Some s => if String.eqb s "" then b else s
  | None => b
  end.

Section Titles.

(** The chain of [replace] calls and the final [trim] and prefix removal
    of [extractTitleFromFilename] (lines 1201-1214). *)
Variable stripReleaseTags : string -> string.

Definition extractTitleFromFilename (filename : string) : string :=
  if String.eqb filename "" then "Unknown Anime"
  else orElse (Some (stripReleaseTags filename)) "Unknown Anime".

Definition extractAnimeTitleOf (result : ResultTitleView) : string :=
  match anilistTitle result with
  | Some title =>
      orElse (english title) (orElse (romaji title) (orElse (native title) "Unknown Title"))
  | None =>
      match viewFilename result with
      | Some f =>
          if String.eqb f "" then orElse (anime result) "Unknown Anime"
          else extractTitleFromFilename f
      | None => orElse (anime result) "Unknown Anime"
      end
  end.

End Titles.

(** ** The confidence label (script.js, lines 1097-1098, 1238-1252) *)

Definition isDigit (c : ascii) : bool :=
  let n := nat_of_ascii c in (48 <=? n)%nat && (n <=? 57)%nat.

(** The longest run of decimal digits at the head of a string, and the
    rest. *)
Fixpoint takeDigits (s : string) : string * string :=
  match s with
  | EmptyString => (EmptyString, EmptyString)
  | String c s' =>
      if isDigit c then let '(d, r) := takeDigits s' in (String c d, r)
      else (EmptyString, s)
  end.

Definition digitsValue (digits : string) : Z :=
  match NilEmpty.uint_of_string digits with
  | Some u => Z.of_uint u
  | None => 0
  end.

(** [parseFloat] on decimal text: an optional sign, digits, and an
    optional fraction; whatever follows is ignored, and text with no digit
    parses to [NaN].  Leading white space, exponents and [Infinity], which
    [toFixed] never prints for the numbers formatted here, are not
    read. *)
Definition parseFloat (s : string) : JsNum :=
  let '(negative, s1) :=
    match s with
    | String "-" r => (true, r)
    | String "+" r => (false, r)
    | _ => (false, s)
    end in
  let '(ip, s2) := takeDigits s1 in
  let '(fp, _) :=
    match s2 with
    | String "." r => takeDigits r
    | _ => (EmptyString, s2)
    end in
  if (String.length ip + String.length fp =? 0)%nat then None
  else
    let v := (inject_Z (digitsValue ip)
              + inject_Z (digitsValue fp)
                / inject_Z (10 ^ Z.of_nat (String.length fp)))%Q in
    Some (if negative then (- v)%Q else v).

(** [a >= b]: false when [a] is [NaN]. *)
Definition num_geb (a : JsNum) (b : Q) : bool :=
  match a with Some x => Qle_bool b x | None => false end.

(** [getConfidenceLevel(similarity)]: the class and the text. *)
Definition getConfidenceLevel (similarity : string) : string * string :=
  let sim := parseFloat similarity in
  if num_geb sim 90 then ("high", "🟢 Excellent")%string
  else if num_geb sim 75 then ("high", "🟢 High")%string
  else if num_geb sim 60 then ("medium", "🟡 Medium")%string
  else if num_geb sim 40 then ("medium", "🟡 Low")%string
  else ("low", "🔴 Very Low")%string.

(** [((result.similarity || 0) * 100).toFixed(1)] (line 1097): the
    product is rounded to binary64, and [toFixed] prints the decimal
    nearest to the number it is given. *)
Definition similarityText (r : RawMatch) : string :=
  toFixed1 (binary64 (similarity r * 100)).

(** ** Vocabulary of the statements *)

(** [attemptFails o e]: an attempt whose [fetch] settles to [o] leaves the
    [try] block by throwing [e]. *)
Inductive attemptFails : Settled Response -> JsError -> Prop :=
| fails_fetch e :
    attemptFails (Rejected e) e
| fails_status r :
    ok r = false ->
    attemptFails (Fulfilled r)
      (Error ("API request failed: " ++ Z_to_string (status r)
              ++ " " ++ statusText r)%string)
| fails_json r e :
    ok r = true -> json r = Rejected e ->
    attemptFails (Fulfilled r) e
| fails_null r :
    ok r = true -> json r = Fulfilled JsonNull ->
    attemptFails (Fulfilled r) nullPropertyError
| fails_service r d msg :
    ok r = true -> json r = Fulfilled (JsonValue d) ->
    error d = Some msg -> msg <> ""%string ->
    attemptFails (Fulfilled r) (Error msg).

(** [error.name === 'AbortError']. *)
Definition isAbort (e : JsError) : bool := String.eqb (name e) "AbortError".

(** The retryable failures: a network failure, a status outside 200-299,
    an [error] field reported by the service. *)
Inductive retryableFailure : Settled Response -> JsError -> Prop :=
| retry_network e :
    isAbort e = false -> retryableFailure (Rejected e) e
| retry_status r :
    ok r = false ->
    retryableFailure (Fulfilled r)
      (Error ("API request failed: " ++ Z_to_string (status r)
              ++ " " ++ statusText r)%string)
| retry_service r d msg :
    ok r = true -> json r = Fulfilled (JsonValue d) ->
    error d = Some msg -> msg <> ""%string ->
    retryableFailure (Fulfilled r) (Error msg).

(** A 2xx response whose body [response.json()] cannot parse. *)
Definition unparseable (o : Settled Response) (e : JsError) : Prop :=
  exists r, o = Fulfilled r /\ ok r = true /\ json r = Rejected e
            /\ name e = "SyntaxError"%string.

(** The body has neither an [error] nor a [result] field. *)
Definition lacksBothFields (b : JsonBody) : Prop :=
  match b with
  | JsonNull => True
  | JsonValue d => error d = None /\ result d = None
  end.

(** The cache probe of lines 932-933 finds nothing usable under [k]. *)
Definition probeMisses (env : Env) (s : State) (k : string) : bool :=
  match JsMap.get (searchCache s) k with
  | Some cachedResult =>
      negb (dateNow env (clockReads s) - timestamp cachedResult <? CACHE_EXPIRY)
  | None => true
  end.

(** The delays slept and the fetches issued within a run of effects. *)
Definition sleepsOf (l : list Effect) : list Q :=
  flat_map (fun x => match x with EffSleep d => [d] | EffFetch _ => [] end) l.
Definition fetchesOf (l : list Effect) : list nat :=
  flat_map (fun x => match x with EffFetch n => [n] | EffSleep _ => [] end) l.

(** [Math.random()] returns a number in [[0, 1)]. *)
Definition randomInRange (env : Env) : Prop :=
  forall i, (0 <= mathRandom env i /\ mathRandom env i < 1)%Q.

(** A run of fetches numbered from [n] with the delays [ds] slept between
    them: a fetch, then for each delay a sleep followed at once by the
    next fetch.  The run ends with a fetch. *)
Fixpoint runOf (n : nat) (ds : list Q) : list Effect :=
  EffFetch n ::
  match ds with
  | [] => []
  | d :: ds' => EffSleep d :: runOf (S n) ds'
  end.

(** The delays of the first [n] backoffs of a loop that has failed
    [attempt] times and drawn [r] random numbers. *)
Definition backoffs (env : Env) (attempt r n : nat) : list Q :=
  map (fun i => backoffDelay (S (attempt + i)) (mathRandom env (r + i)))
      (seq 0 n).

(** Two states that have made the same calls to the network, to
    [Math.random] and to [sleep]; their caches, clocks and metrics may
    differ. *)
Definition sameWorld (s1 s2 : State) : Prop :=
  fetchCalls s1 = fetchCalls s2 /\ randomCalls s1 = randomCalls s2
  /\ effects s1 = effects s2.

(** The cache reached from the empty one by a sequence of insertions
    [searchCache.set(key, entry)]. *)
Definition insertAll (ins : list (string * CacheEntry)) : JsMap.t CacheEntry :=
  fold_left (fun m kv => JsMap.set m (fst kv) (snd kv)) ins JsMap.empty.

(** The test of line 1736 on one entry. *)
Definition expiredAt (now : Z) (kv : string * CacheEntry) : bool :=
  now - timestamp (snd kv) >? CACHE_EXPIRY.

(** [kv] has none of the keys of [D]. *)
Definition keyNotIn {V} (D : list (string * V)) (kv : string * V) : bool :=
  negb (existsb (String.eqb (fst kv)) (map fst D)).

(** The state once an attempt has failed in [s] and the backoff after it
    has been slept. *)
Definition backedOff (env : Env) (attempt : nat) (s : State) : State :=
  sleep (backoffDelay attempt (mathRandom env (randomCalls s)))
        (snd (Math_random env (snd (fetch env s)))).

(** Further cache writes [(key, results, now, rt)], oldest first. *)
Definition writeAll (cache : JsMap.t CacheEntry)
    (writes : list (string * list RawMatch * Z * Q)) : JsMap.t CacheEntry :=
  fold_left (fun c w => let '(key, results, now, rt) := w in
                        cacheWrite c key results now rt)
            writes cache.

(** The value of a hexadecimal digit, of either case. *)
Definition hexValue (c : ascii) : Z :=
  let n := Z.of_nat (nat_of_ascii c) in
  if n <? 58 then n - 48 else if n <? 71 then n - 55 else n - 87.

(** The bytes of a [Uint8Array]. *)
Definition isByte (b : Z) : Prop := 0 <= b < 256.

(** The state after the user has edited the URL field. *)
Definition with_urlInput (s : State) (v : option string) : State :=
  mkState (currentFile s) v (searchCache s) (metrics s)
          (clockReads s) (fetchCalls s) (randomCalls s) (effects s).

(** [searchAnime] gets past its three guards: no search is running, there
    is a file or a non-blank URL, and a non-blank URL is valid. *)
Definition searchRuns (trim : string -> string) (aenv : AppEnv) (a : App) : bool :=
  let urlValue := urlValueOf trim (core a) in
  negb (isSearching a)
  && negb (match currentFile (core a) with None => true | Some _ => false end
           && String.eqb urlValue "")
  && negb (negb (String.eqb urlValue "") && negb (isValidUrl aenv urlValue)).

(** A run of calls of [addToHistory], oldest first. *)
Definition addAllToHistory (extractAnimeTitle : RawMatch -> string)
    (aenv : AppEnv) (adds : list ((File + string) * list RawMatch)) (a : App)
  : App :=
  fold_left (fun a p => addToHistory extractAnimeTitle aenv (fst p) (snd p) a)
            adds a.

(** What [addToHistory] records of its arguments. *)
Definition records (extractAnimeTitle : RawMatch -> string)
    (item : HistoryItem) (p : (File + string) * list RawMatch) : Prop :=
  input item = match fst p with inr url => url | inl file => fileName file end
  /\ inputType item = match fst p with inr _ => "url" | inl _ => "file" end%string
  /\ resultsCount item = Z.of_nat (List.length (snd p))
  /\ topResult item = option_map extractAnimeTitle (hd_error (snd p))
  /\ (snd p = [] -> topSimilarity item = 0%Q).

(** No search running means no live controller. *)
Definition controllerInvariant (a : App) : Prop :=
  isSearching a = false -> abortController a = None.

(** The message [performSearch] throws for a response that is not ok. *)
Definition statusError (status : Z) (text : string) : JsError :=
  Error ("API request failed: " ++ Z_to_string status ++ " " ++ text)%string.

(** The status line shown for each HTTP status when the status text is
    empty. *)
Definition messageForStatus (status : Z) : string :=
  if status =? 429 then
    "⏳ Too many requests. Please wait a moment and try again."
  else if (status =? 500) || (status =? 502) || (status =? 503) then
    "🛠️ Server error. The service might be temporarily unavailable."
  else if status =? 400 then
    "❌ Invalid request. Please check your image and try again."
  else if status =? 413 then
    "📏 Image too large. Please use a smaller image."
  else "🔧 Something went wrong. Please try again with a different image.".

(** Two decimal digits. *)
Definition twoDigits (n : Z) : string :=
  String (ascii_of_nat (Z.to_nat (48 + n / 10)))
         (String (ascii_of_nat (Z.to_nat (48 + n mod 10))) EmptyString).

(** [c] does not occur in [s]. *)
Fixpoint lacks (c : ascii) (s : string) : bool :=
  match s with
  | EmptyString => true
  | String c' s' => negb (Ascii.eqb c' c) && lacks c s'
  end.

(** Whole seconds printed as minutes and two-digit seconds. *)
Definition clockOf (seconds : Q) : string :=
  (Z_to_string (Qfloor seconds / 60) ++ ":" ++ twoDigits (Qfloor seconds mod 60))%string.

(** The label for a percentage given in tenths of a percent. *)
Definition labelOfTenths (n : Z) : string * string :=
  if 900 <=? n then ("high", "🟢 Excellent")%string
  else if 750 <=? n then ("high", "🟢 High")%string
  else if 600 <=? n then ("medium", "🟡 Medium")%string
  else if 400 <=? n then ("medium", "🟡 Low")%string
  else ("low", "🔴 Very Low")%string.

(** The RGBA bytes of an image given pixel by pixel, as [getImageData]
    lays them out. *)
Definition flattenPixels (ps : list (Z * Z * Z * Z)) : list Z :=
  flat_map (fun p => let '(r, g, b, a) := p in [r; g; b; a]) ps.

Definition isPixel (p : Z * Z * Z * Z) : Prop :=
  let '(r, g, b, a) := p in isByte r /\ isByte g /\ isByte b /\ isByte a.

(** ** Concrete inputs *)

Module Sample.

Definition match_a : RawMatch := mkMatch (95 # 100) "a.mp4" (Some 3).
Definition match_b : RawMatch := mkMatch (5 # 100) "b.mp4" None.
Definition match_c : RawMatch := mkMatch (95 # 100) "c.mp4" (Some 7).
Definition match_d : RawMatch := mkMatch (99 # 100) "d.mp4" (Some 1).

Definition png : File := mkFile "shot.png" "image/png" 2048.

Definition no_metrics : Metrics := mkMetrics 0 0 0.

(** A search by URL and a search by file, both with an empty cache. *)
Definition url_state : State :=
  mkState None (Some "https://example.org/a.png"%string) JsMap.empty
          no_metrics 0 0 0 [].
Definition url_key : string := "url_https://example.org/a.png".
Definition file_state : State :=
  mkState (Some png) None JsMap.empty no_metrics 0 0 0 [].

Definition TypeError : JsError := mkError "TypeError" "Failed to fetch".
Definition AbortError : JsError := mkError "AbortError" "The user aborted a request.".
Definition SyntaxError : JsError := mkError "SyntaxError" "Unexpected token < in JSON".

Definition digest_ok (_ : File) : Settled (list Z) := Fulfilled [1; 2; 255].
Definition clock (n : nat) : Z := 1000 * Z.of_nat n.
Definition half (_ : nat) : Q := 1 # 2.
Definition twelve_ms (_ : nat) : Q := 12.

Definition respond (d : Settled ApiData) : Settled Response :=
  Fulfilled (mkResponse 200 "OK"
               match d with
               | Fulfilled v => Fulfilled (JsonValue v)
               | Rejected e => Rejected e
               end).

(** The network is down. *)
Definition env_offline : Env :=
  mkEnv digest_ok clock (fun _ => Rejected TypeError) twelve_ms half.
(** The network is down and [Math.random()] returns [1 - 2^-52]. *)
Definition env_offline_top : Env :=
  mkEnv digest_ok clock (fun _ => Rejected TypeError) twelve_ms
        (fun _ => 1 - (1 # 4503599627370496))%Q.
(** The service answers 200 with a body that is not JSON. *)
Definition env_malformed : Env :=
  mkEnv digest_ok clock (fun _ => respond (Rejected SyntaxError)) twelve_ms half.
(** The first attempt fails, the second is cancelled, the service would
    answer the third. *)
Definition env_cancelled : Env :=
  mkEnv digest_ok clock
        (fun n => match n with
                  | O => Rejected TypeError
                  | S O => Rejected AbortError
                  | _ => respond (Fulfilled (mkData None (Some [match_a])))
                  end)
        twelve_ms half.
(** The service answers every request with one match, but hashing the
    file fails. *)
Definition env_nohash : Env :=
  mkEnv (fun _ => Rejected (mkError "TypeError" "crypto.subtle is undefined"))
        clock (fun _ => respond (Fulfilled (mkData None (Some [match_a]))))
        twelve_ms half.
(** The service answers 200 with the body [{}]. *)
Definition env_empty_object : Env :=
  mkEnv digest_ok clock (fun _ => respond (Fulfilled (mkData None None)))
        twelve_ms half.
(** The service answers 200 with the body [null]. *)
Definition env_null_body : Env :=
  mkEnv digest_ok clock
        (fun _ => Fulfilled (mkResponse 200 "OK" (Fulfilled JsonNull)))
        twelve_ms half.
(** The body is [null] at the first attempt and [{}] afterwards. *)
Definition env_empty_object_later : Env :=
  mkEnv digest_ok clock
        (fun n => match n with
                  | O => Fulfilled (mkResponse 200 "OK" (Fulfilled JsonNull))
                  | _ => respond (Fulfilled (mkData None None))
                  end)
        twelve_ms half.
(** The service answers every request with one match. *)
Definition env_one_match : Env :=
  mkEnv digest_ok clock (fun _ => respond (Fulfilled (mkData None (Some [match_a]))))
        twelve_ms half.

(** A search by URL whose key was cached at time [0], before another
    URL was cached at [500]; the next reading of the clock gives [1000]. *)
Definition cached_state : State :=
  mkState None (Some "https://example.org/a.png"%string)
          (cacheWrite (cacheWrite JsMap.empty url_key [match_a] 0 12)
                      "url_https://example.org/b.png" [match_d] 500 9)
          no_metrics 1 1 0 [EffFetch 0].

(** A cache whose only entry was written at time [0], a search for its
    key, and a clock that reads exactly [CACHE_EXPIRY]. *)
Definition boundary_cache : JsMap.t CacheEntry :=
  [(url_key, mkEntry [match_a] 0 12)].
Definition boundary_state : State :=
  mkState None (Some "https://example.org/a.png"%string) boundary_cache
          no_metrics 0 0 0 [].
Definition env_at_expiry : Env :=
  mkEnv digest_ok (fun _ => CACHE_EXPIRY)
        (fun _ => respond (Fulfilled (mkData None (Some [match_a]))))
        twelve_ms half.

(** A PNG within the size limit, a PDF, and a PNG one byte over it. *)
Definition pdf : File := mkFile "scan.pdf" "application/pdf" 2048.
Definition huge : File := mkFile "huge.png" "image/png" (MAX_FILE_SIZE + 1).
(** Neither decode succeeds. *)
Definition env_no_decode : ImageEnv := mkImageEnv false ImgError.
(** The integrity decode succeeds, the quality decode fails. *)
Definition env_no_quality : ImageEnv := mkImageEnv true ImgError.
(** Both images load, and a canvas call in the handler of the second
    throws. *)
Definition env_canvas_throws : ImageEnv := mkImageEnv true ImgLoadedThrows.

(** A stand-in for [trim] that removes one leading blank. *)
Definition trim_one (s : string) : string :=
  match s with
  | String " " rest => rest
  | _ => s
  end.
(** A file and a URL at once, with an empty cache. *)
Definition both_state : State :=
  mkState (Some png) (Some "https://example.org/a.png"%string) JsMap.empty
          no_metrics 0 0 0 [].
(** The same URL typed with a leading blank. *)
Definition blank_url_state : State :=
  mkState None (Some " https://example.org/a.png"%string) JsMap.empty
          no_metrics 0 0 0 [].

(** The controller as the constructor leaves it, with a URL typed. *)
Definition fresh_app : App :=
  mkApp url_state false None [] 0 [] 0 0 [] 0 [] None.
(** Every URL parses as an [https:] URL; the clock of [performance.now()]
    advances by 40 ms per reading. *)
Definition app_env (env : Env) : AppEnv :=
  mkAppEnv env (fun n => inject_Z (40 * Z.of_nat n)) (fun _ => Some "https:"%string).
Definition no_trim (s : string) : string := s.
Definition title_of (m : RawMatch) : string := filename m.

End Sample.

(** * Properties *)

(** ** The JS [Map] *)

Section JsMapFacts.

Context {V : Type}.
Implicit Types (m : JsMap.t V) (k : string) (v : V).

Lemma get_set_same m k v : JsMap.get (JsMap.set m k v) k = Some v.
Proof.
  induction m as [|[k' v'] m IH]; simpl.
  - now rewrite String.eqb_refl.
  - destruct (String.eqb k' k) eqn:E; simpl.
    + now rewrite String.eqb_refl.
    + now rewrite E.
Qed.

Lemma get_set_other m k k' v :
  k <> k' -> JsMap.get (JsMap.set m k v) k' = JsMap.get m k'.
Proof.
  intros Hne. induction m as [|[k0 v0] m IH]; simpl.
  - destruct (String.eqb_spec k k'); congruence.
  - destruct (String.eqb_spec k0 k) as [->|Hk]; simpl.
    + destruct (String.eqb_spec k k'); congruence.
    + destruct (String.eqb_spec k0 k'); congruence.
Qed.

Lemma keys_set_In m k v k' :
  In k' (JsMap.keys (JsMap.set m k v)) <-> k' = k \/ In k' (JsMap.keys m).
Proof.
  induction m as [|[k0 v0] m IH]; simpl.
  - intuition congruence.
  - destruct (String.eqb_spec k0 k) as [->|Hk]; simpl.
    + intuition congruence.
    + rewrite IH. intuition congruence.
Qed.

Lemma existsb_eqb_In (k : string) (l : list string) :
  existsb (String.eqb k) l = true <-> In k l.
Proof.
  rewrite existsb_exists. split.
  - intros [x [Hx E]]. apply String.eqb_eq in E. now subst.
  - intros H. exists k. split; [assumption | apply String.eqb_refl].
Qed.

Lemma wf_NoDup m : JsMap.wf m = true <-> NoDup (JsMap.keys m).
Proof.
  induction m as [|[k v] m IH]; simpl.
  - split; [constructor | reflexivity].
  - rewrite andb_true_iff, negb_true_iff, IH, NoDup_cons_iff.
    rewrite <- not_true_iff_false, existsb_eqb_In. reflexivity.
Qed.

(** Insertion keeps one entry per key. *)
Lemma wf_set m k v : JsMap.wf m = true -> JsMap.wf (JsMap.set m k v) = true.
Proof.
  rewrite !wf_NoDup. induction m as [|[k0 v0] m IH]; simpl; intros H.
  - constructor; [intros [] | constructor].
  - apply NoDup_cons_iff in H as [Hn Hd].
    destruct (String.eqb_spec k0 k) as [->|Hk]; simpl.
    + now constructor.
    + constructor; [|now apply IH].
      change (~ In k0 (JsMap.keys (JsMap.set m k v))).
      rewrite keys_set_In. intuition congruence.
Qed.

(** Every cache built by insertions alone has one entry per key. *)
Lemma wf_insertions (ins : list (string * V)) :
  JsMap.wf (fold_left (fun m kv => JsMap.set m (fst kv) (snd kv)) ins JsMap.empty)
  = true.
Proof.
  assert (G : forall m, JsMap.wf m = true ->
    JsMap.wf (fold_left (fun m kv => JsMap.set m (fst kv) (snd kv)) ins m) = true).
  { induction ins as [|[k v] ins IH]; simpl; intros m Hm; [assumption|].
    apply IH. now apply wf_set. }
  now apply G.
Qed.

End JsMapFacts.

(** ** Binary64 arithmetic *)

Lemma roundHalfEven_le x k : (x <= inject_Z k)%Q -> roundHalfEven x <= k.
Proof.
  intros H. unfold roundHalfEven.
  pose proof (Qfloor_le x) as Hf. pose proof (Qlt_floor x) as Hc.
  assert (Hfk : Qfloor x <= k).
  { rewrite Zle_Qle. lra. }
  destruct (Qcompare_spec (x - inject_Z (Qfloor x)) (1 # 2)) as [E | E | E].
  - destruct (Z.even (Qfloor x)); [assumption |].
    assert (Qfloor x < k); [| lia].
    rewrite Zlt_Qlt. lra.
  - assumption.
  - assert (Qfloor x < k); [| lia].
    rewrite Zlt_Qlt. lra.
Qed.

Lemma roundHalfEven_ge x k : (inject_Z k <= x)%Q -> k <= roundHalfEven x.
Proof.
  intros H. unfold roundHalfEven.
  pose proof (Qlt_floor x) as Hc.
  assert (Hfk : k <= Qfloor x).
  { assert (k < Qfloor x + 1); [| lia].
    rewrite Zlt_Qlt. rewrite inject_Z_plus in *. lra. }
  destruct (Qcompare_spec (x - inject_Z (Qfloor x)) (1 # 2)) as [E | E | E];
    [destruct (Z.even (Qfloor x)) | |]; lia.
Qed.

(** The rounded integer is within one half of the number. *)
Lemma roundHalfEven_nearest x :
  (Qabs (inject_Z (roundHalfEven x) - x) <= 1 # 2)%Q.
Proof.
  unfold roundHalfEven.
  pose proof (Qfloor_le x) as Hf. pose proof (Qlt_floor x) as Hc.
  rewrite inject_Z_plus in Hc. change (inject_Z 1) with 1%Q in Hc.
  apply Qabs_Qle_condition.
  destruct (Qcompare_spec (x - inject_Z (Qfloor x)) (1 # 2)) as [E | E | E];
    [destruct (Z.even (Qfloor x)) | |];
    rewrite ?inject_Z_plus; change (inject_Z 1) with 1%Q; split; lra.
Qed.

Lemma ulp_pos x : (0 < ulp x)%Q.
Proof. unfold ulp. apply Qpower_0_lt. reflexivity. Qed.

Lemma two_power_split a b :
  0 <= b -> (2 ^ (a - b) * inject_Z (2 ^ b) == 2 ^ a)%Q.
Proof.
  intros Hb. rewrite (Zpower_Qpower 2 b) by assumption.
  change (inject_Z 2) with 2%Q.
  rewrite <- Qpower_plus by discriminate. now replace (a - b + b) with a by lia.
Qed.

(** [binade x] is the exponent of the power of two at or below [|x|]. *)
Lemma binade_spec x :
  ~ (x == 0)%Q ->
  (2 ^ binade x <= Qabs x /\ Qabs x < 2 ^ (binade x + 1))%Q.
Proof.
  destruct x as [n d]. intros Hnz.
  assert (Hn : 0 < Z.abs n).
  { assert (n <> 0); [| lia]. intros ->. apply Hnz. reflexivity. }
  pose proof (Z.log2_spec (Z.abs n) Hn) as [Ha1 Ha2].
  pose proof (Z.log2_spec (Z.pos d) eq_refl) as [Hd1 Hd2].
  pose proof (Z.log2_nonneg (Z.abs n)) as Hla.
  pose proof (Z.log2_nonneg (Z.pos d)) as Hld.
  unfold binade. cbn [Qnum Qden].
  set (la := Z.log2 (Z.abs n)) in *. set (ld := Z.log2 (Z.pos d)) in *.
  assert (Hx : (Qabs (n # d) * inject_Z (Z.pos d) == inject_Z (Z.abs n))%Q).
  { unfold Qeq. cbn [Qabs Qmult Qnum Qden inject_Z]. lia. }
  assert (Hdq : (0 < inject_Z (Z.pos d))%Q) by reflexivity.
  assert (Hpos : forall e, (0 < 2 ^ e)%Q) by (intros e; now apply Qpower_0_lt).
  (* upper bound: |x| < 2^(la - ld + 1) *)
  assert (Hup : (Qabs (n # d) < 2 ^ (la - ld + 1))%Q).
  { apply (Qmult_lt_r _ _ (inject_Z (2 ^ ld))).
    { rewrite <- (Zlt_Qlt 0). apply Z.pow_pos_nonneg; lia. }
    replace (la - ld + 1) with (la + 1 - ld) by lia.
    rewrite (two_power_split (la + 1) ld Hld).
    apply Qle_lt_trans with (Qabs (n # d) * inject_Z (Z.pos d))%Q.
    - apply Qmult_le_l.
      + unfold Qlt. cbn [Qabs Qnum Qden]. lia.
      + now rewrite <- Zle_Qle.
    - rewrite Hx. rewrite <- (Zpower_Qpower 2 (la + 1)) by lia.
      rewrite <- Zlt_Qlt. exact Ha2. }
  (* lower bound: 2^(la - ld - 1) <= |x| *)
  assert (Hlow : (2 ^ (la - ld - 1) <= Qabs (n # d))%Q).
  { apply (Qmult_le_r _ _ (inject_Z (2 ^ (ld + 1)))).
    { rewrite <- (Zlt_Qlt 0). apply Z.pow_pos_nonneg; lia. }
    replace (la - ld - 1) with (la - (ld + 1)) by lia.
    rewrite (two_power_split la (ld + 1)) by lia.
    apply Qle_trans with (Qabs (n # d) * inject_Z (Z.pos d))%Q.
    - rewrite Hx. rewrite <- (Zpower_Qpower 2 la) by lia.
      rewrite <- Zle_Qle. exact Ha1.
    - apply Qmult_le_l.
      + unfold Qlt. cbn [Qabs Qnum Qden]. lia.
      + rewrite <- Zle_Qle. unfold Z.succ in Hd2. lia. }
  destruct (Qle_bool (2 ^ (la - ld)) (Qabs (n # d))) eqn:Et.
  - apply Qle_bool_iff in Et. split; assumption.
  - split; [exact Hlow|].
    replace (la - ld - 1 + 1) with (la - ld) by lia.
    apply Qnot_le_lt. intros H. apply Qle_bool_iff in H. congruence.
Qed.

(** The significand has at most 53 bits. *)
Lemma binary64_significand x :
  ~ (x == 0)%Q -> Z.abs (roundHalfEven (x / ulp x)) <= 2 ^ 53.
Proof.
  intros Hnz. pose proof (binade_spec x Hnz) as [_ Hup].
  pose proof (ulp_pos x) as Hu.
  assert (Hb : (2 ^ (binade x + 1) <= inject_Z (2 ^ 53) * ulp x)%Q).
  { unfold ulp. rewrite (Zpower_Qpower 2 53) by lia. change (inject_Z 2) with 2%Q.
    rewrite <- Qpower_plus by discriminate.
    apply Qpower_le_compat_l; [lia | discriminate]. }
  assert (Hx : (Qabs x < inject_Z (2 ^ 53) * ulp x)%Q)
    by (eapply Qlt_le_trans; eassumption).
  apply Qabs_Qlt_condition in Hx. destruct Hx as [Hl Hr].
  assert (H1 : roundHalfEven (x / ulp x) <= 2 ^ 53).
  { apply roundHalfEven_le. apply Qlt_le_weak, Qlt_shift_div_r; assumption. }
  assert (H2 : - 2 ^ 53 <= roundHalfEven (x / ulp x)).
  { apply roundHalfEven_ge. rewrite inject_Z_opp.
    apply Qlt_le_weak, Qlt_shift_div_l; [assumption|].
    setoid_replace (- inject_Z (2 ^ 53) * ulp x)%Q
      with (- (inject_Z (2 ^ 53) * ulp x))%Q by ring.
    exact Hl. }
  lia.
Qed.

(** The result is a whole number of [ulp]s, with a significand of at
    most 53 bits, and the nearest one. *)
Lemma binary64_nearest x :
  (Qabs (binary64 x - x) <= (1 # 2) * ulp x)%Q.
Proof.
  pose proof (ulp_pos x) as Hup. unfold binary64.
  destruct (Qeq_bool x 0) eqn:E0.
  { apply Qeq_bool_iff in E0. apply Qabs_Qle_condition. split; lra. }
  pose proof (roundHalfEven_nearest (x / ulp x)) as Hn.
  apply Qabs_Qle_condition in Hn. destruct Hn as [Hl Hu].
  assert (Hx : (x == x / ulp x * ulp x)%Q) by (field; lra).
  set (y := (x / ulp x)%Q) in *.
  apply Qabs_Qle_condition. split.
  - apply (Qmult_le_compat_r _ _ (ulp x)) in Hl; [| lra]. lra.
  - apply (Qmult_le_compat_r _ _ (ulp x)) in Hu; [| lra]. lra.
Qed.

(** Below [2^52] the binade is at most 51. *)
Lemma binade_small x :
  ~ (x == 0)%Q -> (Qabs x < inject_Z (2 ^ 52))%Q -> binade x <= 51.
Proof.
  destruct x as [n d]. intros Hnz Hlt. unfold binade. cbn [Qnum Qden].
  assert (Hn : 0 < Z.abs n).
  { assert (n <> 0); [| lia]. intros ->. apply Hnz. reflexivity. }
  assert (Hlt' : Z.abs n < 2 ^ 52 * Z.pos d).
  { unfold Qlt in Hlt. cbn [Qabs Qnum Qden inject_Z] in Hlt. lia. }
  assert (He0 : Z.log2 (Z.abs n) - Z.log2 (Z.pos d) <= 52).
  { pose proof (Z.log2_spec (Z.pos d) eq_refl) as [_ Hd].
    pose proof (Z.log2_nonneg (Z.pos d)) as Hd0.
    assert (Z.log2 (Z.abs n) < 53 + Z.log2 (Z.pos d)); [| lia].
    apply Z.log2_lt_pow2; [assumption |].
    replace (53 + Z.log2 (Z.pos d)) with (52 + Z.succ (Z.log2 (Z.pos d))) by lia.
    rewrite Z.pow_add_r by lia. nia. }
  destruct (Qle_bool _ _) eqn:Et; [| lia].
  destruct (Z.eq_dec (Z.log2 (Z.abs n) - Z.log2 (Z.pos d)) 52) as [E | E]; [| lia].
  exfalso. rewrite E in Et. apply Qle_bool_iff in Et.
  apply (Qlt_irrefl (Qabs (n # d))).
  eapply Qlt_le_trans; [exact Hlt |].
  rewrite (Zpower_Qpower 2 52) by lia. exact Et.
Qed.

(** Below [2^52] the spacing is one over a whole number: every integer is
    a whole number of [ulp]s. *)
Lemma ulp_small x :
  ~ (x == 0)%Q -> (Qabs x < inject_Z (2 ^ 52))%Q ->
  exists N, 0 < N /\ (ulp x * inject_Z N == 1)%Q.
Proof.
  intros Hnz Hlt. pose proof (binade_small x Hnz Hlt) as He.
  set (j := 52 - Z.max (binade x) (-1022)).
  assert (Hj : 0 <= j) by (unfold j; lia).
  exists (2 ^ j). split; [apply Z.pow_pos_nonneg; lia |].
  unfold ulp. replace (Z.max (binade x) (-1022) - 52) with (- j) by (unfold j; lia).
  rewrite Qpower_opp, (Zpower_Qpower 2 j) by assumption.
  change (inject_Z 2) with 2%Q.
  field. apply Qpower_not_0. discriminate.
Qed.

(** Rounding never crosses an integer, for numbers below [2^52]. *)
Lemma binary64_integer_bounds x c :
  (Qabs x < inject_Z (2 ^ 52))%Q ->
  ((x <= inject_Z c)%Q -> (binary64 x <= inject_Z c)%Q)
  /\ ((inject_Z c <= x)%Q -> (inject_Z c <= binary64 x)%Q).
Proof.
  intros Hlt. unfold binary64.
  destruct (Qeq_bool x 0) eqn:E0.
  { apply Qeq_bool_iff in E0. rewrite E0. tauto. }
  assert (Hnz : ~ (x == 0)%Q).
  { intros H. apply Qeq_bool_iff in H. congruence. }
  destruct (ulp_small x Hnz Hlt) as (N & HN & Hu).
  pose proof (ulp_pos x) as Hup.
  assert (HNq : (0 < inject_Z N)%Q) by (rewrite <- (Zlt_Qlt 0); exact HN).
  assert (Hdiv : (x / ulp x == x * inject_Z N)%Q).
  { field_simplify_eq; [| lra].
    transitivity (x * (ulp x * inject_Z N))%Q; [rewrite Hu | ]; ring. }
  assert (Hc : (inject_Z (c * N) * ulp x == inject_Z c)%Q).
  { rewrite inject_Z_mult.
    transitivity (inject_Z c * (ulp x * inject_Z N))%Q; [ring | rewrite Hu; ring]. }
  split; intros H.
  - rewrite <- Hc. apply Qmult_le_compat_r; [| lra].
    rewrite <- Zle_Qle. apply roundHalfEven_le.
    rewrite Hdiv, inject_Z_mult. apply Qmult_le_compat_r; lra.
  - rewrite <- Hc. apply Qmult_le_compat_r; [| lra].
    rewrite <- Zle_Qle. apply roundHalfEven_ge.
    rewrite Hdiv, inject_Z_mult. apply Qmult_le_compat_r; lra.
Qed.

(** The sign is kept. *)
Lemma binary64_nonneg x : (0 <= x)%Q -> (0 <= binary64 x)%Q.
Proof.
  intros H. unfold binary64. destruct (Qeq_bool x 0); [apply Qle_refl |].
  pose proof (ulp_pos x) as Hup.
  apply Qmult_le_0_compat; [| lra].
  rewrite <- (Zle_Qle 0). apply roundHalfEven_ge.
  apply Qle_shift_div_l; [assumption | change (inject_Z 0) with 0%Q; lra].
Qed.

(** Between two integers below [2^52], so is the rounded number. *)
Lemma binary64_between x lo hi :
  0 <= lo -> hi < 2 ^ 52 ->
  (inject_Z lo <= x)%Q -> (x <= inject_Z hi)%Q ->
  (inject_Z lo <= binary64 x /\ binary64 x <= inject_Z hi)%Q.
Proof.
  intros Hlo Hhi Hl Hu.
  assert (H0 : (0 <= x)%Q).
  { apply Qle_trans with (inject_Z lo); [| assumption].
    now rewrite <- (Zle_Qle 0). }
  assert (Hs : (Qabs x < inject_Z (2 ^ 52))%Q).
  { rewrite (Qabs_pos x H0). apply Qle_lt_trans with (inject_Z hi); [assumption |].
    now rewrite <- Zlt_Qlt. }
  split.
  - now apply (binary64_integer_bounds x lo Hs).
  - now apply (binary64_integer_bounds x hi Hs).
Qed.

(** The numbers the file's examples name. *)
Example binary64_known_values :
  (binary64 (1 # 10) == 3602879701896397 # 36028797018963968)%Q
  /\ (binary64 (binary64 (1 # 10) + binary64 (2 # 10))
      == 1351079888211149 # 4503599627370496)%Q
  /\ (binary64 3 == 3)%Q
  /\ (binary64 (- (5 # 2)) == - (5 # 2))%Q
  /\ (binary64 (inject_Z (2 ^ 53) + 1) == inject_Z (2 ^ 53))%Q
  /\ (binary64 (inject_Z (2 ^ 53) + 3) == inject_Z (2 ^ 53) + 4)%Q.
Proof. repeat split; vm_compute; reflexivity. Qed.

(** ** The retry loop *)

Section RetryLoop.

Variable env : Env.
Variable cacheKey : string.

Lemma attemptOnce_fails s e :
  attemptFails (fetchOutcome env (fetchCalls s)) e ->
  attemptOnce env cacheKey s = (Rejected e, snd (fetch env s)).
Proof.
  unfold attemptOnce, fetch. simpl.
  inversion 1 as [e' Ho | r Hok Ho | r e' Hok Hj Ho | r Hok Hj Ho
                  | r d msg Hok Hj He Hm Ho];
    subst; try rewrite Hok; simpl; try reflexivity.
  - now rewrite Hj.
  - now rewrite Hj.
  - rewrite Hj. unfold truthy. rewrite He.
    destruct (String.eqb_spec msg ""); [contradiction | reflexivity].
Qed.

Lemma retryable_fails o e :
  retryableFailure o e -> attemptFails o e /\ isAbort e = false.
Proof.
  destruct 1; split; try reflexivity; try assumption.
  - constructor.
  - now constructor.
  - econstructor; eassumption.
Qed.

Lemma unparseable_fails o e :
  unparseable o e -> attemptFails o e /\ isAbort e = false.
Proof.
  intros (r & -> & Hok & Hj & Hn). split.
  - now constructor.
  - unfold isAbort. now rewrite Hn.
Qed.

(** A cancelled attempt ends the loop at once. *)
Lemma retryLoop_abort remaining attempt s e :
  attemptFails (fetchOutcome env (fetchCalls s)) e ->
  isAbort e = true ->
  retryLoop env cacheKey (S remaining) attempt s = (Throw e, snd (fetch env s)).
Proof.
  intros Hf Ha. simpl. rewrite (attemptOnce_fails _ _ Hf).
  unfold isAbort in Ha. now rewrite Ha.
Qed.

(** The failure of the last attempt is thrown. *)
Lemma retryLoop_last remaining attempt s e :
  attemptFails (fetchOutcome env (fetchCalls s)) e ->
  S attempt = maxRetries ->
  retryLoop env cacheKey (S remaining) attempt s = (Throw e, snd (fetch env s)).
Proof.
  intros Hf Ha. simpl. rewrite (attemptOnce_fails _ _ Hf).
  destruct (String.eqb (name e) "AbortError"); [reflexivity|].
  unfold maxRetries in Ha. injection Ha as ->. reflexivity.
Qed.

(** Any other failure before the last attempt is slept on and retried. *)
Lemma retryLoop_retry remaining attempt s e :
  attemptFails (fetchOutcome env (fetchCalls s)) e ->
  isAbort e = false ->
  S attempt <> maxRetries ->
  retryLoop env cacheKey (S remaining) attempt s
  = retryLoop env cacheKey remaining (S attempt) (backedOff env (S attempt) s).
Proof.
  intros Hf Ha Hn. simpl. rewrite (attemptOnce_fails _ _ Hf).
  unfold isAbort in Ha. rewrite Ha.
  assert (E : Nat.eqb attempt 2 = false)
    by (apply Nat.eqb_neq; unfold maxRetries in Hn; lia).
  rewrite E. reflexivity.
Qed.

(** Three failures in a row: three fetches, two sleeps, the third error
    thrown. *)
Lemma retryLoop_three_failures s e0 e1 e2 :
  attemptFails (fetchOutcome env (fetchCalls s)) e0 -> isAbort e0 = false ->
  attemptFails (fetchOutcome env (S (fetchCalls s))) e1 -> isAbort e1 = false ->
  attemptFails (fetchOutcome env (S (S (fetchCalls s)))) e2 ->
  exists s',
    retryLoop env cacheKey maxRetries 0 s = (Throw e2, s')
    /\ fetchCalls s' = (fetchCalls s + 3)%nat
    /\ searchCache s' = searchCache s
    /\ effects s' =
         effects s ++
         [EffFetch (fetchCalls s);
          EffSleep (backoffDelay 1 (mathRandom env (randomCalls s)));
          EffFetch (S (fetchCalls s));
          EffSleep (backoffDelay 2 (mathRandom env (S (randomCalls s))));
          EffFetch (S (S (fetchCalls s)))].
Proof.
  intros H0 A0 H1 A1 H2.
  unfold maxRetries.
  rewrite (retryLoop_retry _ _ _ _ H0 A0) by (unfold maxRetries; lia).
  rewrite (retryLoop_retry _ _ (backedOff env 1 s) e1) by
    (try exact H1; try exact A1; unfold maxRetries; lia).
  rewrite (retryLoop_last _ _ (backedOff env 2 (backedOff env 1 s)) e2) by
    (try exact H2; reflexivity).
  eexists; split; [reflexivity|]. simpl.
  repeat split; try lia.
  rewrite <- !app_assoc. reflexivity.
Qed.

End RetryLoop.

(** ** [performSearch] *)

(** On a cache miss the search is the retry loop, started from a state
    that differs from the initial one in the miss counter (and in the
    number of clock readings) only. *)
Lemma performSearch_miss env s k :
  generateCacheKey env s = Fulfilled k ->
  probeMisses env s k = true ->
  exists s0,
    performSearch env s = retryLoop env k maxRetries 0 s0
    /\ fetchCalls s0 = fetchCalls s /\ randomCalls s0 = randomCalls s
    /\ effects s0 = effects s /\ searchCache s0 = searchCache s
    /\ cacheMisses (metrics s0) = cacheMisses (metrics s) + 1
    /\ cacheHits (metrics s0) = cacheHits (metrics s).
Proof.
  intros Hk Hm. unfold performSearch, probeMisses in *. rewrite Hk.
  destruct (JsMap.get (searchCache s) k) as [c|].
  - apply negb_true_iff in Hm. unfold Date_now. rewrite Hm.
    eexists; split; [reflexivity|]. simpl. repeat split.
  - eexists; split; [reflexivity|]. simpl. repeat split.
Qed.

(** A successful attempt: the results are returned, written to the cache
    when non-empty, and the average response time is updated. *)
Lemma attemptOnce_success env k s r d :
  fetchOutcome env (fetchCalls s) = Fulfilled r ->
  ok r = true -> json r = Fulfilled (JsonValue d) -> truthy (error d) = false ->
  let results := match result d with Some l => l | None => [] end in
  exists s',
    attemptOnce env k s = (Fulfilled results, s')
    /\ searchCache s' =
         cacheWrite (searchCache s) k results (dateNow env (clockReads s))
                    (requestTime env (fetchCalls s))
    /\ fetchCalls s' = S (fetchCalls s)
    /\ randomCalls s' = randomCalls s
    /\ effects s' = effects s ++ [EffFetch (fetchCalls s)].
Proof.
  intros Ho Hok Hj He results. unfold attemptOnce, fetch. rewrite Ho, Hok. simpl.
  rewrite Hj, He. fold results. unfold cacheWrite.
  destruct (0 <? Z.of_nat (List.length results)); simpl;
    eexists; split; try reflexivity; simpl; repeat split.
Qed.

(** The delay slept after [attempt] failures lies between
    [2^attempt * 1000] and [2^attempt * 1000 + 1000], both included. *)
Lemma backoffDelay_bounds attempt rnd :
  (attempt <= 40)%nat ->
  (0 <= rnd /\ rnd < 1)%Q ->
  (inject_Z (2 ^ Z.of_nat attempt) * 1000 <= backoffDelay attempt rnd
   /\ backoffDelay attempt rnd <= inject_Z (2 ^ Z.of_nat attempt) * 1000 + 1000)%Q.
Proof.
  intros Ha [H0 H1]. unfold backoffDelay.
  set (P := 2 ^ Z.of_nat attempt).
  assert (HP : 1 <= P <= 2 ^ 40).
  { unfold P. split.
    - apply (Z.pow_le_mono_r 2 0); lia.
    - apply Z.pow_le_mono_r; lia. }
  assert (HK : (inject_Z P * 1000 == inject_Z (P * 1000))%Q).
  { rewrite inject_Z_mult. reflexivity. }
  assert (H40 : 2 ^ 40 * 1000 + 1000 < 2 ^ 52) by reflexivity.
  destruct (binary64_between (inject_Z P * 1000) (P * 1000) (P * 1000))
    as [Al Au]; try lia; try lra.
  destruct (binary64_between (rnd * 1000) 0 1000) as [Bl Bu];
    try lia; try (change (inject_Z 0) with 0%Q; change (inject_Z 1000) with 1000%Q; lra).
  change (inject_Z 0) with 0%Q in Bl. change (inject_Z 1000) with 1000%Q in Bu.
  set (a := binary64 (inject_Z P * 1000)) in *.
  set (b := binary64 (rnd * 1000)) in *.
  destruct (binary64_between (a + b) (P * 1000) (P * 1000 + 1000)) as [Sl Su];
    try lia.
  - lra.
  - rewrite inject_Z_plus. change (inject_Z 1000) with 1000%Q. lra.
  - rewrite inject_Z_plus in Su. change (inject_Z 1000) with 1000%Q in Su.
    split; lra.
Qed.

(** C1, as stated, fails at the upper bound of the delay.  With the
    network down and [Math.random()] returning [1 - 2^-52], the largest
    number below 1 with 52 fractional bits, the two delays slept are
    exactly [3000 = 2^1 * 1000 + 1000] and [5000 = 2^2 * 1000 + 1000]
    milliseconds: the sum is rounded up to the excluded bound. *)
Lemma C1_counterexample :
  randomInRange Sample.env_offline_top
  /\ (forall n, retryableFailure (fetchOutcome Sample.env_offline_top n)
                                 Sample.TypeError)
  /\ exists d1 d2 s',
       performSearch Sample.env_offline_top Sample.url_state
       = (Throw Sample.TypeError, s')
       /\ effects s' = [EffFetch 0; EffSleep d1; EffFetch 1; EffSleep d2; EffFetch 2]
       /\ (d1 == 3000)%Q /\ (d2 == 5000)%Q
       /\ ~ (d1 < inject_Z (2 ^ 1) * 1000 + 1000)%Q
       /\ ~ (d2 < inject_Z (2 ^ 2) * 1000 + 1000)%Q.
Proof.
  split; [| split].
  - intros i. simpl. split; [discriminate | reflexivity].
  - intros n. apply retry_network. reflexivity.
  - exists (backoffDelay 1 (mathRandom Sample.env_offline_top 0)),
           (backoffDelay 2 (mathRandom Sample.env_offline_top 1)),
           (snd (performSearch Sample.env_offline_top Sample.url_state)).
    split; [reflexivity |]. split; [reflexivity |].
    split; [vm_compute; reflexivity |]. split; [vm_compute; reflexivity |].
    split; vm_compute; discriminate.
Qed.

(** C1, amended.  A search that misses the cache and whose three attempts
    all fail with a retryable error (network failure, status outside
    200-299, or an [error] field of the service) makes exactly three
    fetches, sleeps between the first and second and between the second
    and third (not after the third) a delay [d] with
    [2^attempt * 1000 <= d <= 2^attempt * 1000 + 1000], where [attempt] is
    the number of attempts failed so far, and then throws the error of the
    third attempt. *)
Theorem C1_three_attempts_then_error env s k e0 e1 e2 :
  generateCacheKey env s = Fulfilled k ->
  probeMisses env s k = true ->
  randomInRange env ->
  retryableFailure (fetchOutcome env (fetchCalls s)) e0 ->
  retryableFailure (fetchOutcome env (S (fetchCalls s))) e1 ->
  retryableFailure (fetchOutcome env (S (S (fetchCalls s)))) e2 ->
  exists d1 d2 s',
    performSearch env s = (Throw e2, s')
    /\ fetchCalls s' = (fetchCalls s + 3)%nat
    /\ effects s' =
         effects s ++
         [EffFetch (fetchCalls s); EffSleep d1;
          EffFetch (S (fetchCalls s)); EffSleep d2;
          EffFetch (S (S (fetchCalls s)))]
    /\ d1 = backoffDelay 1 (mathRandom env (randomCalls s))
    /\ d2 = backoffDelay 2 (mathRandom env (S (randomCalls s)))
    /\ (inject_Z (2 ^ 1) * 1000 <= d1 /\ d1 <= inject_Z (2 ^ 1) * 1000 + 1000)%Q
    /\ (inject_Z (2 ^ 2) * 1000 <= d2 /\ d2 <= inject_Z (2 ^ 2) * 1000 + 1000)%Q.
Proof.
  intros Hk Hm Hr H0 H1 H2.
  destruct (performSearch_miss _ _ _ Hk Hm) as (s0 & -> & Hf & Hrc & He & _).
  apply retryable_fails in H0 as [F0 A0].
  apply retryable_fails in H1 as [F1 A1].
  apply retryable_fails in H2 as [F2 _].
  rewrite <- Hf in F0, F1, F2.
  destruct (retryLoop_three_failures env k s0 e0 e1 e2 F0 A0 F1 A1 F2)
    as (s' & -> & Hf' & _ & He').
  exists (backoffDelay 1 (mathRandom env (randomCalls s0))),
         (backoffDelay 2 (mathRandom env (S (randomCalls s0)))), s'.
  split; [reflexivity|]. split; [congruence|]. split; [congruence|].
  split; [now rewrite Hrc |]. split; [now rewrite Hrc |].
  split.
  - apply (backoffDelay_bounds 1); [lia | apply Hr].
  - apply (backoffDelay_bounds 2); [lia | apply Hr].
Qed.

Lemma C1_witness :
  exists d1 d2 s',
    performSearch Sample.env_offline Sample.url_state = (Throw Sample.TypeError, s')
    /\ fetchCalls s' = 3%nat
    /\ effects s' = [EffFetch 0; EffSleep d1; EffFetch 1; EffSleep d2; EffFetch 2]
    /\ d1 = backoffDelay 1 (1 # 2)
    /\ d2 = backoffDelay 2 (1 # 2)
    /\ (inject_Z (2 ^ 1) * 1000 <= d1 /\ d1 <= inject_Z (2 ^ 1) * 1000 + 1000)%Q
    /\ (inject_Z (2 ^ 2) * 1000 <= d2 /\ d2 <= inject_Z (2 ^ 2) * 1000 + 1000)%Q.
Proof.
  apply (C1_three_attempts_then_error Sample.env_offline Sample.url_state
           Sample.url_key Sample.TypeError Sample.TypeError Sample.TypeError).
  - reflexivity.
  - reflexivity.
  - intros i. simpl. unfold Sample.half. split; [discriminate | reflexivity].
  - apply retry_network. reflexivity.
  - apply retry_network. reflexivity.
  - apply retry_network. reflexivity.
Defined.

(** C3.  Whatever number [j < 3] of attempts failed (and were retried)
    before it, an attempt that fails with an [AbortError] ends the search
    with that very error: no later fetch is issued (the fetches are
    exactly those numbered [0..j]), no backoff follows it (the sleeps are
    the [j] ones of the earlier failures and the last effect is the
    cancelled fetch). *)
Theorem C3_cancellation_is_final env s k j e :
  generateCacheKey env s = Fulfilled k ->
  probeMisses env s k = true ->
  (j < maxRetries)%nat ->
  (forall i, (i < j)%nat ->
     exists ei, attemptFails (fetchOutcome env (fetchCalls s + i)) ei
                /\ isAbort ei = false) ->
  attemptFails (fetchOutcome env (fetchCalls s + j)) e ->
  isAbort e = true ->
  exists tr s',
    performSearch env s = (Throw e, s')
    /\ fetchCalls s' = (fetchCalls s + j + 1)%nat
    /\ effects s' = effects s ++ tr
    /\ fetchesOf tr = seq (fetchCalls s) (S j)
    /\ List.length (sleepsOf tr) = j
    /\ last tr (EffSleep 0) = EffFetch (fetchCalls s + j).
Proof.
  intros Hk Hm Hj Hpre Hf Ha.
  destruct (performSearch_miss _ _ _ Hk Hm) as (s0 & -> & Hfc & Hrc & He & _).
  rewrite <- Hfc in *. rewrite <- He. clear Hfc Hrc He Hk Hm s.
  unfold maxRetries in *.
  destruct j as [|[|[|j]]]; try lia.
  - rewrite Nat.add_0_r in *.
    rewrite (retryLoop_abort env k _ _ _ _ Hf Ha).
    exists [EffFetch (fetchCalls s0)]. eexists. split; [reflexivity|].
    simpl. repeat split; try reflexivity; lia.
  - destruct (Hpre 0%nat ltac:(lia)) as (e0 & F0 & A0).
    rewrite Nat.add_0_r in F0.
    replace (fetchCalls s0 + 1)%nat with (S (fetchCalls s0)) in * by lia.
    rewrite (retryLoop_retry env k _ _ _ _ F0 A0) by (unfold maxRetries; lia).
    rewrite (retryLoop_abort env k _ _ _ e) by assumption.
    eexists [EffFetch (fetchCalls s0); EffSleep _; EffFetch (S (fetchCalls s0))].
    eexists. split; [reflexivity|]. simpl.
    rewrite <- !app_assoc. simpl. repeat split; try reflexivity; lia || (f_equal; lia).
  - destruct (Hpre 0%nat ltac:(lia)) as (e0 & F0 & A0).
    destruct (Hpre 1%nat ltac:(lia)) as (e1 & F1 & A1).
    rewrite Nat.add_0_r in F0. rewrite Nat.add_1_r in F1.
    replace (fetchCalls s0 + 2)%nat with (S (S (fetchCalls s0))) in * by lia.
    rewrite (retryLoop_retry env k _ _ _ _ F0 A0) by (unfold maxRetries; lia).
    rewrite (retryLoop_retry env k _ _ _ e1) by
      (try assumption; unfold maxRetries; lia).
    rewrite (retryLoop_abort env k _ _ _ e) by assumption.
    eexists [EffFetch (fetchCalls s0); EffSleep _; EffFetch (S (fetchCalls s0));
             EffSleep _; EffFetch (S (S (fetchCalls s0)))].
    eexists. split; [reflexivity|]. simpl.
    rewrite <- !app_assoc. simpl. repeat split; try reflexivity; lia || (f_equal; lia).
Qed.

Lemma C3_witness :
  exists tr s',
    performSearch Sample.env_cancelled Sample.url_state = (Throw Sample.AbortError, s')
    /\ fetchCalls s' = 2%nat
    /\ effects s' = tr
    /\ fetchesOf tr = [0; 1]%nat
    /\ List.length (sleepsOf tr) = 1%nat
    /\ last tr (EffSleep 0) = EffFetch 1.
Proof.
  apply (C3_cancellation_is_final Sample.env_cancelled Sample.url_state
           Sample.url_key 1 Sample.AbortError).
  - reflexivity.
  - reflexivity.
  - unfold maxRetries. lia.
  - intros i Hi. assert (i = 0)%nat as -> by lia.
    exists Sample.TypeError. split; [apply fails_fetch | reflexivity].
  - apply fails_fetch.
  - reflexivity.
Defined.

(** C4, as stated, fails: with a service that answers 200 and a body that
    is not JSON, the parse error of the first attempt is not surfaced at
    once; the search goes on to make three fetches with two backoff sleeps
    between them. *)
Lemma C4_counterexample :
  unparseable (fetchOutcome Sample.env_malformed 0) Sample.SyntaxError
  /\ fst (performSearch Sample.env_malformed Sample.url_state)
     = Throw Sample.SyntaxError
  /\ fetchesOf (effects (snd (performSearch Sample.env_malformed Sample.url_state)))
     = [0; 1; 2]%nat
  /\ sleepsOf (effects (snd (performSearch Sample.env_malformed Sample.url_state)))
     = [backoffDelay 1 (1 # 2); backoffDelay 2 (1 # 2)]
  /\ effects (snd (performSearch Sample.env_malformed Sample.url_state))
     <> [EffFetch 0].
Proof.
  split.
  - eexists. repeat split; reflexivity.
  - repeat split; try reflexivity. discriminate.
Qed.

(** C4, amended.  A 2xx response whose body cannot be parsed is retried
    like any other failure: when every attempt ends so, the search makes
    three fetches, sleeps the backoff delay after the first and after the
    second, and throws the parse error of the third. *)
Theorem C4_unparseable_body_is_retried env s k e0 e1 e2 :
  generateCacheKey env s = Fulfilled k ->
  probeMisses env s k = true ->
  unparseable (fetchOutcome env (fetchCalls s)) e0 ->
  unparseable (fetchOutcome env (S (fetchCalls s))) e1 ->
  unparseable (fetchOutcome env (S (S (fetchCalls s)))) e2 ->
  exists s',
    performSearch env s = (Throw e2, s')
    /\ fetchCalls s' = (fetchCalls s + 3)%nat
    /\ effects s' =
         effects s ++
         [EffFetch (fetchCalls s);
          EffSleep (backoffDelay 1 (mathRandom env (randomCalls s)));
          EffFetch (S (fetchCalls s));
          EffSleep (backoffDelay 2 (mathRandom env (S (randomCalls s))));
          EffFetch (S (S (fetchCalls s)))].
Proof.
  intros Hk Hm H0 H1 H2.
  destruct (performSearch_miss _ _ _ Hk Hm) as (s0 & -> & Hf & Hrc & He & _).
  apply unparseable_fails in H0 as [F0 A0].
  apply unparseable_fails in H1 as [F1 A1].
  apply unparseable_fails in H2 as [F2 _].
  rewrite <- Hf in F0, F1, F2.
  destruct (retryLoop_three_failures env k s0 e0 e1 e2 F0 A0 F1 A1 F2)
    as (s' & -> & Hf' & _ & He').
  exists s'. split; [reflexivity|]. split; [congruence|].
  rewrite He', He, Hrc, Hf. reflexivity.
Qed.

Lemma C4_witness :
  exists s',
    performSearch Sample.env_malformed Sample.url_state = (Throw Sample.SyntaxError, s')
    /\ fetchCalls s' = 3%nat
    /\ effects s' =
         [EffFetch 0; EffSleep (backoffDelay 1 (1 # 2));
          EffFetch 1; EffSleep (backoffDelay 2 (1 # 2)); EffFetch 2].
Proof.
  apply (C4_unparseable_body_is_retried Sample.env_malformed Sample.url_state
           Sample.url_key Sample.SyntaxError Sample.SyntaxError Sample.SyntaxError).
  - reflexivity.
  - reflexivity.
  - eexists. repeat split; reflexivity.
  - eexists. repeat split; reflexivity.
  - eexists. repeat split; reflexivity.
Defined.

(** C7, as stated, fails: the service would answer with one match, but the
    digest of the file cannot be computed; the search throws the hashing
    error, returns no result and never calls [fetch]. *)
Lemma C7_counterexample :
  generateCacheKey Sample.env_nohash Sample.file_state
  = Rejected (mkError "TypeError" "crypto.subtle is undefined")
  /\ fst (attemptOnce Sample.env_nohash "" Sample.file_state)
     = Fulfilled [Sample.match_a]
  /\ performSearch Sample.env_nohash Sample.file_state
     = (Throw (mkError "TypeError" "crypto.subtle is undefined"), Sample.file_state)
  /\ fst (performSearch Sample.env_nohash Sample.file_state)
     <> Return [Sample.match_a]
  /\ fetchCalls (snd (performSearch Sample.env_nohash Sample.file_state)) = 0%nat.
Proof.
  repeat split; try reflexivity. discriminate.
Qed.

(** C7, amended.  When the digest of the current file cannot be computed,
    [performSearch] throws the hashing error before the cache is probed
    and before any fetch: the state is left as it was. *)
Theorem C7_hashing_failure_is_fatal env s file e :
  currentFile s = Some file ->
  subtleDigest env file = Rejected e ->
  generateCacheKey env s = Rejected e
  /\ performSearch env s = (Throw e, s).
Proof.
  intros Hf Hd.
  assert (G : generateCacheKey env s = Rejected e).
  { unfold generateCacheKey, hashFile. now rewrite Hf, Hd. }
  split; [assumption|]. unfold performSearch. now rewrite G.
Qed.

Lemma C7_witness :
  generateCacheKey Sample.env_nohash Sample.file_state
  = Rejected (mkError "TypeError" "crypto.subtle is undefined")
  /\ performSearch Sample.env_nohash Sample.file_state
     = (Throw (mkError "TypeError" "crypto.subtle is undefined"), Sample.file_state).
Proof.
  apply (C7_hashing_failure_is_fatal Sample.env_nohash Sample.file_state Sample.png).
  - reflexivity.
  - reflexivity.
Defined.

(** An attempt that succeeds ends the loop with its results. *)
Lemma retryLoop_success env k remaining attempt s results s' :
  attemptOnce env k s = (Fulfilled results, s') ->
  retryLoop env k (S remaining) attempt s = (Return results, s').
Proof. intros H. simpl. now rewrite H. Qed.

(** C10, as stated, fails: the JSON body [null] has no [error] field and
    no [result] field, yet reading [data.error] on it throws a
    [TypeError] inside the [try] block; the attempt fails, is retried as
    any other failure, and when every body is [null] the search makes its
    three fetches and throws. *)
Lemma C10_counterexample :
  (forall n, exists r,
      fetchOutcome Sample.env_null_body n = Fulfilled r
      /\ ok r = true /\ json r = Fulfilled JsonNull
      /\ lacksBothFields JsonNull)
  /\ fst (performSearch Sample.env_null_body Sample.url_state)
     = Throw nullPropertyError
  /\ fst (performSearch Sample.env_null_body Sample.url_state) <> Return []
  /\ fetchesOf (effects (snd (performSearch Sample.env_null_body Sample.url_state)))
     = [0; 1; 2]%nat
  /\ List.length
       (sleepsOf (effects (snd (performSearch Sample.env_null_body Sample.url_state))))
     = 2%nat.
Proof.
  split.
  - intros n. eexists. repeat split; reflexivity.
  - repeat split; try reflexivity. discriminate.
Qed.

(** C10, amended.  Whatever number [j < 3] of attempts failed (and were
    retried) before it, an attempt whose response is 2xx and whose JSON
    body is not [null] and has neither an [error] nor a [result] field
    ends the search with the empty result list returned: nothing is
    thrown, the cache is left as it was, no later fetch is issued (the
    fetches are exactly those numbered [0..j]) and no backoff follows it
    (the sleeps are the [j] ones of the earlier failures and the last
    effect is this fetch). *)
Theorem C10_missing_result_is_empty env s k j r d :
  generateCacheKey env s = Fulfilled k ->
  probeMisses env s k = true ->
  (j < maxRetries)%nat ->
  (forall i, (i < j)%nat ->
     exists ei, attemptFails (fetchOutcome env (fetchCalls s + i)) ei
                /\ isAbort ei = false) ->
  fetchOutcome env (fetchCalls s + j) = Fulfilled r ->
  ok r = true -> json r = Fulfilled (JsonValue d) ->
  lacksBothFields (JsonValue d) ->
  exists tr s',
    performSearch env s = (Return [], s')
    /\ searchCache s' = searchCache s
    /\ fetchCalls s' = (fetchCalls s + j + 1)%nat
    /\ effects s' = effects s ++ tr
    /\ fetchesOf tr = seq (fetchCalls s) (S j)
    /\ List.length (sleepsOf tr) = j
    /\ last tr (EffSleep 0) = EffFetch (fetchCalls s + j).
Proof.
  intros Hk Hm Hj Hpre Ho Hok Hjs [He Hr].
  destruct (performSearch_miss _ _ _ Hk Hm) as (s0 & -> & Hfc & Hrc & Hef & Hc & _).
  rewrite <- Hfc in *. rewrite <- Hef, <- Hc. clear Hfc Hrc Hef Hc Hk Hm s.
  assert (Ht : truthy (error d) = false) by now rewrite He.
  unfold maxRetries in *.
  destruct j as [|[|[|j]]]; try lia.
  - rewrite Nat.add_0_r in *.
    destruct (attemptOnce_success env k s0 r d Ho Hok Hjs Ht)
      as (s' & Ha & Hc' & Hf' & _ & He').
    rewrite Hr in Ha, Hc'. rewrite (retryLoop_success _ _ _ _ _ _ _ Ha).
    exists [EffFetch (fetchCalls s0)], s'. split; [reflexivity|].
    unfold cacheWrite in Hc'. simpl in Hc'. simpl.
    repeat split; try assumption; try reflexivity; lia.
  - destruct (Hpre 0%nat ltac:(lia)) as (e0 & F0 & A0).
    rewrite Nat.add_0_r in F0.
    replace (fetchCalls s0 + 1)%nat with (S (fetchCalls s0)) in * by lia.
    rewrite (retryLoop_retry env k _ _ _ _ F0 A0) by (unfold maxRetries; lia).
    destruct (attemptOnce_success env k (backedOff env 1 s0) r d Ho Hok Hjs Ht)
      as (s' & Ha & Hc' & Hf' & _ & He').
    rewrite Hr in Ha, Hc'. rewrite (retryLoop_success _ _ _ _ _ _ _ Ha).
    eexists [EffFetch (fetchCalls s0); EffSleep _; EffFetch (S (fetchCalls s0))].
    exists s'. split; [reflexivity|].
    unfold cacheWrite in Hc'. simpl in Hc', Hf', He'. simpl.
    rewrite He', <- !app_assoc. simpl.
    repeat split; try assumption; try reflexivity; lia || (f_equal; lia).
  - destruct (Hpre 0%nat ltac:(lia)) as (e0 & F0 & A0).
    destruct (Hpre 1%nat ltac:(lia)) as (e1 & F1 & A1).
    rewrite Nat.add_0_r in F0. rewrite Nat.add_1_r in F1.
    replace (fetchCalls s0 + 2)%nat with (S (S (fetchCalls s0))) in * by lia.
    rewrite (retryLoop_retry env k _ _ _ _ F0 A0) by (unfold maxRetries; lia).
    rewrite (retryLoop_retry env k _ _ _ e1) by
      (try assumption; unfold maxRetries; lia).
    destruct (attemptOnce_success env k (backedOff env 2 (backedOff env 1 s0)) r d
                Ho Hok Hjs Ht) as (s' & Ha & Hc' & Hf' & _ & He').
    rewrite Hr in Ha, Hc'. rewrite (retryLoop_success _ _ _ _ _ _ _ Ha).
    eexists [EffFetch (fetchCalls s0); EffSleep _; EffFetch (S (fetchCalls s0));
             EffSleep _; EffFetch (S (S (fetchCalls s0)))].
    exists s'. split; [reflexivity|].
    unfold cacheWrite in Hc'. simpl in Hc', Hf', He'. simpl.
    rewrite He', <- !app_assoc. simpl.
    repeat split; try assumption; try reflexivity; lia || (f_equal; lia).
Qed.

Lemma C10_witness :
  exists tr s',
    performSearch Sample.env_empty_object_later Sample.url_state = (Return [], s')
    /\ searchCache s' = []
    /\ fetchCalls s' = 2%nat
    /\ effects s' = tr
    /\ fetchesOf tr = [0; 1]%nat
    /\ List.length (sleepsOf tr) = 1%nat
    /\ last tr (EffSleep 0) = EffFetch 1.
Proof.
  apply (C10_missing_result_is_empty Sample.env_empty_object_later Sample.url_state
           Sample.url_key 1
           (mkResponse 200 "OK" (Fulfilled (JsonValue (mkData None None))))
           (mkData None None)).
  - reflexivity.
  - reflexivity.
  - unfold maxRetries. lia.
  - intros i Hi. assert (i = 0)%nat as -> by lia.
    exists nullPropertyError. split; [| reflexivity].
    apply (fails_null (mkResponse 200 "OK" (Fulfilled JsonNull))); reflexivity.
  - reflexivity.
  - reflexivity.
  - reflexivity.
  - split; reflexivity.
Defined.

(** ** The cache as [performSearch] reads and writes it *)

Lemma get_delete_same {V} (m : JsMap.t V) k : JsMap.get (JsMap.delete m k) k = None.
Proof.
  unfold JsMap.delete. induction m as [|[k' v] m IH]; simpl; [reflexivity|].
  destruct (String.eqb k' k) eqn:E; simpl; [assumption|]. now rewrite E.
Qed.

(** The outcome of an attempt and what it does to the outside world do
    not depend on the cache, the clock or the metrics. *)
Lemma attemptOnce_sameWorld env k s1 s2 :
  sameWorld s1 s2 ->
  fst (attemptOnce env k s1) = fst (attemptOnce env k s2)
  /\ sameWorld (snd (attemptOnce env k s1)) (snd (attemptOnce env k s2)).
Proof.
  unfold sameWorld. intros (Hf & Hr & He).
  unfold attemptOnce, fetch. rewrite Hf, Hr, He.
  destruct (fetchOutcome env (fetchCalls s2)) as [resp|e]; simpl; [|now auto].
  destruct (ok resp); simpl; [|now auto].
  destruct (json resp) as [[|d]|e]; simpl; [now auto| |now auto].
  destruct (truthy (error d)); simpl; [now auto|].
  destruct (0 <? _); simpl; auto.
Qed.

Lemma retryLoop_sameWorld env k remaining :
  forall attempt s1 s2,
    sameWorld s1 s2 ->
    fst (retryLoop env k remaining attempt s1)
    = fst (retryLoop env k remaining attempt s2)
    /\ sameWorld (snd (retryLoop env k remaining attempt s1))
                 (snd (retryLoop env k remaining attempt s2)).
Proof.
  induction remaining as [|remaining IH]; intros attempt s1 s2 Hs; simpl.
  - now split.
  - destruct (attemptOnce_sameWorld env k s1 s2 Hs) as [Ho Hw].
    destruct (attemptOnce env k s1) as [o1 s1'].
    destruct (attemptOnce env k s2) as [o2 s2']. simpl in Ho, Hw. subst o2.
    destruct o1 as [results|e]; simpl; [now split|].
    destruct (String.eqb (name e) "AbortError"); simpl; [now split|].
    destruct (Nat.eqb attempt 2); simpl; [now split|].
    apply IH. destruct Hw as (Hf & Hr & He).
    unfold sameWorld, sleep, Math_random. simpl. rewrite Hr, He, Hf. now auto.
Qed.

Lemma get_cacheWrite_other cache k k' results now rt :
  k' <> k ->
  JsMap.get (cacheWrite cache k' results now rt) k = JsMap.get cache k.
Proof.
  intros Hne. unfold cacheWrite. destruct (0 <? _); [|reflexivity].
  now apply get_set_other.
Qed.

Lemma get_writeAll_other writes :
  forall cache k,
    Forall (fun w => fst (fst (fst w)) <> k) writes ->
    JsMap.get (writeAll cache writes) k = JsMap.get cache k.
Proof.
  unfold writeAll.
  induction writes as [|[[[key results] now] rt] writes IH]; intros cache k Hw;
    simpl; [reflexivity|].
  apply Forall_cons_iff in Hw as [Hne Hw]. simpl in Hne.
  rewrite IH by assumption. now apply get_cacheWrite_other.
Qed.

(** C2.  Once a non-empty result list [r] has been written under [k] at
    time [t] (and whatever has been written under other keys since), a
    search for [k] whose probe reads the clock at [t'] with
    [t' - t < CACHE_EXPIRY] returns [r] itself without any fetch (and
    without touching the cache); with [t' - t >= CACHE_EXPIRY] the probe
    misses and the search ends as, and does to the network what, it would
    if [k] were not in the cache at all.  Writing an empty result list
    leaves the cache as it was. *)
Theorem C2_write_then_probe env s cache k r t rt later :
  generateCacheKey env s = Fulfilled k ->
  r <> [] ->
  Forall (fun w => fst (fst (fst w)) <> k) later ->
  searchCache s = writeAll (cacheWrite cache k r t rt) later ->
  let t' := dateNow env (clockReads s) in
  (t' - t < CACHE_EXPIRY ->
     exists s',
       performSearch env s = (Return r, s')
       /\ fetchCalls s' = fetchCalls s /\ effects s' = effects s
       /\ searchCache s' = searchCache s)
  /\ (CACHE_EXPIRY <= t' - t ->
        let absent := with_cache s (JsMap.delete (searchCache s) k) in
        probeMisses env s k = true
        /\ fst (performSearch env s) = fst (performSearch env absent)
        /\ effects (snd (performSearch env s))
           = effects (snd (performSearch env absent)))
  /\ cacheWrite cache k [] t rt = cache.
Proof.
  intros Hk Hr Hl Hc t'.
  assert (Hget : JsMap.get (searchCache s) k = Some (mkEntry r t rt)).
  { rewrite Hc, get_writeAll_other by assumption.
    unfold cacheWrite. destruct r as [|x r]; [contradiction|].
    simpl List.length. rewrite Nat2Z.inj_succ.
    replace (0 <? Z.succ (Z.of_nat (List.length r))) with true
      by (symmetry; apply Z.ltb_lt; lia).
    apply get_set_same. }
  split; [|split].
  - intros Hfresh. unfold performSearch. rewrite Hk, Hget. unfold Date_now.
    simpl timestamp. fold t'.
    replace (t' - t <? CACHE_EXPIRY) with true by (symmetry; apply Z.ltb_lt; lia).
    eexists. split; [reflexivity|]. simpl. repeat split.
  - intros Hstale absent.
    assert (Hm : probeMisses env s k = true).
    { unfold probeMisses. rewrite Hget. simpl timestamp. fold t'.
      apply negb_true_iff, Z.ltb_ge. lia. }
    assert (Hm' : probeMisses env absent k = true).
    { unfold probeMisses, absent. simpl. now rewrite get_delete_same. }
    assert (Hk' : generateCacheKey env absent = Fulfilled k) by exact Hk.
    destruct (performSearch_miss _ _ _ Hk Hm) as (s1 & -> & Hf1 & Hr1 & He1 & _).
    destruct (performSearch_miss _ _ _ Hk' Hm') as (s2 & -> & Hf2 & Hr2 & He2 & _).
    assert (Hs : sameWorld s1 s2).
    { unfold sameWorld. rewrite Hf1, Hr1, He1, Hf2, Hr2, He2. now auto. }
    destruct (retryLoop_sameWorld env k maxRetries 0%nat s1 s2 Hs) as [H1 (_ & _ & H2)].
    now auto.
  - reflexivity.
Qed.

Lemma C2_witness :
  (1000 - 0 < CACHE_EXPIRY ->
     exists s',
       performSearch Sample.env_one_match Sample.cached_state
       = (Return [Sample.match_a], s')
       /\ fetchCalls s' = 1%nat /\ effects s' = [EffFetch 0]
       /\ searchCache s' = searchCache Sample.cached_state)
  /\ (CACHE_EXPIRY <= 1000 - 0 ->
        let absent :=
          with_cache Sample.cached_state
            (JsMap.delete (searchCache Sample.cached_state) Sample.url_key) in
        probeMisses Sample.env_one_match Sample.cached_state Sample.url_key = true
        /\ fst (performSearch Sample.env_one_match Sample.cached_state)
           = fst (performSearch Sample.env_one_match absent)
        /\ effects (snd (performSearch Sample.env_one_match Sample.cached_state))
           = effects (snd (performSearch Sample.env_one_match absent)))
  /\ cacheWrite JsMap.empty Sample.url_key [] 0 12 = JsMap.empty.
Proof.
  apply (C2_write_then_probe Sample.env_one_match Sample.cached_state
           JsMap.empty Sample.url_key [Sample.match_a] 0 12
           [("url_https://example.org/b.png"%string, [Sample.match_d], 500, 9%Q)]).
  - reflexivity.
  - discriminate.
  - repeat constructor. discriminate.
  - reflexivity.
Defined.

(** ** Sorting *)

Section ArraySortFacts.

Context {A : Type} (leb : A -> A -> bool).
Hypothesis leb_total : forall a b, leb a b = true \/ leb b a = true.
Hypothesis leb_trans :
  forall a b c, leb a b = true -> leb b c = true -> leb a c = true.

Let le (a b : A) : Prop := leb a b = true.

Lemma sort_insert_perm x l : Permutation (sort_insert leb x l) (x :: l).
Proof.
  induction l as [|y l IH]; simpl; [reflexivity|].
  destruct (leb x y); [reflexivity|].
  rewrite IH. apply perm_swap.
Qed.

Lemma Array_sort_perm l : Permutation (Array_sort leb l) l.
Proof.
  induction l as [|x l IH]; simpl; [reflexivity|].
  rewrite sort_insert_perm. now constructor.
Qed.

Lemma sort_insert_sorted x l :
  Sorted le l -> Sorted le (sort_insert leb x l).
Proof.
  induction 1 as [|y l Hs IH Hd]; simpl.
  - repeat constructor.
  - destruct (leb x y) eqn:E.
    + constructor; [now constructor | now constructor].
    + constructor; [assumption|].
      assert (Hyx : le y x) by (destruct (leb_total x y); [congruence | assumption]).
      destruct Hd as [|z l Hyz]; simpl.
      * now constructor.
      * destruct (leb x z); now constructor.
Qed.

Lemma Array_sort_sorted l : StronglySorted le (Array_sort leb l).
Proof.
  apply Sorted_StronglySorted.
  - intros a b c. apply leb_trans.
  - induction l as [|x l IH]; simpl; [constructor | now apply sort_insert_sorted].
Qed.

(** In a sorted list every element of a prefix precedes every element
    of the rest. *)
Lemma sorted_prefix_le n l x y :
  StronglySorted le l -> In x (firstn n l) -> In y (skipn n l) -> le x y.
Proof.
  intros Hs. revert n. induction Hs as [|a l Hs IH Ha]; intros n Hx Hy.
  - destruct n; simpl in Hx; contradiction.
  - destruct n as [|n]; simpl in Hx, Hy; [contradiction|].
    destruct Hx as [->|Hx].
    + rewrite Forall_forall in Ha. apply Ha.
      rewrite <- (firstn_skipn n l). apply in_or_app. now right.
    + now apply (IH n).
Qed.


End ArraySortFacts.

(** ** [displayResults] *)

Lemma In_firstn {A} (x : A) n l : In x (firstn n l) -> In x l.
Proof.
  intros H. rewrite <- (firstn_skipn n l). apply in_or_app. now left.
Qed.




Lemma Qltb_lt x y : Qltb x y = true <-> (x < y)%Q.
Proof.
  unfold Qltb. rewrite negb_true_iff, <- not_true_iff_false, Qle_bool_iff.
  split; [apply Qnot_le_lt | apply Qlt_not_le].
Qed.



(** ** [cleanupCache] *)

Section DeleteFacts.

Context {V : Type}.
Implicit Types (m D : list (string * V)).

Lemma filter_filter_and {A} (f g : A -> bool) (l : list A) :
  filter f (filter g l) = filter (fun x => g x && f x) l.
Proof.
  induction l as [|x l IH]; simpl; [reflexivity|].
  destruct (g x); simpl; [destruct (f x)|]; now rewrite IH.
Qed.

(** Deleting the keys of [D] one after the other filters them out. *)
Lemma delete_all_filter D m :
  fold_left (fun m kv => JsMap.delete m (fst kv)) D m = filter (keyNotIn D) m.
Proof.
  revert m. induction D as [|d D IH]; intros m; simpl.
  - symmetry. apply forallb_filter_id. now apply forallb_forall.
  - rewrite IH. unfold JsMap.delete. rewrite filter_filter_and.
    apply filter_ext. intros kv. unfold keyNotIn. simpl.
    now rewrite negb_orb.
Qed.

Lemma delete_if_filter (p : string * V -> bool) D m :
  fold_left (fun m kv => if p kv then JsMap.delete m (fst kv) else m) D m
  = fold_left (fun m kv => JsMap.delete m (fst kv)) (filter p D) m.
Proof.
  revert m. induction D as [|d D IH]; intros m; simpl; [reflexivity|].
  destruct (p d); simpl; apply IH.
Qed.

Lemma keys_inj m a b :
  NoDup (JsMap.keys m) -> In a m -> In b m -> fst a = fst b -> a = b.
Proof.
  induction m as [|x m IH]; simpl; intros Hn Ha Hb E; [contradiction|].
  apply NoDup_cons_iff in Hn as [Hx Hn].
  destruct Ha as [->|Ha], Hb as [->|Hb]; auto.
  - exfalso. apply Hx. rewrite E. now apply in_map.
  - exfalso. apply Hx. rewrite <- E. now apply in_map.
Qed.

Lemma keyNotIn_spec D kv : keyNotIn D kv = true <-> ~ In (fst kv) (map fst D).
Proof.
  unfold keyNotIn. rewrite negb_true_iff, <- not_true_iff_false.
  now rewrite existsb_eqb_In.
Qed.

(** In a map with one entry per key, filtering out the keys of some of
    its entries removes exactly those entries. *)
Lemma In_without_keys m D kv :
  NoDup (JsMap.keys m) -> incl D m ->
  In kv (filter (keyNotIn D) m) <-> In kv m /\ ~ In kv D.
Proof.
  intros Hn Hi. rewrite filter_In, keyNotIn_spec. split; intros [Hm H]; split; auto.
  - intros Hd. apply H. now apply in_map.
  - intros Hk. apply in_map_iff in Hk as (d & E & Hd).
    apply H. now rewrite <- (keys_inj m d kv Hn (Hi d Hd) Hm E).
Qed.

(** A selection of the entries of a map with one entry per key is the
    map restricted to the keys selected. *)
Lemma filter_by_own_keys (g : string * V -> bool) m :
  NoDup (JsMap.keys m) ->
  filter (fun kv => negb (keyNotIn (filter g m) kv)) m = filter g m.
Proof.
  intros Hn. apply filter_ext_in. intros kv Hkv.
  destruct (g kv) eqn:Eg.
  - apply negb_true_iff, not_true_iff_false. rewrite keyNotIn_spec.
    intros H. apply H. apply in_map. apply filter_In. now split.
  - apply negb_false_iff, keyNotIn_spec.
    intros Hin. apply in_map_iff in Hin as (y & E & Hy).
    apply filter_In in Hy as [Hym Hyg].
    rewrite (keys_inj m y kv Hn Hym Hkv E) in Hyg. congruence.
Qed.

Lemma NoDup_keys_filter (p : string * V -> bool) m :
  NoDup (JsMap.keys m) -> NoDup (JsMap.keys (filter p m)).
Proof.
  induction m as [|x m IH]; simpl; intros Hn; [constructor|].
  apply NoDup_cons_iff in Hn as [Hx Hn].
  destruct (p x); simpl; [|now apply IH].
  constructor; [|now apply IH].
  intros Hin. apply Hx. apply in_map_iff in Hin as (y & E & Hy).
  apply filter_In in Hy as [Hy _]. rewrite <- E. now apply in_map.
Qed.

Lemma NoDup_app_skipn {A} n (l : list A) x :
  NoDup l -> In x (skipn n l) -> ~ In x (firstn n l).
Proof.
  intros Hn. rewrite <- (firstn_skipn n l) in Hn.
  revert Hn. generalize (firstn n l) (skipn n l). intros p q.
  induction p as [|a p IH]; simpl; intros Hn Hq; [tauto|].
  apply NoDup_cons_iff in Hn as [Ha Hn].
  intros [->|Hp].
  - apply Ha. apply in_or_app. now right.
  - now apply (IH Hn Hq).
Qed.

End DeleteFacts.

Lemma byTimestamp_iff a b :
  byTimestamp a b = true <-> timestamp (snd a) <= timestamp (snd b).
Proof. unfold byTimestamp. rewrite Z.leb_le. lia. Qed.

(** The expiry pass keeps exactly the entries the test of line 1736
    rejects. *)
Lemma cleanupCache_expired_filter now cache :
  cleanupCache_expired now cache = filter (keyNotIn (filter (expiredAt now) cache)) cache.
Proof.
  unfold cleanupCache_expired, JsMap.entries.
  rewrite (delete_if_filter (expiredAt now)). apply delete_all_filter.
Qed.

Lemma cleanupCache_expired_In now cache kv :
  NoDup (JsMap.keys cache) ->
  In kv (cleanupCache_expired now cache)
  <-> In kv cache /\ now - timestamp (snd kv) <= CACHE_EXPIRY.
Proof.
  intros Hn. rewrite cleanupCache_expired_filter, In_without_keys; trivial.
  - rewrite filter_In. unfold expiredAt. rewrite Z.gtb_ltb, Z.ltb_lt.
    split; intros [Hin H]; split; trivial.
    + destruct (Z_le_gt_dec (now - timestamp (snd kv)) CACHE_EXPIRY); trivial.
      exfalso. apply H. split; [assumption | lia].
    + intros [_ ?]. lia.
  - intros x Hx. now apply filter_In in Hx.
Qed.

Lemma cleanupCache_expired_wf now cache :
  NoDup (JsMap.keys cache) -> NoDup (JsMap.keys (cleanupCache_expired now cache)).
Proof. rewrite cleanupCache_expired_filter. apply NoDup_keys_filter. Qed.

Lemma cleanupCache_expired_none now cache :
  (forall kv, In kv cache -> now - timestamp (snd kv) <= CACHE_EXPIRY) ->
  cleanupCache_expired now cache = cache.
Proof.
  intros H. unfold cleanupCache_expired, JsMap.entries.
  rewrite (delete_if_filter (expiredAt now)).
  replace (filter (expiredAt now) cache) with (@nil (string * CacheEntry));
    [reflexivity|].
  symmetry. induction cache as [|x c IH]; simpl; [reflexivity|].
  unfold expiredAt at 1. rewrite Z.gtb_ltb.
  replace (CACHE_EXPIRY <? now - timestamp (snd x)) with false.
  - apply IH. intros kv Hkv. apply H. now right.
  - symmetry. apply Z.ltb_ge. apply H. now left.
Qed.

(** The size limit on a map with one entry per key: at most 100 entries
    stay, none is invented, and every entry dropped is at most as recent
    as every entry kept. *)
Lemma cleanupCache_limit_spec cache :
  NoDup (JsMap.keys cache) ->
  let kept := cleanupCache_limit cache in
  List.length kept = Nat.min 100 (List.length cache)
  /\ (forall kv, In kv kept -> In kv cache)
  /\ (forall k d, In k kept -> In d cache -> ~ In d kept ->
                  timestamp (snd d) <= timestamp (snd k)).
Proof.
  intros Hn kept. unfold cleanupCache_limit, JsMap.size, JsMap.entries in kept.
  destruct (Z.of_nat (List.length cache) >? 100) eqn:Hsz.
  - rewrite Z.gtb_ltb in Hsz. apply Z.ltb_lt in Hsz.
    set (sorted := Array_sort byTimestamp cache) in *.
    assert (Hp : Permutation sorted cache) by apply Array_sort_perm.
    assert (Hlen : List.length sorted = List.length cache)
      by apply (Permutation_length Hp).
    set (n := (List.length cache - 100)%nat).
    assert (Hslice : Array_slice0 sorted (Z.of_nat (List.length sorted) - 100)
                     = firstn n sorted).
    { unfold Array_slice0. rewrite Hlen.
      replace (Z.of_nat (List.length cache) - 100 <? 0) with false
        by (symmetry; apply Z.ltb_ge; lia).
      f_equal. unfold n. lia. }
    assert (Hk : kept = filter (keyNotIn (firstn n sorted)) cache).
    { unfold kept. rewrite Hslice. apply delete_all_filter. }
    assert (Hsn : NoDup sorted).
    { apply (NoDup_map_inv fst), (Permutation_NoDup (l := JsMap.keys cache)); trivial.
      apply Permutation_map. now symmetry. }
    assert (Hin : forall kv, In kv kept <-> In kv (skipn n sorted)).
    { intros kv. rewrite Hk, In_without_keys; trivial.
      - split.
        + intros [Hc Hd]. apply (Permutation_in _ (Permutation_sym Hp)) in Hc.
          rewrite <- (firstn_skipn n sorted) in Hc.
          apply in_app_or in Hc as [Hc|Hc]; [contradiction | assumption].
        + intros Hr. split.
          * apply (Permutation_in _ Hp). rewrite <- (firstn_skipn n sorted).
            apply in_or_app. now right.
          * now apply NoDup_app_skipn.
      - intros x Hx. apply (Permutation_in _ Hp). now apply In_firstn in Hx. }
    assert (Hkn : NoDup kept).
    { apply (NoDup_map_inv fst). rewrite Hk. now apply NoDup_keys_filter. }
    assert (Hrn : NoDup (skipn n sorted)).
    { rewrite <- (firstn_skipn n sorted) in Hsn. now apply NoDup_app_remove_l in Hsn. }
    split; [|split].
    + rewrite (Permutation_length (NoDup_Permutation Hkn Hrn Hin)).
      rewrite length_skipn, Hlen. unfold n. lia.
    + intros kv Hkv. rewrite Hk in Hkv. now apply filter_In in Hkv.
    + intros k d Hkk Hd Hnd. apply byTimestamp_iff.
      apply (sorted_prefix_le byTimestamp n sorted).
      * apply Array_sort_sorted.
        -- intros a b. rewrite !byTimestamp_iff. lia.
        -- intros a b c. rewrite !byTimestamp_iff. lia.
      * apply (Permutation_in _ (Permutation_sym Hp)) in Hd.
        rewrite <- (firstn_skipn n sorted) in Hd.
        apply in_app_or in Hd as [Hd|Hd]; [assumption|].
        exfalso. apply Hnd. now apply Hin.
      * now apply Hin.
  - rewrite Z.gtb_ltb in Hsz. apply Z.ltb_ge in Hsz. unfold kept.
    split; [lia|]. split; [trivial|]. intros; contradiction.
Qed.

(** On a map with one entry per key the expiry pass keeps the entries
    that are not older than the expiry time, in their order. *)
Lemma cleanupCache_expired_fresh now cache :
  NoDup (JsMap.keys cache) ->
  cleanupCache_expired now cache = filter (fun kv => negb (expiredAt now kv)) cache.
Proof.
  intros Hn. rewrite cleanupCache_expired_filter.
  apply filter_ext_in. intros kv Hkv.
  destruct (expiredAt now kv) eqn:E; simpl.
  - apply not_true_iff_false. rewrite keyNotIn_spec. intros H. apply H.
    apply in_map. apply filter_In. now split.
  - apply keyNotIn_spec. intros Hin. apply in_map_iff in Hin as (y & Ey & Hy).
    apply filter_In in Hy as [Hyc Hye].
    rewrite (keys_inj cache y kv Hn Hyc Hkv Ey) in Hye. congruence.
Qed.

(** [cleanupCache] selects entries of the cache. *)
Lemma cleanupCache_selects now cache :
  exists g, cleanupCache now cache = filter g cache.
Proof.
  unfold cleanupCache, cleanupCache_limit.
  rewrite cleanupCache_expired_filter.
  destruct (JsMap.size _ >? 100).
  - cbv zeta.
    replace (fold_left (fun m kv => JsMap.delete m (fst kv))
               (Array_slice0 _ _)
               (filter (keyNotIn (filter (expiredAt now) cache)) cache))
      with (filter (keyNotIn
                      (Array_slice0
                         (Array_sort byTimestamp
                            (JsMap.entries
                               (filter (keyNotIn (filter (expiredAt now) cache)) cache)))
                         (Z.of_nat
                            (List.length
                               (Array_sort byTimestamp
                                  (JsMap.entries
                                     (filter (keyNotIn (filter (expiredAt now) cache))
                                             cache)))) - 100)))
                   (filter (keyNotIn (filter (expiredAt now) cache)) cache))
      by (symmetry; apply delete_all_filter).
    rewrite filter_filter_and. eexists. reflexivity.
  - eexists. reflexivity.
Qed.

(** C5.  On every cache built by a sequence of insertions, [cleanupCache]
    retains exactly the most recent entries: the entries older than the
    expiry time go, and of the others ([fresh]) the 100 with the latest
    timestamps stay, or all of them when they are at most 100.  That is:
    at most 100 entries are left, all of them entries of the cache, none
    of them older than the expiry time, with one entry per key and in
    the order the cache had them; their number is the smaller of 100 and
    the number of entries not older than the expiry time; and every
    entry removed has a timestamp no later than every entry kept. *)
Theorem C5_capacity_keeps_most_recent (ins : list (string * CacheEntry)) (now : Z) :
  let cache := insertAll ins in
  let kept := cleanupCache now cache in
  let fresh := filter (fun kv => negb (expiredAt now kv)) cache in
  JsMap.size kept <= 100
  /\ (forall kv, In kv kept -> In kv cache)
  /\ (forall k d, In k kept -> In d cache -> ~ In d kept ->
                  timestamp (snd d) <= timestamp (snd k))
  /\ ((forall kv, In kv cache -> now - timestamp (snd kv) <= CACHE_EXPIRY) ->
      JsMap.size kept = Z.min 100 (JsMap.size cache))
  /\ JsMap.size kept = Z.min 100 (JsMap.size fresh)
  /\ (forall kv, In kv kept -> now - timestamp (snd kv) <= CACHE_EXPIRY)
  /\ (JsMap.size fresh <= 100 -> kept = fresh)
  /\ NoDup (JsMap.keys kept)
  /\ kept = filter (fun kv => negb (keyNotIn kept kv)) cache.
Proof.
  intros cache kept fresh.
  assert (Hn : NoDup (JsMap.keys cache)) by (apply wf_NoDup, wf_insertions).
  pose proof (cleanupCache_expired_wf now cache Hn) as Hn'.
  pose proof (cleanupCache_expired_fresh now cache Hn) as Hfresh.
  fold fresh in Hfresh.
  destruct (cleanupCache_limit_spec _ Hn') as (Hlen & Hsub & Hold).
  fold (cleanupCache now cache) in Hlen, Hsub, Hold. fold kept in Hlen, Hsub, Hold.
  assert (Hkf : forall kv, In kv kept ->
                  In kv cache /\ now - timestamp (snd kv) <= CACHE_EXPIRY).
  { intros kv Hkv. apply Hsub in Hkv.
    now apply (cleanupCache_expired_In now cache kv Hn) in Hkv. }
  split; [|split; [|split; [|split; [|split; [|split; [|split; [|split]]]]]]].
  - unfold JsMap.size. lia.
  - intros kv Hkv. now apply Hkf.
  - intros k d Hk Hd Hnd.
    destruct (Hkf k Hk) as [_ Hkfresh].
    destruct (Z_le_gt_dec (now - timestamp (snd d)) CACHE_EXPIRY) as [Hd'|Hd'].
    + apply (Hold k d Hk); trivial.
      apply (cleanupCache_expired_In now cache d Hn). now split.
    + lia.
  - intros Hall. unfold kept, cleanupCache in *.
    rewrite (cleanupCache_expired_none now cache Hall) in *.
    unfold JsMap.size. lia.
  - rewrite Hfresh in Hlen. unfold JsMap.size. lia.
  - intros kv Hkv. now apply Hkf.
  - intros Hsmall. unfold kept, cleanupCache. rewrite Hfresh.
    unfold cleanupCache_limit.
    replace (JsMap.size fresh >? 100) with false; [reflexivity|].
    symmetry. rewrite Z.gtb_ltb. apply Z.ltb_ge. exact Hsmall.
  - unfold kept. destruct (cleanupCache_selects now cache) as [g ->].
    now apply NoDup_keys_filter.
  - unfold kept. destruct (cleanupCache_selects now cache) as [g ->].
    symmetry. now apply filter_by_own_keys.
Qed.

(** C6.  An entry whose age is exactly [CACHE_EXPIRY] is not removed by
    the expiry pass of [cleanupCache] (its test is [>]), although the
    probe of [performSearch] (whose test is [<]) already treats the same
    entry as expired at the same instant. *)
Theorem C6_entry_at_expiry_survives :
  Forall (fun kv => CACHE_EXPIRY - timestamp (snd kv) >= CACHE_EXPIRY)
         Sample.boundary_cache
  /\ cleanupCache_expired CACHE_EXPIRY Sample.boundary_cache = Sample.boundary_cache
  /\ cleanupCache CACHE_EXPIRY Sample.boundary_cache = Sample.boundary_cache
  /\ probeMisses Sample.env_at_expiry Sample.boundary_state Sample.url_key = true
  /\ fetchCalls (snd (performSearch Sample.env_at_expiry Sample.boundary_state))
     = 1%nat.
Proof.
  split; [|repeat split].
  repeat constructor. discriminate.
Qed.

(** What the expiry pass does remove, on a cache built by insertions:
    exactly the entries strictly older than [CACHE_EXPIRY]. *)
Lemma cleanupCache_expired_strict (ins : list (string * CacheEntry)) now kv :
  In kv (cleanupCache_expired now (insertAll ins))
  <-> In kv (insertAll ins) /\ ~ (now - timestamp (snd kv) > CACHE_EXPIRY).
Proof.
  rewrite cleanupCache_expired_In by apply wf_NoDup, wf_insertions.
  split; intros [H1 H2]; split; trivial; lia.
Qed.

(** ** [isValidImageFile] *)

Lemma supported_In (t : string) :
  existsb (String.eqb t) SUPPORTED_FORMATS = true <-> In t SUPPORTED_FORMATS.
Proof. apply existsb_eqb_In. Qed.

(** C8.  [isValidImageFile] returns [false] exactly when the type is not
    one of [SUPPORTED_FORMATS] or the size exceeds [MAX_FILE_SIZE]
    (25 * 1024 * 1024 bytes), and it never returns [false] for another
    reason: a failed integrity decode is caught, a failed quality decode
    scores 0.5, which is below the threshold 0.8 and only adds the
    low-quality warning.  But it does not return [true] for every file
    within the limits: when both images load and a canvas call inside
    the [onload] handler of [assessImageQuality] throws, the promise
    awaited is never settled and [isValidImageFile] never returns.  It
    returns [true] in every other case, and that is the only case in
    which it does not return. *)
Theorem C8_validation_verdict (ienv : ImageEnv) (file : File) :
  ((exists shown, isValidImageFile ienv file = Resolved (false, shown))
   <-> ~ In (fileType file) SUPPORTED_FORMATS \/ fileSize file > MAX_FILE_SIZE)
  /\ (isValidImageFile ienv file = NeverSettled
      <-> In (fileType file) SUPPORTED_FORMATS /\ fileSize file <= MAX_FILE_SIZE
          /\ integrityLoads ienv = true /\ qualityImage ienv = ImgLoadedThrows)
  /\ ((exists shown, isValidImageFile ienv file = Resolved (true, shown))
      <-> In (fileType file) SUPPORTED_FORMATS /\ fileSize file <= MAX_FILE_SIZE
          /\ ~ (integrityLoads ienv = true /\ qualityImage ienv = ImgLoadedThrows))
  /\ MAX_FILE_SIZE = 26214400
  /\ assessImageQuality ImgError = Resolved (Some (5 # 10)%Q)
  /\ assessImageQuality ImgLoadedThrows = NeverSettled
  /\ (In (fileType file) SUPPORTED_FORMATS -> fileSize file <= MAX_FILE_SIZE ->
      integrityLoads ienv = true -> qualityImage ienv = ImgError ->
      isValidImageFile ienv file = Resolved (true, [LowQualityImage]))
  /\ (In (fileType file) SUPPORTED_FORMATS -> fileSize file <= MAX_FILE_SIZE ->
      integrityLoads ienv = false ->
      isValidImageFile ienv file = Resolved (true, []))
  /\ isValidImageFile Sample.env_canvas_throws Sample.png = NeverSettled.
Proof.
  assert (Ht : existsb (String.eqb (fileType file)) SUPPORTED_FORMATS = true
               <-> In (fileType file) SUPPORTED_FORMATS) by apply supported_In.
  assert (Hs : (fileSize file >? MAX_FILE_SIZE) = true
               <-> fileSize file > MAX_FILE_SIZE).
  { rewrite Z.gtb_ltb, Z.ltb_lt. lia. }
  assert (Hcase :
    (~ In (fileType file) SUPPORTED_FORMATS
     /\ isValidImageFile ienv file
        = Resolved (false, [UnsupportedFileType (fileType file)]))
    \/ (In (fileType file) SUPPORTED_FORMATS /\ fileSize file > MAX_FILE_SIZE
        /\ isValidImageFile ienv file
           = Resolved (false, [FileTooLarge (fileSize file)]))
    \/ (In (fileType file) SUPPORTED_FORMATS /\ fileSize file <= MAX_FILE_SIZE
        /\ integrityLoads ienv = false
        /\ isValidImageFile ienv file = Resolved (true, []))
    \/ (In (fileType file) SUPPORTED_FORMATS /\ fileSize file <= MAX_FILE_SIZE
        /\ integrityLoads ienv = true /\ qualityImage ienv = ImgLoadedThrows
        /\ isValidImageFile ienv file = NeverSettled)
    \/ (In (fileType file) SUPPORTED_FORMATS /\ fileSize file <= MAX_FILE_SIZE
        /\ integrityLoads ienv = true /\ qualityImage ienv <> ImgLoadedThrows
        /\ exists shown,
             isValidImageFile ienv file = Resolved (true, shown)
             /\ (qualityImage ienv = ImgError -> shown = [LowQualityImage]))).
  { unfold isValidImageFile, validateImageIntegrity.
    destruct (existsb (String.eqb (fileType file)) SUPPORTED_FORMATS) eqn:Et; simpl.
    2:{ left. split; [|reflexivity]. intros H. apply Ht in H. discriminate. }
    assert (Hi : In (fileType file) SUPPORTED_FORMATS) by now apply Ht.
    right. destruct (fileSize file >? MAX_FILE_SIZE) eqn:Es.
    { left. split; [assumption|]. split; [now apply Hs | reflexivity]. }
    assert (Hle : fileSize file <= MAX_FILE_SIZE).
    { destruct (Z_le_gt_dec (fileSize file) MAX_FILE_SIZE) as [H|H]; [assumption|].
      apply Hs in H. discriminate. }
    right. destruct (integrityLoads ienv) eqn:Ei.
    2:{ left. repeat split; assumption. }
    right. destruct (qualityImage ienv) as [px| |] eqn:Eq.
    - right. do 3 (split; [assumption || reflexivity|]). split; [discriminate|].
      unfold assessImageQuality.
      destruct (qualityLoop true None px (Some 0%Q) (Some 0%Q)) as [sharpness contrast].
      destruct (num_ltb _ _); eexists; (split; [reflexivity | discriminate]).
    - right. do 3 (split; [assumption || reflexivity|]). split; [discriminate|].
      simpl. eexists. split; reflexivity.
    - left. repeat split; assumption. }
  split; [|split; [|split; [|split; [reflexivity|split; [reflexivity|
    split; [reflexivity|split; [|split; [|reflexivity]]]]]]]].
  - split.
    + intros [shown E].
      destruct Hcase as [[Hn _]|[(_ & Hg & _)|[(_ & _ & _ & E')|[(_ & _ & _ & _ & E')
                        |(_ & _ & _ & _ & sh & E' & _)]]]];
        [now left | now right | | |]; rewrite E' in E; discriminate.
    + intros Hout.
      destruct Hcase as [[_ E]|[(_ & _ & E)|[(Hi & Hle & _)|[(Hi & Hle & _)
                        |(Hi & Hle & _)]]]];
        try (eexists; exact E); destruct Hout; (contradiction || lia).
  - split.
    + intros E.
      destruct Hcase as [[_ E']|[(_ & _ & E')|[(_ & _ & _ & E')|[H
                        |(_ & _ & _ & _ & sh & E' & _)]]]];
        try (rewrite E' in E; discriminate).
      destruct H as (Hi & Hle & Hl & Hq & _). repeat split; assumption.
    + intros (Hi & Hle & Hl & Hq).
      destruct Hcase as [[Hn _]|[(_ & Hg & _)|[(_ & _ & Hl' & _)|[(_ & _ & _ & _ & E)
                        |(_ & _ & _ & Hq' & _)]]]];
        try contradiction; try lia; try congruence.
  - split.
    + intros [shown E].
      destruct Hcase as [[_ E']|[(_ & _ & E')|[(Hi & Hle & Hl & _)|[(_ & _ & _ & _ & E')
                        |(Hi & Hle & _ & Hq & _)]]]];
        try (rewrite E' in E; discriminate).
      * split; [assumption|]. split; [assumption|]. intros [H _]. congruence.
      * split; [assumption|]. split; [assumption|]. intros [_ H]. contradiction.
    + intros (Hi & Hle & Hnot).
      destruct Hcase as [[Hn _]|[(_ & Hg & _)|[(_ & _ & _ & E)|[(_ & _ & Hl & Hq & _)
                        |(_ & _ & _ & _ & sh & E & _)]]]];
        try contradiction; try lia; try (eexists; exact E).
      exfalso. apply Hnot. now split.
  - intros Hi Hle Hl Hq.
    destruct Hcase as [[Hn _]|[(_ & Hg & _)|[(_ & _ & Hl' & _)|[(_ & _ & _ & Hq' & _)
                      |(_ & _ & _ & _ & sh & E & Hsh)]]]];
      try contradiction; try lia; try congruence.
    rewrite E. now rewrite (Hsh Hq).
  - intros Hi Hle Hl.
    destruct Hcase as [[Hn _]|[(_ & Hg & _)|[(_ & _ & _ & E)|[(_ & _ & Hl' & _)
                      |(_ & _ & Hl' & _)]]]];
      try contradiction; try lia; try congruence.
Qed.

(** ** The model on concrete inputs *)

Example key_of_file :
  generateCacheKey Sample.env_offline Sample.file_state
  = Fulfilled "file_0102ff_2048"%string.
Proof. reflexivity. Qed.

Example key_of_url :
  generateCacheKey Sample.env_offline Sample.url_state = Fulfilled Sample.url_key.
Proof. reflexivity. Qed.

(** The same URL searched twice within the expiry time: the second search
    is answered from the cache, with no further fetch. *)
Example second_search_hits_cache :
  let first := performSearch Sample.env_one_match Sample.url_state in
  let second := performSearch Sample.env_one_match (snd first) in
  fst first = Return [Sample.match_a]
  /\ fetchCalls (snd first) = 1%nat
  /\ fst second = Return [Sample.match_a]
  /\ fetchCalls (snd second) = 1%nat
  /\ cacheHits (metrics (snd second)) = 1
  /\ cacheMisses (metrics (snd second)) = 1.
Proof. repeat split. Qed.

(** An empty search is not cached: the same search fetches again. *)
Example empty_search_is_not_cached :
  let first := performSearch Sample.env_empty_object Sample.url_state in
  let second := performSearch Sample.env_empty_object (snd first) in
  fst first = Return [] /\ searchCache (snd first) = []
  /\ fst second = Return [] /\ fetchCalls (snd second) = 2%nat.
Proof. repeat split. Qed.

(** A cancelled second attempt: the third is never made. *)
Example cancelled_search :
  let run := performSearch Sample.env_cancelled Sample.url_state in
  fst run = Throw Sample.AbortError
  /\ effects (snd run) = [EffFetch 0; EffSleep (backoffDelay 1 (1 # 2)); EffFetch 1].
Proof. repeat split. Qed.

Example ranking_sample :
  map filename
      (filteredResults [Sample.match_a; Sample.match_b; Sample.match_c; Sample.match_d])
  = ["d.mp4"; "a.mp4"; "c.mp4"]%string.
Proof. reflexivity. Qed.

Example rejects_pdf :
  isValidImageFile Sample.env_no_decode Sample.pdf
  = Resolved (false, [UnsupportedFileType "application/pdf"]).
Proof. reflexivity. Qed.

Example rejects_oversized :
  isValidImageFile Sample.env_no_quality Sample.huge
  = Resolved (false, [FileTooLarge (MAX_FILE_SIZE + 1)]).
Proof. reflexivity. Qed.

Example accepts_undecodable_png :
  isValidImageFile Sample.env_no_decode Sample.png = Resolved (true, [])
  /\ isValidImageFile Sample.env_no_quality Sample.png
     = Resolved (true, [LowQualityImage]).
Proof. split; reflexivity. Qed.

(** A PNG within the limits whose canvas cannot be read: the validation
    never returns. *)
Example never_returns_when_canvas_throws :
  In (fileType Sample.png) SUPPORTED_FORMATS
  /\ fileSize Sample.png <= MAX_FILE_SIZE
  /\ isValidImageFile Sample.env_canvas_throws Sample.png = NeverSettled.
Proof.
  split; [simpl; tauto|]. split; [discriminate | reflexivity].
Qed.

Example quality_of_two_pixels :
  assessImageQuality (ImgLoaded [10; 20; 30; 255; 200; 100; 50; 255])
  = Resolved (Some (17121600 # 33177600)%Q).
Proof. reflexivity. Qed.

(** A cache of 101 entries with timestamps 1..101: the limit drops the
    oldest one. *)
Example limit_drops_oldest :
  let cache :=
    insertAll (map (fun n => (Z_to_string (Z.of_nat n),
                              mkEntry [Sample.match_a] (Z.of_nat n) 12))
                   (seq 1 101)) in
  JsMap.size cache = 101
  /\ JsMap.size (cleanupCache 200 cache) = 100
  /\ JsMap.get (cleanupCache 200 cache) "1" = None
  /\ JsMap.get (cleanupCache 200 cache) "2"
     = Some (mkEntry [Sample.match_a] 2 12).
Proof. vm_compute. repeat split. Qed.

(** * Further properties of the search core *)

(** ** What one attempt does to the state *)

Lemma attemptOnce_effect env k s :
  let o := fst (attemptOnce env k s) in
  let s' := snd (attemptOnce env k s) in
  fetchCalls s' = S (fetchCalls s)
  /\ randomCalls s' = randomCalls s
  /\ effects s' = effects s ++ [EffFetch (fetchCalls s)]
  /\ currentFile s' = currentFile s /\ urlInput s' = urlInput s
  /\ cacheHits (metrics s') = cacheHits (metrics s)
  /\ cacheMisses (metrics s') = cacheMisses (metrics s)
  /\ match o with
     | Fulfilled r =>
         searchCache s' =
         cacheWrite (searchCache s) k r (dateNow env (clockReads s))
                    (requestTime env (fetchCalls s))
     | Rejected _ => searchCache s' = searchCache s
     end.
Proof.
  unfold attemptOnce, fetch.
  destruct (fetchOutcome env (fetchCalls s)) as [resp|e]; simpl;
    [|repeat split].
  destruct (ok resp); simpl; [|repeat split].
  destruct (json resp) as [[|d]|e]; simpl; [repeat split| |repeat split].
  destruct (truthy (error d)); simpl; [repeat split|].
  unfold cacheWrite.
  destruct (0 <? Z.of_nat (List.length match result d with Some r => r | None => [] end));
    simpl; repeat split.
Qed.

(** The run of the retry loop, whatever the network does: it ends by
    returning a list or by throwing, never by leaving the [while]; it makes
    between one and [remaining] fetches and one sleep fewer than fetches;
    it leaves the search input alone. *)
Lemma retryLoop_run env k :
  forall remaining attempt s,
    (0 < remaining)%nat -> (remaining + attempt)%nat = maxRetries ->
    let c := fst (retryLoop env k remaining attempt s) in
    let s' := snd (retryLoop env k remaining attempt s) in
    c <> ReturnUndefined
    /\ currentFile s' = currentFile s /\ urlInput s' = urlInput s
    /\ cacheHits (metrics s') = cacheHits (metrics s)
    /\ cacheMisses (metrics s') = cacheMisses (metrics s)
    /\ exists tr,
         effects s' = effects s ++ tr
         /\ (fetchCalls s' = fetchCalls s + List.length (fetchesOf tr))%nat
         /\ (randomCalls s' = randomCalls s + List.length (sleepsOf tr))%nat
         /\ (1 <= List.length (fetchesOf tr) <= remaining)%nat
         /\ S (List.length (sleepsOf tr)) = List.length (fetchesOf tr).
Proof.
  induction remaining as [|remaining IH]; intros attempt s Hpos Hsum; [lia|].
  simpl.
  pose proof (attemptOnce_effect env k s) as (Hf & Hr & He & Hcf & Hu & Hh & Hm & _).
  destruct (attemptOnce env k s) as [o s1]. simpl in *.
  assert (Hone : exists tr,
             effects s1 = effects s ++ tr
             /\ (fetchCalls s1 = fetchCalls s + List.length (fetchesOf tr))%nat
             /\ (randomCalls s1 = randomCalls s + List.length (sleepsOf tr))%nat
             /\ (1 <= List.length (fetchesOf tr) <= S remaining)%nat
             /\ S (List.length (sleepsOf tr)) = List.length (fetchesOf tr)).
  { exists [EffFetch (fetchCalls s)]. simpl. repeat split; try assumption; lia. }
  destruct o as [results|e]; simpl.
  { repeat split; try assumption; try discriminate. }
  destruct (String.eqb (name e) "AbortError"); simpl.
  { repeat split; try assumption; try discriminate. }
  unfold maxRetries in Hsum.
  destruct (Nat.eqb attempt 2) eqn:E; simpl.
  { repeat split; try assumption; try discriminate. }
  apply Nat.eqb_neq in E.
  set (s2 := sleep (backoffDelay (S attempt) (mathRandom env (randomCalls s1)))
                   (snd (Math_random env s1))).
  assert (Hpos' : (0 < remaining)%nat) by lia.
  assert (Hsum' : (remaining + S attempt)%nat = maxRetries)
    by (unfold maxRetries; lia).
  destruct (IH (S attempt) s2 Hpos' Hsum')
    as (Hc & Hcf' & Hu' & Hh' & Hm' & tr & Htr & Hfc & Hrc & Hn & Hs).
  match goal with
  | |- context [retryLoop env k remaining (S attempt) ?x] => change x with s2
  end.
  split; [assumption|].
  split; [rewrite Hcf'; exact Hcf|]. split; [rewrite Hu'; exact Hu|].
  split; [rewrite Hh'; exact Hh|]. split; [rewrite Hm'; exact Hm|].
  exists ([EffFetch (fetchCalls s);
           EffSleep (backoffDelay (S attempt) (mathRandom env (randomCalls s1)))]
          ++ tr).
  unfold fetchesOf, sleepsOf in *. rewrite !flat_map_app, !length_app. simpl.
  split; [|split; [|split; [|split]]]; try lia.
  - rewrite Htr. unfold s2. simpl. rewrite He, <- !app_assoc. reflexivity.
  - rewrite Hfc. unfold s2. simpl. lia.
  - rewrite Hrc. unfold s2. simpl. lia.
Qed.

Lemma backoffs_S env attempt r n :
  backoffs env attempt r (S n)
  = backoffDelay (S attempt) (mathRandom env r) :: backoffs env (S attempt) (S r) n.
Proof.
  unfold backoffs. cbn [seq map]. rewrite !Nat.add_0_r. f_equal.
  rewrite <- seq_shift, map_map. apply map_ext. intros i.
  now rewrite !Nat.add_succ_r.
Qed.

(** The effects of the retry loop in their order: fetches with
    consecutive numbers, and between one fetch and the next the backoff
    sleep of the failure count reached. *)
Lemma retryLoop_trace env k :
  forall remaining attempt s,
    (0 < remaining)%nat -> (remaining + attempt)%nat = maxRetries ->
    exists n,
      (n < remaining)%nat
      /\ effects (snd (retryLoop env k remaining attempt s))
         = effects s ++ runOf (fetchCalls s) (backoffs env attempt (randomCalls s) n).
Proof.
  induction remaining as [|remaining IH]; intros attempt s Hpos Hsum; [lia|].
  simpl.
  pose proof (attemptOnce_effect env k s) as (Hf & Hr & He & _).
  destruct (attemptOnce env k s) as [o s1]. simpl in *.
  assert (Hone : exists n,
             (n < S remaining)%nat
             /\ effects s1
                = effects s ++ runOf (fetchCalls s) (backoffs env attempt (randomCalls s) n)).
  { exists 0%nat. split; [lia | exact He]. }
  destruct o as [results|e]; simpl; [exact Hone|].
  destruct (String.eqb (name e) "AbortError"); simpl; [exact Hone|].
  unfold maxRetries in Hsum.
  destruct (Nat.eqb attempt 2) eqn:E; simpl; [exact Hone|].
  apply Nat.eqb_neq in E.
  set (s2 := sleep (backoffDelay (S attempt) (mathRandom env (randomCalls s1)))
                   (snd (Math_random env s1))).
  assert (Hpos' : (0 < remaining)%nat) by lia.
  assert (Hsum' : (remaining + S attempt)%nat = maxRetries)
    by (unfold maxRetries; lia).
  destruct (IH (S attempt) s2 Hpos' Hsum') as (n & Hn & Htr).
  match goal with
  | |- context [retryLoop env k remaining (S attempt) ?x] => change x with s2
  end.
  exists (S n). split; [lia|].
  rewrite Htr, backoffs_S. unfold s2. simpl.
  rewrite He, Hf, Hr, <- !app_assoc. reflexivity.
Qed.

Lemma generateCacheKey_input env s s' :
  currentFile s' = currentFile s -> urlInput s' = urlInput s ->
  generateCacheKey env s' = generateCacheKey env s.
Proof. unfold generateCacheKey. now intros -> ->. Qed.

Lemma performSearch_miss_input env s k :
  generateCacheKey env s = Fulfilled k ->
  probeMisses env s k = true ->
  exists s0,
    performSearch env s = retryLoop env k maxRetries 0 s0
    /\ fetchCalls s0 = fetchCalls s /\ randomCalls s0 = randomCalls s
    /\ effects s0 = effects s /\ searchCache s0 = searchCache s
    /\ currentFile s0 = currentFile s /\ urlInput s0 = urlInput s.
Proof.
  intros Hk Hm. unfold performSearch, probeMisses in *. rewrite Hk.
  destruct (JsMap.get (searchCache s) k) as [c|].
  - apply negb_true_iff in Hm. unfold Date_now. rewrite Hm.
    eexists; split; [reflexivity|]. simpl. repeat split.
  - eexists; split; [reflexivity|]. simpl. repeat split.
Qed.

(** On a cache hit the cached list is returned and only the hit counter
    and the number of clock readings change. *)
Lemma performSearch_hit env s k :
  generateCacheKey env s = Fulfilled k ->
  probeMisses env s k = false ->
  exists c s',
    JsMap.get (searchCache s) k = Some c
    /\ performSearch env s = (Return (data c), s')
    /\ currentFile s' = currentFile s /\ urlInput s' = urlInput s
    /\ fetchCalls s' = fetchCalls s /\ randomCalls s' = randomCalls s
    /\ effects s' = effects s /\ searchCache s' = searchCache s
    /\ cacheHits (metrics s') = cacheHits (metrics s) + 1
    /\ cacheMisses (metrics s') = cacheMisses (metrics s).
Proof.
  intros Hk Hp. unfold performSearch, probeMisses in *. rewrite Hk.
  destruct (JsMap.get (searchCache s) k) as [c|]; [|discriminate].
  apply negb_false_iff in Hp. unfold Date_now. rewrite Hp.
  exists c. eexists. split; [reflexivity|]. split; [reflexivity|].
  simpl. repeat split.
Qed.

Lemma performSearch_keeps_input env s :
  currentFile (snd (performSearch env s)) = currentFile s
  /\ urlInput (snd (performSearch env s)) = urlInput s.
Proof.
  destruct (generateCacheKey env s) as [k|e] eqn:Hk.
  - destruct (probeMisses env s k) eqn:Hp.
    + destruct (performSearch_miss_input _ _ _ Hk Hp)
        as (s0 & -> & _ & _ & _ & _ & Hcf0 & Hu0).
      destruct (retryLoop_run env k maxRetries 0%nat s0)
        as (_ & Hcf & Hu & _); [unfold maxRetries; lia | reflexivity |].
      split; congruence.
    + destruct (performSearch_hit _ _ _ Hk Hp)
        as (c & s' & _ & -> & Hcf & Hu & _). now split.
  - unfold performSearch. rewrite Hk. now split.
Qed.

(** X1.  Whatever the environment does, [performSearch] never leaves its
    [while] loop by the loop condition (it never resolves to
    [undefined]); it issues at most three fetches and at most two sleeps;
    its effects are either none or a run that starts and ends with a
    fetch, in which every sleep is followed at once by the next fetch and
    lasts the backoff delay of the number of failures so far; and the file
    and URL being searched are left as they were. *)
Theorem performSearch_bounded_run env s :
  let c := fst (performSearch env s) in
  let s' := snd (performSearch env s) in
  c <> ReturnUndefined
  /\ currentFile s' = currentFile s /\ urlInput s' = urlInput s
  /\ exists tr,
       effects s' = effects s ++ tr
       /\ (fetchCalls s' = fetchCalls s + List.length (fetchesOf tr))%nat
       /\ (List.length (fetchesOf tr) <= 3)%nat
       /\ (List.length (sleepsOf tr) <= 2)%nat
       /\ (tr = [] \/ S (List.length (sleepsOf tr)) = List.length (fetchesOf tr))
       /\ (tr = []
           \/ exists n, (n <= 2)%nat
                /\ tr = runOf (fetchCalls s) (backoffs env 0 (randomCalls s) n)).
Proof.
  cbv zeta.
  destruct (generateCacheKey env s) as [k|e] eqn:Hk.
  - destruct (probeMisses env s k) eqn:Hp.
    + destruct (performSearch_miss_input _ _ _ Hk Hp)
        as (s0 & -> & Hf & Hrc0 & He & _ & Hcf0 & Hu0).
      destruct (retryLoop_run env k maxRetries 0%nat s0)
        as (Hc & Hcf & Hu & _ & _ & tr & Htr & Hfc & Hrc & Hn & Hs);
        [unfold maxRetries; lia | reflexivity |].
      destruct (retryLoop_trace env k maxRetries 0%nat s0)
        as (n & Hlt & Hrun); [unfold maxRetries; lia | reflexivity |].
      unfold maxRetries in Hn, Hlt.
      split; [assumption|]. split; [congruence|]. split; [congruence|].
      exists tr. split; [congruence|]. split; [congruence|].
      split; [lia|]. split; [lia|]. split; [now right|].
      right. exists n. split; [lia|].
      rewrite Htr in Hrun. apply app_inv_head in Hrun.
      rewrite Hrun. congruence.
    + destruct (performSearch_hit _ _ _ Hk Hp)
        as (c & s' & _ & -> & Hcf & Hu & Hf & _ & He & _).
      simpl. split; [discriminate|]. split; [assumption|]. split; [assumption|].
      exists []. rewrite app_nil_r. simpl. repeat split; auto; lia.
  - unfold performSearch. rewrite Hk. simpl.
    split; [discriminate|]. split; [reflexivity|]. split; [reflexivity|].
    exists []. rewrite app_nil_r. simpl. repeat split; auto; lia.
Qed.

(** X2.  A search whose key can be computed counts as exactly one cache
    hit or one cache miss: on a hit [cacheHits] grows by one, nothing is
    fetched or slept and the cache is untouched; on a miss [cacheMisses]
    grows by one and at least one fetch is made. *)
Theorem performSearch_counts_hit_or_miss env s k :
  generateCacheKey env s = Fulfilled k ->
  let s' := snd (performSearch env s) in
  (probeMisses env s k = false ->
     cacheHits (metrics s') = cacheHits (metrics s) + 1
     /\ cacheMisses (metrics s') = cacheMisses (metrics s)
     /\ effects s' = effects s /\ fetchCalls s' = fetchCalls s
     /\ searchCache s' = searchCache s)
  /\ (probeMisses env s k = true ->
        cacheHits (metrics s') = cacheHits (metrics s)
        /\ cacheMisses (metrics s') = cacheMisses (metrics s) + 1
        /\ (fetchCalls s < fetchCalls s')%nat).
Proof.
  intros Hk s'. split; intros Hp.
  - unfold s', performSearch, probeMisses in *. rewrite Hk.
    destruct (JsMap.get (searchCache s) k) as [c|]; [|discriminate].
    apply negb_false_iff in Hp. unfold Date_now. rewrite Hp. simpl.
    repeat split.
  - destruct (performSearch_miss _ _ _ Hk Hp) as (s0 & E & Hf & _ & _ & _ & Hm & Hh).
    unfold s'. rewrite E.
    destruct (retryLoop_run env k maxRetries 0%nat s0)
      as (_ & _ & _ & Hh' & Hm' & tr & _ & Hfc & _ & Hn & _);
      [unfold maxRetries; lia | reflexivity |].
    rewrite Hh', Hm', Hfc. repeat split; try congruence; lia.
Qed.

Lemma performSearch_counts_hit_or_miss_witness :
  let s' := snd (performSearch Sample.env_one_match Sample.url_state) in
  (probeMisses Sample.env_one_match Sample.url_state Sample.url_key = false ->
     cacheHits (metrics s') = 0 + 1
     /\ cacheMisses (metrics s') = 0
     /\ effects s' = [] /\ fetchCalls s' = 0%nat
     /\ searchCache s' = [])
  /\ (probeMisses Sample.env_one_match Sample.url_state Sample.url_key = true ->
        cacheHits (metrics s') = 0
        /\ cacheMisses (metrics s') = 0 + 1
        /\ (0 < fetchCalls s')%nat).
Proof.
  apply (performSearch_counts_hit_or_miss Sample.env_one_match Sample.url_state
           Sample.url_key).
  reflexivity.
Defined.

Lemma get_cacheWrite_same cache k r now rt :
  r <> [] -> JsMap.get (cacheWrite cache k r now rt) k = Some (mkEntry r now rt).
Proof.
  intros Hr. unfold cacheWrite. destruct r as [|x r]; [contradiction|].
  simpl List.length. rewrite Nat2Z.inj_succ.
  replace (0 <? Z.succ (Z.of_nat (List.length r))) with true
    by (symmetry; apply Z.ltb_lt; lia).
  apply get_set_same.
Qed.

Lemma retryLoop_caches env k :
  forall remaining attempt s r s',
    retryLoop env k remaining attempt s = (Return r, s') ->
    r <> [] ->
    exists e, JsMap.get (searchCache s') k = Some e /\ data e = r.
Proof.
  induction remaining as [|remaining IH]; intros attempt s r s' H Hr;
    cbn [retryLoop] in H; [discriminate|].
  pose proof (attemptOnce_effect env k s) as (_ & _ & _ & _ & _ & _ & _ & Hc).
  destruct (attemptOnce env k s) as [[results|e] s1]; simpl in Hc.
  - injection H as <- <-. rewrite Hc, get_cacheWrite_same by assumption.
    eexists. split; reflexivity.
  - destruct (String.eqb (name e) "AbortError"); [discriminate|].
    destruct (Nat.eqb (S attempt) maxRetries); [discriminate|].
    destruct (Math_random env s1) as [rnd s2]. exact (IH _ _ _ _ H Hr).
Qed.

Lemma performSearch_caches_result env s k r s1 :
  generateCacheKey env s = Fulfilled k ->
  performSearch env s = (Return r, s1) ->
  r <> [] ->
  generateCacheKey env s1 = Fulfilled k
  /\ exists e, JsMap.get (searchCache s1) k = Some e /\ data e = r.
Proof.
  intros Hk H Hr.
  pose proof (performSearch_keeps_input env s) as (Hcf & Hu).
  rewrite H in Hcf, Hu. simpl in Hcf, Hu.
  split; [rewrite (generateCacheKey_input env s s1 Hcf Hu); exact Hk|].
  destruct (probeMisses env s k) eqn:Hp.
  - destruct (performSearch_miss _ _ _ Hk Hp) as (s0 & E & _).
    rewrite E in H. exact (retryLoop_caches env k _ _ _ _ _ H Hr).
  - destruct (performSearch_hit _ _ _ Hk Hp)
      as (c & s' & Hg & E & _ & _ & _ & _ & _ & Hc & _).
    rewrite E in H. injection H as <- <-. exists c. now rewrite Hc.
Qed.

(** X3.  Whenever a search returns a non-empty list, that list is in the
    cache under the search's key when the search ends, whether it came
    from the cache or from any of the three attempts; and a second search
    of the same input, started while that entry is younger than
    [CACHE_EXPIRY], returns the same list without any fetch. *)
Theorem performSearch_result_is_cached env s k r s1 :
  generateCacheKey env s = Fulfilled k ->
  performSearch env s = (Return r, s1) ->
  r <> [] ->
  exists e,
    JsMap.get (searchCache s1) k = Some e /\ data e = r
    /\ (dateNow env (clockReads s1) - timestamp e < CACHE_EXPIRY ->
        exists s2,
          performSearch env s1 = (Return r, s2)
          /\ fetchCalls s2 = fetchCalls s1 /\ effects s2 = effects s1).
Proof.
  intros Hk H Hr.
  destruct (performSearch_caches_result env s k r s1 Hk H Hr)
    as (Hk1 & e & Hg & Hd). exists e. split; [assumption|]. split; [assumption|].
  intros Hfresh.
  assert (Hp : probeMisses env s1 k = false).
  { unfold probeMisses. rewrite Hg. apply negb_false_iff, Z.ltb_lt. exact Hfresh. }
  destruct (performSearch_hit _ _ _ Hk1 Hp)
    as (c & s2 & Hg' & E & _ & _ & Hf & _ & Hef & _).
  rewrite Hg in Hg'. injection Hg' as <-. rewrite Hd in E.
  exists s2. now auto.
Qed.

Lemma performSearch_result_is_cached_witness :
  exists e,
    JsMap.get (searchCache (snd (performSearch Sample.env_one_match Sample.url_state)))
              Sample.url_key = Some e
    /\ data e = [Sample.match_a]
    /\ (dateNow Sample.env_one_match
                (clockReads (snd (performSearch Sample.env_one_match Sample.url_state)))
        - timestamp e < CACHE_EXPIRY ->
        exists s2,
          performSearch Sample.env_one_match
                        (snd (performSearch Sample.env_one_match Sample.url_state))
          = (Return [Sample.match_a], s2)
          /\ fetchCalls s2
             = fetchCalls (snd (performSearch Sample.env_one_match Sample.url_state))
          /\ effects s2
             = effects (snd (performSearch Sample.env_one_match Sample.url_state))).
Proof.
  apply (performSearch_result_is_cached Sample.env_one_match Sample.url_state
           Sample.url_key [Sample.match_a]).
  - reflexivity.
  - reflexivity.
  - discriminate.
Defined.

(** ** Further properties of [cleanupCache] *)

Lemma get_In {V} (m : JsMap.t V) k v :
  NoDup (JsMap.keys m) -> (JsMap.get m k = Some v <-> In (k, v) m).
Proof.
  induction m as [|[k' v'] m IH]; simpl; intros Hn.
  - split; [discriminate | contradiction].
  - apply NoDup_cons_iff in Hn as [Hk Hn].
    destruct (String.eqb_spec k' k) as [->|Hne].
    + split.
      * intros [= ->]. now left.
      * intros [[= ->]|Hin]; [reflexivity|].
        exfalso. apply Hk. change k with (fst (k, v)). now apply in_map.
    + rewrite (IH Hn). split; [now right|].
      intros [[= -> _]|Hin]; [contradiction | assumption].
Qed.

Lemma cleanupCache_limit_small cache :
  JsMap.size cache <= 100 -> cleanupCache_limit cache = cache.
Proof.
  intros H. unfold cleanupCache_limit.
  rewrite Z.gtb_ltb. now replace (100 <? JsMap.size cache) with false
    by (symmetry; apply Z.ltb_ge; lia).
Qed.

Lemma cleanupCache_limit_wf cache :
  NoDup (JsMap.keys cache) -> NoDup (JsMap.keys (cleanupCache_limit cache)).
Proof.
  intros Hn. unfold cleanupCache_limit. cbv zeta.
  destruct (_ >? _); [|assumption].
  match goal with
  | |- NoDup (JsMap.keys (fold_left _ ?D _)) =>
      replace (fold_left (fun m kv => JsMap.delete m (fst kv)) D cache)
        with (filter (keyNotIn D) cache) by (symmetry; apply delete_all_filter)
  end.
  now apply NoDup_keys_filter.
Qed.

(** X4.  Running [cleanupCache] twice at the same instant does nothing
    more than running it once, on every cache built by insertions. *)
Theorem cleanupCache_idempotent (ins : list (string * CacheEntry)) (now : Z) :
  cleanupCache now (cleanupCache now (insertAll ins))
  = cleanupCache now (insertAll ins).
Proof.
  set (cache := insertAll ins).
  assert (Hn : NoDup (JsMap.keys cache)) by (apply wf_NoDup, wf_insertions).
  pose proof (cleanupCache_expired_wf now cache Hn) as Hn1.
  destruct (cleanupCache_limit_spec _ Hn1) as (Hlen & Hsub & _).
  fold (cleanupCache now cache) in Hlen, Hsub.
  unfold cleanupCache at 1.
  rewrite cleanupCache_expired_none.
  - apply cleanupCache_limit_small. unfold JsMap.size. lia.
  - intros kv Hkv. apply Hsub in Hkv.
    now apply (cleanupCache_expired_In now cache kv Hn) in Hkv.
Qed.

(** X5.  [cleanupCache] never invents or rewrites an entry: whatever a
    lookup finds after it was found before it.  Conversely, when the cache
    holds at most 100 entries, every entry no older than [CACHE_EXPIRY] is
    still found under its key afterwards; in particular every entry the
    probe of [performSearch] would serve survives. *)
Theorem cleanupCache_lookup (ins : list (string * CacheEntry)) (now : Z) k e :
  let cache := insertAll ins in
  (JsMap.get (cleanupCache now cache) k = Some e -> JsMap.get cache k = Some e)
  /\ (JsMap.size cache <= 100 ->
      JsMap.get cache k = Some e ->
      now - timestamp e <= CACHE_EXPIRY ->
      JsMap.get (cleanupCache now cache) k = Some e).
Proof.
  intros cache.
  assert (Hn : NoDup (JsMap.keys cache)) by (apply wf_NoDup, wf_insertions).
  pose proof (cleanupCache_expired_wf now cache Hn) as Hn1.
  pose proof (cleanupCache_limit_wf _ Hn1) as Hn2.
  fold (cleanupCache now cache) in Hn2.
  destruct (cleanupCache_limit_spec _ Hn1) as (_ & Hsub & _).
  fold (cleanupCache now cache) in Hsub.
  split.
  - intros H. apply (get_In _ _ _ Hn2) in H. apply Hsub in H.
    apply (cleanupCache_expired_In now cache _ Hn) in H as [H _].
    now apply get_In.
  - intros Hsz Hg Hfresh. apply (get_In _ _ _ Hn) in Hg.
    assert (Hin : In (k, e) (cleanupCache_expired now cache))
      by (apply (cleanupCache_expired_In now cache _ Hn); now split).
    unfold cleanupCache. rewrite cleanupCache_limit_small.
    + now apply get_In.
    + rewrite cleanupCache_expired_filter. unfold JsMap.size in *.
      pose proof (filter_length_le
                    (keyNotIn (filter (expiredAt now) cache)) cache). lia.
Qed.

(** ** Strings: hexadecimal digits and decimal numerals *)

Lemma below_16_cases (P : Z -> Prop) :
  Forall P (map Z.of_nat (seq 0 16)) -> forall d, 0 <= d < 16 -> P d.
Proof.
  intros H d Hd. rewrite Forall_forall in H. apply H.
  replace d with (Z.of_nat (Z.to_nat d)) by lia.
  apply in_map, in_seq. lia.
Qed.

Lemma hexValue_HEX_digit d : 0 <= d < 16 -> hexValue (HEX_digit d) = d.
Proof.
  revert d. apply (below_16_cases (fun d => hexValue (HEX_digit d) = d)).
  repeat constructor.
Qed.

Lemma hexValue_hex_digit d : 0 <= d < 16 -> hexValue (hex_digit d) = d.
Proof.
  revert d. apply (below_16_cases (fun d => hexValue (hex_digit d) = d)).
  repeat constructor.
Qed.

Lemma HEX_digit_unreserved d : 0 <= d < 16 -> isUnreserved (HEX_digit d) = true.
Proof.
  revert d. apply (below_16_cases (fun d => isUnreserved (HEX_digit d) = true)).
  repeat constructor.
Qed.

Lemma ascii_code_bounded c : 0 <= Z.of_nat (nat_of_ascii c) < 256.
Proof. pose proof (nat_ascii_bounded c). lia. Qed.

Lemma ascii_code_inj c c' :
  Z.of_nat (nat_of_ascii c) = Z.of_nat (nat_of_ascii c') -> c = c'.
Proof.
  intros H. apply Nat2Z.inj in H.
  rewrite <- (ascii_nat_embedding c), <- (ascii_nat_embedding c'). now f_equal.
Qed.

Lemma two_digits_inj a b :
  0 <= a < 256 -> 0 <= b < 256 ->
  a / 16 = b / 16 -> a mod 16 = b mod 16 -> a = b.
Proof.
  intros Ha Hb Hq Hr.
  rewrite (Z.div_mod a 16), (Z.div_mod b 16) by lia. now rewrite Hq, Hr.
Qed.

Lemma Z_to_string_inj a b : Z_to_string a = Z_to_string b -> a = b.
Proof.
  unfold Z_to_string. intros H.
  assert (N : forall z, Z.to_int z <> Decimal.Pos Decimal.Nil
                        /\ Z.to_int z <> Decimal.Neg Decimal.Nil).
  { intros [|p|p]; simpl; split; try discriminate;
      intros [= E]; now apply (DecimalPos.Unsigned.to_uint_nonnil p). }
  apply DecimalZ.to_int_inj.
  destruct (N a) as [Ha1 Ha2], (N b) as [Hb1 Hb2].
  pose proof (NilZero.isi _ Ha1 Ha2) as Ea.
  pose proof (NilZero.isi _ Hb1 Hb2) as Eb.
  rewrite H in Ea. congruence.
Qed.

Lemma append_inj_length (a b x y : string) :
  String.length a = String.length b ->
  (a ++ x)%string = (b ++ y)%string -> a = b /\ x = y.
Proof.
  revert b. induction a as [|c a IH]; intros [|c' b] Hl H; simpl in *;
    try discriminate.
  - now split.
  - injection H as -> H. injection Hl as Hl.
    destruct (IH b Hl H) as [-> ->]. now split.
Qed.

(** ** [encodeURIComponent] and the request *)

Lemma percentEncode_inj c c' : percentEncode c = percentEncode c' -> c = c'.
Proof.
  unfold percentEncode. intros [= Hh Hl].
  pose proof (ascii_code_bounded c) as Bc.
  pose proof (ascii_code_bounded c') as Bc'.
  apply (f_equal hexValue) in Hh, Hl.
  rewrite !hexValue_HEX_digit in Hh, Hl
    by first [ apply Z.mod_pos_bound; lia
             | split; [apply Z.div_pos; lia | apply Z.div_lt_upper_bound; lia] ].
  apply ascii_code_inj. now apply two_digits_inj.
Qed.

Lemma encodeURIComponent_inj s :
  forall s', encodeURIComponent s = encodeURIComponent s' -> s = s'.
Proof.
  induction s as [|c s IH]; intros [|c' s']; simpl.
  - reflexivity.
  - destruct (isUnreserved c'); discriminate.
  - destruct (isUnreserved c); discriminate.
  - destruct (isUnreserved c) eqn:E, (isUnreserved c') eqn:E'; simpl.
    + intros [= -> H]. f_equal. now apply IH.
    + intros [= -> _]. discriminate.
    + intros [= <- _]. discriminate.
    + intros [= Hh Hl H].
      assert (c = c') as -> by (apply percentEncode_inj; unfold percentEncode;
                                now rewrite Hh, Hl).
      f_equal. now apply IH.
Qed.

(** X6.  [encodeURIComponent] produces only unreserved characters and
    [%]: no [&], [=], [?], [#], [/], [+] or blank of the input reaches the
    query string.  It is injective, so distinct URLs give distinct request
    URLs. *)
Theorem encodeURIComponent_safe_and_injective (s : string) :
  Forall (fun c => isUnreserved c = true \/ c = "%"%char)
         (list_ascii_of_string (encodeURIComponent s))
  /\ (forall s', encodeURIComponent s = encodeURIComponent s' -> s = s').
Proof.
  split.
  - induction s as [|c s IH]; simpl; [constructor|].
    destruct (isUnreserved c) eqn:E; simpl.
    + constructor; [now left | assumption].
    + pose proof (ascii_code_bounded c) as Bc.
      constructor; [now right|].
      constructor;
        [left; apply HEX_digit_unreserved; split;
         [apply Z.div_pos; lia | apply Z.div_lt_upper_bound; lia]|].
      constructor; [left; apply HEX_digit_unreserved, Z.mod_pos_bound; lia|].
      assumption.
  - apply encodeURIComponent_inj.
Qed.

(** ** Cache keys *)

Lemma concat_empty_cons (x : string) (xs : list string) :
  String.concat "" (x :: xs) = (x ++ String.concat "" xs)%string.
Proof.
  destruct xs as [|y ys]; simpl; [|reflexivity].
  induction x as [|c x IH]; simpl; [reflexivity | now rewrite <- IH].
Qed.

Lemma hex_digit_not_underscore d : 0 <= d < 16 -> hex_digit d <> "_"%char.
Proof.
  revert d. apply (below_16_cases (fun d => hex_digit d <> "_"%char)).
  repeat constructor; discriminate.
Qed.

Lemma byte_digits b :
  isByte b -> 0 <= b / 16 < 16 /\ 0 <= b mod 16 < 16.
Proof.
  unfold isByte. intros Hb. split.
  - split; [apply Z.div_pos; lia | apply Z.div_lt_upper_bound; lia].
  - apply Z.mod_pos_bound. lia.
Qed.

(** The hexadecimal rendering of a digest, followed by [_], determines
    the digest and what follows. *)
Lemma hex_then_underscore_inj l :
  forall l' x y,
    Forall isByte l -> Forall isByte l' ->
    (String.concat "" (map hex_byte l) ++ String "_" x)%string
    = (String.concat "" (map hex_byte l') ++ String "_" y)%string ->
    l = l' /\ x = y.
Proof.
  induction l as [|b l IH]; intros [|b' l'] x y Hl Hl' H.
  - simpl in H. injection H as ->. now split.
  - exfalso. rewrite map_cons, concat_empty_cons in H. simpl in H.
    injection H as H _. apply Forall_inv in Hl'.
    symmetry in H. revert H. apply hex_digit_not_underscore, byte_digits, Hl'.
  - exfalso. rewrite map_cons, concat_empty_cons in H. simpl in H.
    injection H as H _. apply Forall_inv in Hl.
    revert H. apply hex_digit_not_underscore, byte_digits, Hl.
  - rewrite !map_cons, !concat_empty_cons in H. simpl in H.
    injection H as Hh Hlo H.
    apply Forall_cons_iff in Hl as [Hb Hl]. apply Forall_cons_iff in Hl' as [Hb' Hl'].
    destruct (byte_digits b Hb) as [B1 B2], (byte_digits b' Hb') as [B1' B2'].
    apply (f_equal hexValue) in Hh, Hlo.
    rewrite !hexValue_hex_digit in Hh, Hlo by assumption.
    assert (b = b') as -> by (apply two_digits_inj; assumption).
    destruct (IH l' x y Hl Hl' H) as [-> ->]. now split.
Qed.

(** X7.  Two files get the same cache key exactly when their digests and
    their sizes agree: the name and type of a file play no part, and
    files with different content digests or sizes never share an entry. *)
Theorem file_cache_key_iff env s1 s2 f1 f2 d1 d2 :
  currentFile s1 = Some f1 -> currentFile s2 = Some f2 ->
  subtleDigest env f1 = Fulfilled d1 -> subtleDigest env f2 = Fulfilled d2 ->
  Forall isByte d1 -> Forall isByte d2 ->
  (generateCacheKey env s1 = generateCacheKey env s2
   <-> d1 = d2 /\ fileSize f1 = fileSize f2).
Proof.
  intros H1 H2 D1 D2 B1 B2. unfold generateCacheKey, hashFile.
  rewrite H1, H2, D1, D2. split.
  - intros [= H]. apply hex_then_underscore_inj in H as [-> H]; trivial.
    split; [reflexivity | now apply Z_to_string_inj].
  - intros [-> ->]. reflexivity.
Qed.

Lemma file_cache_key_iff_witness :
  generateCacheKey Sample.env_offline Sample.file_state
  = generateCacheKey Sample.env_offline Sample.both_state
  <-> [1; 2; 255] = [1; 2; 255] /\ fileSize Sample.png = fileSize Sample.png.
Proof.
  apply (file_cache_key_iff Sample.env_offline Sample.file_state Sample.both_state
           Sample.png Sample.png [1; 2; 255] [1; 2; 255]);
    try reflexivity; repeat constructor; unfold isByte; lia.
Defined.

(** X8.  The keys of file searches, of URL searches and the fallback key
    [unknown] never coincide, and two URL searches share a key exactly
    when the text of the URL field is the same, character for character. *)
Theorem cache_key_namespaces env s1 s2 f1 v2 k1 k2 :
  currentFile s1 = Some f1 ->
  currentFile s2 = None -> urlInput s2 = Some v2 -> v2 <> ""%string ->
  generateCacheKey env s1 = Fulfilled k1 ->
  generateCacheKey env s2 = Fulfilled k2 ->
  k1 <> k2 /\ k1 <> "unknown"%string /\ k2 <> "unknown"%string
  /\ (forall s3 v3,
        currentFile s3 = None -> urlInput s3 = Some v3 -> v3 <> ""%string ->
        (generateCacheKey env s3 = Fulfilled k2 <-> v3 = v2)).
Proof.
  intros H1 H2 U2 N2 K1 K2. unfold generateCacheKey in K1, K2.
  rewrite H1 in K1. rewrite H2, U2 in K2.
  destruct (hashFile env f1) as [h|e]; [|discriminate]. injection K1 as <-.
  destruct (String.eqb_spec v2 ""); [contradiction|]. simpl in K2.
  injection K2 as <-.
  repeat split; try discriminate.
  - unfold generateCacheKey. rewrite H, H0.
    destruct (String.eqb_spec v3 ""); [contradiction|]. simpl. now intros [= ->].
  - intros ->. unfold generateCacheKey. rewrite H, H0.
    destruct (String.eqb_spec v2 ""); [contradiction|]. reflexivity.
Qed.

Lemma cache_key_namespaces_witness :
  ("file_0102ff_2048" <> Sample.url_key
   /\ "file_0102ff_2048" <> "unknown" /\ Sample.url_key <> "unknown")%string
  /\ (forall s3 v3,
        currentFile s3 = None -> urlInput s3 = Some v3 -> v3 <> ""%string ->
        (generateCacheKey Sample.env_offline s3 = Fulfilled Sample.url_key
         <-> v3 = "https://example.org/a.png"%string)).
Proof.
  pose proof (cache_key_namespaces Sample.env_offline Sample.file_state
                Sample.url_state Sample.png "https://example.org/a.png"
                "file_0102ff_2048" Sample.url_key
                eq_refl eq_refl eq_refl) as H.
  destruct H as (A & B & C & D); try reflexivity; [discriminate|].
  repeat split; assumption || apply D; assumption.
Defined.

(** ** The request against the cache key *)

(** X9.  With a file loaded and a non-blank URL typed, the request is a
    [GET] for the URL and carries no file, while the cache key is the
    file's.  So once such a search has returned a non-empty list, a search
    for any other URL made with the same file, while the entry is younger
    than [CACHE_EXPIRY], returns that same list from the cache and sends
    no request at all. *)
Theorem url_request_is_cached_under_file_key
    (trim : string -> string) env s file v k r s1 v' :
  currentFile s = Some file -> urlInput s = Some v -> trim v <> ""%string ->
  generateCacheKey env s = Fulfilled k ->
  performSearch env s = (Return r, s1) -> r <> [] ->
  method (buildRequestOptions trim s) = "GET"%string
  /\ body (buildRequestOptions trim s) = None
  /\ buildSearchUrl trim s
     = ("https://api.trace.moe/search?url=" ++ encodeURIComponent (trim v))%string
  /\ generateCacheKey env (with_urlInput s1 (Some v')) = Fulfilled k
  /\ exists e,
       JsMap.get (searchCache s1) k = Some e
       /\ (dateNow env (clockReads s1) - timestamp e < CACHE_EXPIRY ->
           exists s2,
             performSearch env (with_urlInput s1 (Some v')) = (Return r, s2)
             /\ fetchCalls s2 = fetchCalls s1).
Proof.
  intros Hf Hu Ht Hk Hp Hr.
  assert (Hne : negb (String.eqb (urlValueOf trim s) "") = true).
  { unfold urlValueOf. rewrite Hu.
    destruct (String.eqb_spec (trim v) ""); [contradiction | reflexivity]. }
  unfold buildRequestOptions, buildSearchUrl. rewrite Hne. simpl method. simpl body.
  split; [reflexivity|]. split; [reflexivity|].
  split; [unfold urlValueOf; rewrite Hu; reflexivity|].
  pose proof (performSearch_keeps_input env s) as (Hcf & _).
  rewrite Hp in Hcf. simpl in Hcf.
  assert (Hk' : generateCacheKey env (with_urlInput s1 (Some v')) = Fulfilled k).
  { unfold generateCacheKey in *. simpl. rewrite Hcf. rewrite Hf in *. exact Hk. }
  split; [exact Hk'|].
  destruct (performSearch_caches_result env s k r s1 Hk Hp Hr) as (_ & e & Hg & Hd).
  exists e. split; [assumption|]. intros Hfresh.
  assert (Hm : probeMisses env (with_urlInput s1 (Some v')) k = false).
  { unfold probeMisses. simpl. rewrite Hg. now apply negb_false_iff, Z.ltb_lt. }
  destruct (performSearch_hit _ _ _ Hk' Hm)
    as (c & s2 & Hg' & E & _ & _ & Hfc & _).
  simpl in Hg', Hfc. rewrite Hg in Hg'. injection Hg' as <-. rewrite Hd in E.
  exists s2. now split.
Qed.

Lemma url_request_is_cached_under_file_key_witness :
  method (buildRequestOptions Sample.trim_one Sample.both_state) = "GET"%string
  /\ body (buildRequestOptions Sample.trim_one Sample.both_state) = None
  /\ buildSearchUrl Sample.trim_one Sample.both_state
     = ("https://api.trace.moe/search?url="
        ++ encodeURIComponent (Sample.trim_one "https://example.org/a.png"))%string
  /\ generateCacheKey Sample.env_one_match
       (with_urlInput (snd (performSearch Sample.env_one_match Sample.both_state))
                      (Some "https://example.org/other.png"%string))
     = Fulfilled "file_0102ff_2048"%string
  /\ exists e,
       JsMap.get (searchCache (snd (performSearch Sample.env_one_match Sample.both_state)))
                 "file_0102ff_2048" = Some e
       /\ (dateNow Sample.env_one_match
             (clockReads (snd (performSearch Sample.env_one_match Sample.both_state)))
           - timestamp e < CACHE_EXPIRY ->
           exists s2,
             performSearch Sample.env_one_match
               (with_urlInput (snd (performSearch Sample.env_one_match Sample.both_state))
                              (Some "https://example.org/other.png"%string))
             = (Return [Sample.match_a], s2)
             /\ fetchCalls s2
                = fetchCalls (snd (performSearch Sample.env_one_match Sample.both_state))).
Proof.
  apply (url_request_is_cached_under_file_key Sample.trim_one Sample.env_one_match
           Sample.both_state Sample.png "https://example.org/a.png"
           "file_0102ff_2048" [Sample.match_a]).
  - reflexivity.
  - reflexivity.
  - discriminate.
  - reflexivity.
  - reflexivity.
  - discriminate.
Defined.

(** X10.  The request is built from the trimmed URL but the cache key
    from the text of the field as typed: two searches by URL whose fields
    differ only in what [trim] removes send the same request and yet use
    different cache keys. *)
Theorem trimmed_request_untrimmed_key
    (trim : string -> string) env s1 s2 v1 v2 :
  currentFile s1 = None -> currentFile s2 = None ->
  urlInput s1 = Some v1 -> urlInput s2 = Some v2 ->
  v1 <> ""%string -> v2 <> ""%string ->
  trim v1 = trim v2 -> v1 <> v2 ->
  buildSearchUrl trim s1 = buildSearchUrl trim s2
  /\ buildRequestOptions trim s1 = buildRequestOptions trim s2
  /\ generateCacheKey env s1 <> generateCacheKey env s2.
Proof.
  intros F1 F2 U1 U2 N1 N2 Ht Hne.
  unfold buildSearchUrl, buildRequestOptions, urlValueOf, generateCacheKey.
  rewrite F1, F2, U1, U2, Ht.
  split; [reflexivity|]. split; [reflexivity|].
  destruct (String.eqb_spec v1 ""); [contradiction|].
  destruct (String.eqb_spec v2 ""); [contradiction|]. simpl.
  intros [= E]. contradiction.
Qed.

Lemma trimmed_request_untrimmed_key_witness :
  buildSearchUrl Sample.trim_one Sample.url_state
  = buildSearchUrl Sample.trim_one Sample.blank_url_state
  /\ buildRequestOptions Sample.trim_one Sample.url_state
     = buildRequestOptions Sample.trim_one Sample.blank_url_state
  /\ generateCacheKey Sample.env_offline Sample.url_state
     <> generateCacheKey Sample.env_offline Sample.blank_url_state.
Proof.
  apply (trimmed_request_untrimmed_key Sample.trim_one Sample.env_offline
           Sample.url_state Sample.blank_url_state
           "https://example.org/a.png" " https://example.org/a.png");
    try reflexivity; discriminate.
Defined.

(** ** [searchAnime] *)

Section ControllerFacts.

Variable trim : string -> string.
Variable extractAnimeTitle : RawMatch -> string.
Variable aenv : AppEnv.

Lemma searchRuns_guards a :
  searchRuns trim aenv a = true ->
  isSearching a = false
  /\ (match currentFile (core a) with None => true | Some _ => false end
      && String.eqb (urlValueOf trim (core a)) "") = false
  /\ (negb (String.eqb (urlValueOf trim (core a)) "")
      && negb (isValidUrl aenv (urlValueOf trim (core a)))) = false.
Proof.
  unfold searchRuns. rewrite !andb_true_iff, !negb_true_iff. tauto.
Qed.

Lemma addToHistory_history input results a :
  exists item,
    searchHistory (addToHistory extractAnimeTitle aenv input results a)
    = pushHistory item (searchHistory a)
    /\ records extractAnimeTitle item (input, results)
    /\ id item = dateNow (base aenv) (clockReads (core a)).
Proof.
  unfold addToHistory, Date_now. simpl. eexists. split; [reflexivity|].
  unfold records. simpl. repeat split.
  - now destruct results.
  - now intros ->.
Qed.

Lemma addToHistory_frame input results a :
  let a' := addToHistory extractAnimeTitle aenv input results a in
  isSearching a' = isSearching a /\ abortController a' = abortController a
  /\ abortedControllers a' = abortedControllers a
  /\ successCount a' = successCount a /\ errorCount a' = errorCount a
  /\ statusLog a' = statusLog a /\ resultsShown a' = resultsShown a
  /\ searchTimes a' = searchTimes a
  /\ searchCache (core a') = searchCache (core a)
  /\ fetchCalls (core a') = fetchCalls (core a)
  /\ effects (core a') = effects (core a).
Proof. unfold addToHistory, Date_now. simpl. repeat split. Qed.

End ControllerFacts.

(** X11.  A search that fails counts twice: when [performSearch] throws,
    also when it throws the cancellation, [searchAnime] raises
    [errorCount] by exactly 2 (once in its [catch], once in
    [handleError]), shows the single error status
    ["Search failed: " ++ getErrorMessage e], records nothing in the
    history or the search times, and leaves no search running. *)
Theorem searchAnime_failure_counts_twice trim extractAnimeTitle aenv a e c' :
  searchRuns trim aenv a = true ->
  performSearch (base aenv) (core a) = (Throw e, c') ->
  let a' := searchAnime trim extractAnimeTitle aenv a in
  errorCount a' = errorCount a + 2
  /\ successCount a' = successCount a
  /\ statusLog a'
     = statusLog a ++ [mkStatus ("Search failed: " ++ getErrorMessage e) "error"]
  /\ searchHistory a' = searchHistory a
  /\ searchTimes a' = searchTimes a
  /\ resultsShown a' = None
  /\ isSearching a' = false /\ abortController a' = None
  /\ core a' = c'.
Proof.
  intros Hrun Hp a'. unfold a', searchAnime.
  destruct (searchRuns_guards trim aenv a Hrun) as (G1 & G2 & G3).
  rewrite G1, G2, G3. cbn [performance_now startSearch core]. rewrite Hp.
  simpl. repeat split. lia.
Qed.

Lemma searchAnime_failure_counts_twice_witness :
  let a' := searchAnime Sample.no_trim Sample.title_of
              (Sample.app_env Sample.env_cancelled) Sample.fresh_app in
  errorCount a' = 0 + 2
  /\ successCount a' = 0
  /\ statusLog a'
     = [] ++ [mkStatus ("Search failed: " ++ getErrorMessage Sample.AbortError) "error"]
  /\ searchHistory a' = []
  /\ searchTimes a' = []
  /\ resultsShown a' = None
  /\ isSearching a' = false /\ abortController a' = None
  /\ core a' = snd (performSearch Sample.env_cancelled Sample.url_state).
Proof.
  apply (searchAnime_failure_counts_twice Sample.no_trim Sample.title_of
           (Sample.app_env Sample.env_cancelled) Sample.fresh_app Sample.AbortError).
  - reflexivity.
  - reflexivity.
Defined.



(** X13.  A search that returns no match is neither a success nor an
    error for the counters, yet it shows a status of type [error]; it
    renders the empty list and still records a history item, with count 0
    and no top result. *)
Theorem searchAnime_no_match trim extractAnimeTitle aenv a c' :
  searchRuns trim aenv a = true ->
  performSearch (base aenv) (core a) = (Return [], c') ->
  let a' := searchAnime trim extractAnimeTitle aenv a in
  successCount a' = successCount a
  /\ errorCount a' = errorCount a
  /\ resultsShown a' = Some []
  /\ statusLog a'
     = statusLog a
       ++ [mkStatus "❌ No anime matches found. Try the tips above for better results."
                    "error"]
  /\ (exists item,
        searchHistory a' = pushHistory item (searchHistory a)
        /\ resultsCount item = 0 /\ topResult item = None
        /\ topSimilarity item = 0%Q)
  /\ isSearching a' = false /\ abortController a' = None.
Proof.
  intros Hrun Hp a'. unfold a', searchAnime.
  destruct (searchRuns_guards trim aenv a Hrun) as (G1 & G2 & G3).
  rewrite G1, G2, G3. cbn [performance_now startSearch core]. rewrite Hp.
  unfold addToHistory, showNoResults, Date_now.
  cbn -[pushHistory]. repeat split. eexists. repeat split.
Qed.

Lemma searchAnime_no_match_witness :
  let a' := searchAnime Sample.no_trim Sample.title_of
              (Sample.app_env Sample.env_empty_object) Sample.fresh_app in
  successCount a' = 0
  /\ errorCount a' = 0
  /\ resultsShown a' = Some []
  /\ statusLog a'
     = [] ++ [mkStatus "❌ No anime matches found. Try the tips above for better results."
                       "error"]
  /\ (exists item,
        searchHistory a' = pushHistory item []
        /\ resultsCount item = 0 /\ topResult item = None
        /\ topSimilarity item = 0%Q)
  /\ isSearching a' = false /\ abortController a' = None.
Proof.
  apply (searchAnime_no_match Sample.no_trim Sample.title_of
           (Sample.app_env Sample.env_empty_object) Sample.fresh_app
           (snd (performSearch Sample.env_empty_object Sample.url_state))).
  - reflexivity.
  - reflexivity.
Defined.

Lemma searchAnime_stopped trim extractAnimeTitle aenv a :
  searchRuns trim aenv a = false ->
  let a' := searchAnime trim extractAnimeTitle aenv a in
  isSearching a' = isSearching a /\ abortController a' = abortController a
  /\ abortedControllers a' = abortedControllers a.
Proof.
  intros Hrun a'. unfold a', searchAnime. unfold searchRuns in Hrun.
  destruct (isSearching a) eqn:G1; [repeat split; assumption|].
  destruct (_ && String.eqb (urlValueOf trim (core a)) "");
    [simpl; repeat split; assumption|].
  destruct (negb (String.eqb (urlValueOf trim (core a)) "") && _);
    [simpl; repeat split; assumption | discriminate].
Qed.

(** X14.  When one of its guards stops it, [searchAnime] touches nothing
    but the status line: no fetch, no cache access, no counter, no
    history item, no controller.  A search already running stops it
    silently; so does, with an error status, a URL field that is not
    blank and not a valid http(s) URL, even when a file is loaded. *)
Theorem searchAnime_guarded trim extractAnimeTitle aenv a :
  searchRuns trim aenv a = false ->
  let a' := searchAnime trim extractAnimeTitle aenv a in
  core a' = core a
  /\ isSearching a' = isSearching a /\ abortController a' = abortController a
  /\ abortedControllers a' = abortedControllers a
  /\ searchHistory a' = searchHistory a
  /\ successCount a' = successCount a /\ errorCount a' = errorCount a
  /\ resultsShown a' = resultsShown a
  /\ (isSearching a = true -> a' = a)
  /\ (isSearching a = false ->
      urlValueOf trim (core a) <> ""%string ->
      isValidUrl aenv (urlValueOf trim (core a)) = false ->
      statusLog a'
      = statusLog a ++ [mkStatus "❌ Please provide a valid image URL" "error"]).
Proof.
  intros Hrun a'. unfold a', searchAnime. unfold searchRuns in Hrun.
  destruct (isSearching a) eqn:G1;
    [repeat split; first [discriminate | reflexivity | assumption]|].
  destruct (match currentFile (core a) with None => true | Some _ => false end
            && String.eqb (urlValueOf trim (core a)) "") eqn:G2.
  - simpl. repeat split; try discriminate; try assumption.
    intros _ Hu _. exfalso. apply andb_true_iff in G2 as [_ G2].
    apply String.eqb_eq in G2. contradiction.
  - destruct (negb (String.eqb (urlValueOf trim (core a)) "")
              && negb (isValidUrl aenv (urlValueOf trim (core a)))) eqn:G3;
      [|discriminate].
    simpl. repeat split; first [discriminate | assumption].
Qed.

Lemma searchAnime_guarded_witness :
  let a := mkApp Sample.both_state false None [] 0 [] 0 0 [] 0 [] None in
  let aenv := mkAppEnv Sample.env_one_match (fun _ => 0%Q) (fun _ => None) in
  let a' := searchAnime Sample.no_trim Sample.title_of aenv a in
  core a' = core a
  /\ isSearching a' = isSearching a /\ abortController a' = abortController a
  /\ abortedControllers a' = abortedControllers a
  /\ searchHistory a' = searchHistory a
  /\ successCount a' = successCount a /\ errorCount a' = errorCount a
  /\ resultsShown a' = resultsShown a
  /\ (isSearching a = true -> a' = a)
  /\ (isSearching a = false ->
      urlValueOf Sample.no_trim (core a) <> ""%string ->
      isValidUrl aenv (urlValueOf Sample.no_trim (core a)) = false ->
      statusLog a'
      = statusLog a ++ [mkStatus "❌ Please provide a valid image URL" "error"]).
Proof.
  apply (searchAnime_guarded Sample.no_trim Sample.title_of
           (mkAppEnv Sample.env_one_match (fun _ => 0%Q) (fun _ => None))
           (mkApp Sample.both_state false None [] 0 [] 0 0 [] 0 [] None)).
  reflexivity.
Defined.

(** X15.  "No search running means no live controller" is kept by
    [searchAnime] and by [abortCurrentSearch].  Under it [searchAnime]
    never calls [abort()]:
    the cancellation of a previous search in [startSearch] is never
    exercised, because a search is only started when none is running. *)
Theorem controller_invariant trim extractAnimeTitle aenv a :
  controllerInvariant a ->
  let a' := searchAnime trim extractAnimeTitle aenv a in
  controllerInvariant a'
  /\ abortedControllers a' = abortedControllers a
  /\ controllerInvariant (abortCurrentSearch a)
  /\ (isSearching a = false -> isSearching a' = false).
Proof.
  intros Hinv a'. unfold controllerInvariant in *.
  assert (Habort : isSearching (abortCurrentSearch a) = false ->
                   abortController (abortCurrentSearch a) = None).
  { unfold abortCurrentSearch. destruct (abortController a) eqn:E; simpl; auto. }
  destruct (searchRuns trim aenv a) eqn:Hrun.
  - destruct (searchRuns_guards trim aenv a Hrun) as (G1 & G2 & G3).
    assert (Hend : isSearching a' = false /\ abortController a' = None
                   /\ abortedControllers a' = abortedControllers a).
    { unfold a', searchAnime, startSearch. rewrite G1, G2, G3, (Hinv G1).
      cbn [performance_now core].
      destruct (performSearch (base aenv) (core a)) as [[r| |e] c'].
      - destruct (0 <? Z.of_nat (List.length r));
          unfold addToHistory, Date_now; simpl; repeat split.
      - unfold addToHistory, Date_now; simpl; repeat split.
      - simpl. repeat split. }
    destruct Hend as (H1 & H2 & H3). repeat split; auto.
  - destruct (searchAnime_stopped trim extractAnimeTitle aenv a Hrun)
      as (H1 & H2 & H3).
    fold a' in H1, H2, H3. rewrite H1, H2. repeat split; auto.
Qed.

Lemma controller_invariant_witness :
  let a' := searchAnime Sample.no_trim Sample.title_of
              (Sample.app_env Sample.env_cancelled) Sample.fresh_app in
  controllerInvariant a'
  /\ abortedControllers a' = abortedControllers Sample.fresh_app
  /\ controllerInvariant (abortCurrentSearch Sample.fresh_app)
  /\ (isSearching Sample.fresh_app = false -> isSearching a' = false).
Proof.
  apply (controller_invariant Sample.no_trim Sample.title_of
           (Sample.app_env Sample.env_cancelled) Sample.fresh_app).
  intros _. reflexivity.
Defined.

(** ** The history *)

Lemma pushHistory_firstn item h : pushHistory item h = firstn 50 (item :: h).
Proof.
  unfold pushHistory. cbv zeta.
  destruct (Z.of_nat (List.length (item :: h)) >? 50) eqn:E.
  - reflexivity.
  - rewrite Z.gtb_ltb in E. apply Z.ltb_ge in E.
    symmetry. apply firstn_all2. lia.
Qed.

Lemma firstn_app_firstn_le {A} (l m : list A) :
  forall n k, (n <= k)%nat -> firstn n (l ++ firstn k m) = firstn n (l ++ m).
Proof.
  induction l as [|x l IH]; intros n k Hk; simpl.
  - rewrite firstn_firstn. f_equal. lia.
  - destruct n as [|n]; simpl; [reflexivity|]. f_equal. apply IH. lia.
Qed.

Lemma firstn_app_firstn {A} n (l m : list A) :
  firstn n (l ++ firstn n m) = firstn n (l ++ m).
Proof. now apply firstn_app_firstn_le. Qed.

(** X16.  The history is a stack of at most 50 items, newest first: after
    any non-empty run of additions it is the first 50 of the added items
    in reverse order of addition followed by the items it held before,
    each added item recording its own input, the number of its results
    and the title of the first of them. *)
Theorem history_keeps_newest_50 extractAnimeTitle aenv adds a :
  adds <> [] ->
  exists items,
    searchHistory (addAllToHistory extractAnimeTitle aenv adds a)
    = firstn 50 (rev items ++ searchHistory a)
    /\ Forall2 (records extractAnimeTitle) items adds
    /\ (List.length (searchHistory (addAllToHistory extractAnimeTitle aenv adds a))
        <= 50)%nat.
Proof.
  intros Hne.
  assert (G : forall adds a,
             exists items,
               searchHistory (addAllToHistory extractAnimeTitle aenv adds a)
               = match adds with
                 | [] => searchHistory a
                 | _ :: _ => firstn 50 (rev items ++ searchHistory a)
                 end
               /\ Forall2 (records extractAnimeTitle) items adds).
  { clear. induction adds as [|[inp res] adds IH]; intros a.
    - exists []. split; [reflexivity | constructor].
    - unfold addAllToHistory. cbn [fold_left fst snd].
      destruct (addToHistory_history extractAnimeTitle aenv inp res a)
        as (item & Hh & Hrec & _).
      destruct (IH (addToHistory extractAnimeTitle aenv inp res a))
        as (items & Hs & Hf).
      exists (item :: items). split; [|now constructor].
      unfold addAllToHistory in Hs. rewrite Hs.
      destruct adds as [|p adds'].
      + rewrite Hh, pushHistory_firstn.
        apply Forall2_length in Hf. destruct items; [|discriminate]. reflexivity.
      + rewrite Hh, pushHistory_firstn.
        cbn [rev]. rewrite <- app_assoc. cbn [app].
        apply firstn_app_firstn. }
  destruct (G adds a) as (items & Hs & Hf).
  exists items. destruct adds as [|p adds']; [contradiction|].
  split; [assumption|]. split; [assumption|].
  rewrite Hs, length_firstn. lia.
Qed.

Lemma history_keeps_newest_50_witness :
  exists items,
    searchHistory
      (addAllToHistory Sample.title_of (Sample.app_env Sample.env_offline)
         [(inr "https://example.org/a.png"%string, [Sample.match_a]); (inl Sample.png, [])]
         Sample.fresh_app)
    = firstn 50 (rev items ++ [])
    /\ Forall2 (records Sample.title_of) items
         [(inr "https://example.org/a.png"%string, [Sample.match_a]); (inl Sample.png, [])]
    /\ (List.length
          (searchHistory
             (addAllToHistory Sample.title_of (Sample.app_env Sample.env_offline)
                [(inr "https://example.org/a.png"%string, [Sample.match_a]);
                 (inl Sample.png, [])]
                Sample.fresh_app))
        <= 50)%nat.
Proof.
  apply (history_keeps_newest_50 Sample.title_of (Sample.app_env Sample.env_offline)
           [(inr "https://example.org/a.png"%string, [Sample.match_a]); (inl Sample.png, [])]
           Sample.fresh_app).
  discriminate.
Defined.

(** ** Error messages *)

Lemma range_cases (P : Z -> Prop) (lo : Z) (n : nat) :
  Forall P (map (fun i => lo + Z.of_nat i) (seq 0 n)) ->
  forall z, lo <= z < lo + Z.of_nat n -> P z.
Proof.
  intros H z Hz. rewrite Forall_forall in H. apply H.
  replace z with (lo + Z.of_nat (Z.to_nat (z - lo))) by lia.
  apply (in_map (fun i => lo + Z.of_nat i)), in_seq. lia.
Qed.

Lemma forallb_Forall_eqb {A} (f g : A -> string) (l : list A) :
  forallb (fun x => String.eqb (f x) (g x)) l = true ->
  Forall (fun x => f x = g x) l.
Proof.
  rewrite forallb_forall, Forall_forall. intros H x Hx.
  now apply String.eqb_eq, H.
Qed.

(** X17.  What the user is told when a search fails.  A cancellation is
    always reported as "Search was cancelled", whatever its message.  For
    a response that is not ok and has an empty status text, the message is
    decided by the status alone: 429 is reported as too many requests,
    500, 502 and 503 as a server error, 400 as an invalid request, 413 as
    an image too large, and every other status from 100 to 599 (404, 401,
    403, 504, ...) by the general "Something went wrong" line. *)
Theorem getErrorMessage_table :
  (forall e, name e = "AbortError"%string ->
             getErrorMessage e = "Search was cancelled"%string)
  /\ (forall status, 100 <= status <= 599 ->
        getErrorMessage (statusError status "") = messageForStatus status).
Proof.
  split.
  - intros e He. unfold getErrorMessage. now rewrite He.
  - intros status Hs.
    apply (range_cases
             (fun st => getErrorMessage (statusError st "") = messageForStatus st)
             100 500); [|lia].
    apply (forallb_Forall_eqb
             (fun st => getErrorMessage (statusError st ""))
             messageForStatus).
    vm_compute. reflexivity.
Qed.

(** ** Presentation of a match *)

Lemma Qfloor_unique x z :
  (inject_Z z <= x)%Q -> (x < inject_Z (z + 1))%Q -> Qfloor x = z.
Proof.
  intros H1 H2. apply Z.le_antisymm.
  - assert (H : (inject_Z (Qfloor x) < inject_Z (z + 1))%Q)
      by (eapply Qle_lt_trans; [apply Qfloor_le | exact H2]).
    rewrite <- Zlt_Qlt in H. lia.
  - rewrite <- (Qfloor_Z z). now apply Qfloor_resp_le.
Qed.

Lemma padStart2_twoDigits r :
  0 <= r < 60 -> padStart2 (Z_to_string r) = twoDigits r.
Proof.
  intros Hr.
  apply (range_cases (fun r => padStart2 (Z_to_string r) = twoDigits r) 0 60);
    [|lia].
  apply (forallb_Forall_eqb (fun r => padStart2 (Z_to_string r)) twoDigits).
  vm_compute. reflexivity.
Qed.

Lemma formatTime_clock s : (0 <= s)%Q -> formatTime s = clockOf s.
Proof.
  intros Hs. unfold formatTime, clockOf.
  set (m := Qfloor s).
  assert (Hm1 : (inject_Z m <= s)%Q) by apply Qfloor_le.
  assert (Hm2 : (s < inject_Z (m + 1))%Q) by apply Qlt_floor.
  assert (Hm0 : 0 <= m).
  { unfold m. rewrite <- (Qfloor_Z 0). now apply Qfloor_resp_le. }
  pose proof (Z.div_mod m 60 ltac:(lia)) as Hdm.
  pose proof (Z.mod_pos_bound m 60 ltac:(lia)) as Hr.
  set (q := m / 60) in *. set (r := m mod 60) in *.
  assert (Hq0 : 0 <= q) by (unfold q; apply Z.div_pos; lia).
  assert (Em : (inject_Z m == 60 * inject_Z q + inject_Z r)%Q).
  { rewrite Hdm, inject_Z_plus, inject_Z_mult. reflexivity. }
  assert (Em1 : (inject_Z (m + 1) == 60 * inject_Z q + inject_Z r + 1)%Q).
  { rewrite inject_Z_plus, Em. reflexivity. }
  assert (Er0 : (0 <= inject_Z r)%Q) by (unfold Qle; simpl; lia).
  assert (Er1 : (inject_Z r + 1 <= 60)%Q).
  { unfold Qle, Qplus; simpl. lia. }
  assert (Eq0 : (0 <= inject_Z q)%Q) by (unfold Qle; simpl; lia).
  assert (Eq1 : (inject_Z (q + 1) == inject_Z q + 1)%Q)
    by (rewrite inject_Z_plus; reflexivity).
  assert (Hfl : Qfloor (s / 60) = q).
  { apply Qfloor_unique.
    - apply Qle_shift_div_l; [reflexivity|]. lra.
    - apply Qlt_shift_div_r; [reflexivity|]. lra. }
  assert (Hrem : (jsRem s 60 == s - 60 * inject_Z q)%Q).
  { unfold jsRem, Qtrunc.
    assert (Hneg : Qltb (s / 60) 0 = false).
    { apply not_true_iff_false. rewrite Qltb_lt. apply Qle_not_lt.
      apply Qle_shift_div_l; [reflexivity|]. lra. }
    rewrite Hneg, Hfl. reflexivity. }
  assert (Hsec : Qfloor (jsRem s 60) = r).
  { apply Qfloor_unique.
    - rewrite Hrem. lra.
    - rewrite Hrem, inject_Z_plus. change (inject_Z 1) with 1%Q. lra. }
  rewrite Hfl, Hsec, padStart2_twoDigits by lia. reflexivity.
Qed.

(** X18.  The time range of a match.  It is absent exactly when [from] or
    [to] is.  For times that are not negative, each time is printed as
    whole minutes, a colon and the whole seconds below 60 on exactly two
    digits (minutes are not folded into hours); a range whose ends
    are equal prints as ["At " ++ time], any other as the two times
    joined by [" - "]. *)
Theorem formatTimestamp_clock (from to : option Q) :
  (formatTimestamp from to = None <-> from = None \/ to = None)
  /\ (forall f t,
        from = Some f -> to = Some t -> (0 <= f)%Q -> (0 <= t)%Q ->
        formatTimestamp from to
        = Some (if Qeq_bool f t then "At " ++ clockOf f
                else clockOf f ++ " - " ++ clockOf t)%string
        /\ String.length (twoDigits (Qfloor f mod 60)) = 2%nat
        /\ 0 <= Qfloor f mod 60 < 60).
Proof.
  split.
  - unfold formatTimestamp. destruct from as [f|], to as [t|];
      try destruct (Qeq_bool f t); split; intros H;
      try discriminate; try (destruct H; discriminate); auto.
  - intros f t -> -> Hf Ht. unfold formatTimestamp.
    rewrite !formatTime_clock by assumption.
    split; [now destruct (Qeq_bool f t)|].
    split; [reflexivity | apply Z.mod_pos_bound; lia].
Qed.

Lemma prefix_bar c r : String.prefix "|" (String c r) = Ascii.eqb "|" c.
Proof.
  cbn [String.prefix]. destruct (ascii_dec "|" c) as [<-|Hne].
  - now destruct r.
  - symmetry. now apply Ascii.eqb_neq.
Qed.

Lemma includes_bar_app a r : includes (a ++ String "|" r) "|" = true.
Proof.
  induction a as [|c a IH]; cbn [append includes]; rewrite prefix_bar.
  - reflexivity.
  - destruct (Ascii.eqb "|" c); [reflexivity | exact IH].
Qed.

Lemma includes_bar_lacks s : lacks "|" s = true -> includes s "|" = false.
Proof.
  induction s as [|c s IH]; cbn [lacks includes]; [reflexivity|].
  rewrite andb_true_iff, negb_true_iff. intros [Hc Hs].
  rewrite prefix_bar, Ascii.eqb_sym, Hc. now apply IH.
Qed.

Lemma splitOn_lacks s : lacks "|" s = true -> splitOn "|" s = [s].
Proof.
  induction s as [|c s IH]; cbn [lacks splitOn]; [reflexivity|].
  rewrite andb_true_iff, negb_true_iff. intros [Hc Hs].
  rewrite Hc, (IH Hs). reflexivity.
Qed.

Lemma splitOn_bar_app a s :
  lacks "|" a = true -> splitOn "|" (a ++ String "|" s) = a :: splitOn "|" s.
Proof.
  induction a as [|c a IH]; cbn [lacks append splitOn].
  - reflexivity.
  - rewrite andb_true_iff, negb_true_iff. intros [Hc Ha].
    rewrite Hc, (IH Ha). reflexivity.
Qed.

(** X19.  The episode line.  A missing episode prints as
    "Episode Unknown"; a string without a bar prints after "Episode ";
    a string ["a|b"] prints as "Episode a of b", and whatever follows a
    second bar is dropped. *)
Theorem formatEpisode_cases :
  formatEpisode EpMissing = "Episode Unknown"%string
  /\ (forall s, lacks "|" s = true ->
                formatEpisode (EpString s) = ("Episode " ++ s)%string)
  /\ (forall a b,
        lacks "|" a = true -> lacks "|" b = true ->
        formatEpisode (EpString (a ++ "|" ++ b))
        = ("Episode " ++ a ++ " of " ++ b)%string)
  /\ (forall a b rest,
        lacks "|" a = true -> lacks "|" b = true ->
        formatEpisode (EpString (a ++ "|" ++ b ++ "|" ++ rest))
        = ("Episode " ++ a ++ " of " ++ b)%string).
Proof.
  split; [reflexivity|]. split; [|split].
  - intros s Hs. unfold formatEpisode. now rewrite includes_bar_lacks.
  - intros a b Ha Hb. unfold formatEpisode.
    change ("|" ++ b)%string with (String "|" b).
    rewrite includes_bar_app, splitOn_bar_app, splitOn_lacks by assumption.
    reflexivity.
  - intros a b rest Ha Hb. unfold formatEpisode.
    change ("|" ++ b ++ "|" ++ rest)%string with (String "|" (b ++ String "|" rest)).
    rewrite includes_bar_app, !splitOn_bar_app by assumption.
    reflexivity.
Qed.

(** X20.  How long ago a history item was added.  A date less than a
    minute old, or in the future, prints as "Just now".  Otherwise the
    age prints in whole minutes from 1 to 59, then in whole hours from 1
    to 23, then in whole days from 1 to 6; from seven days on, the date
    itself is printed. *)
Theorem formatRelativeTime_cases (diffMs : Z) (localeDate : string) :
  (diffMs < 60000 -> formatRelativeTime diffMs localeDate = "Just now"%string)
  /\ (60000 <= diffMs < 3600000 ->
      formatRelativeTime diffMs localeDate
      = (Z_to_string (diffMs / 60000) ++ "m ago")%string
      /\ 1 <= diffMs / 60000 <= 59)
  /\ (3600000 <= diffMs < 86400000 ->
      formatRelativeTime diffMs localeDate
      = (Z_to_string (diffMs / 3600000) ++ "h ago")%string
      /\ 1 <= diffMs / 3600000 <= 23)
  /\ (86400000 <= diffMs < 604800000 ->
      formatRelativeTime diffMs localeDate
      = (Z_to_string (diffMs / 86400000) ++ "d ago")%string
      /\ 1 <= diffMs / 86400000 <= 6)
  /\ (604800000 <= diffMs -> formatRelativeTime diffMs localeDate = localeDate).
Proof.
  unfold formatRelativeTime.
  split; [|split; [|split; [|split]]]; intros Hd; try split;
    repeat match goal with
      | |- context [?a <? ?b] =>
          let E := fresh "E" in
          destruct (Z.ltb_spec a b) as [E|E]
      end;
    try reflexivity;
    try (exfalso; Z.div_mod_to_equations; lia);
    try (Z.div_mod_to_equations; lia).
Qed.

Lemma orElse_nonempty a b : b <> ""%string -> orElse a b <> ""%string.
Proof.
  intros Hb. unfold orElse. destruct a as [s|]; [|assumption].
  destruct (String.eqb_spec s ""); assumption.
Qed.

(** X21.  The title of a match is never empty, whatever the clean-up of
    the file name leaves.  With an AniList title object the English name
    wins over the romaji name, which wins over the native one; and a title
    object without any usable name gives "Unknown Title" even when the
    match has a file name. *)
Theorem extractAnimeTitle_never_empty
    (stripReleaseTags : string -> string) (result : ResultTitleView) :
  extractAnimeTitleOf stripReleaseTags result <> ""%string
  /\ (forall t e,
        anilistTitle result = Some t -> english t = Some e -> e <> ""%string ->
        extractAnimeTitleOf stripReleaseTags result = e)
  /\ (forall t r,
        anilistTitle result = Some t -> orElse (english t) "" = ""%string ->
        romaji t = Some r -> r <> ""%string ->
        extractAnimeTitleOf stripReleaseTags result = r)
  /\ (forall t,
        anilistTitle result = Some t ->
        orElse (english t) "" = ""%string -> orElse (romaji t) "" = ""%string ->
        orElse (native t) "" = ""%string ->
        extractAnimeTitleOf stripReleaseTags result = "Unknown Title"%string).
Proof.
  assert (U : forall a b, orElse a "" = ""%string -> orElse a b = b).
  { intros a b. unfold orElse. destruct a as [s|]; [|reflexivity].
    destruct (String.eqb_spec s ""); [reflexivity | contradiction]. }
  split; [|split; [|split]].
  - unfold extractAnimeTitleOf, extractTitleFromFilename.
    destruct (anilistTitle result) as [t|].
    + repeat apply orElse_nonempty. discriminate.
    + destruct (viewFilename result) as [f|];
        [destruct (String.eqb f "")|]; apply orElse_nonempty; discriminate.
  - intros t e Ht He Hne. unfold extractAnimeTitleOf. rewrite Ht, He. simpl.
    destruct (String.eqb_spec e ""); [contradiction | reflexivity].
  - intros t r Ht He Hr Hne. unfold extractAnimeTitleOf. rewrite Ht, (U _ _ He), Hr.
    simpl. destruct (String.eqb_spec r ""); [contradiction | reflexivity].
  - intros t Ht He Hr Hn. unfold extractAnimeTitleOf.
    now rewrite Ht, (U _ _ He), (U _ _ Hr), (U _ _ Hn).
Qed.

(** ** The confidence label *)

Lemma takeDigits_uint u rest :
  match rest with String c _ => isDigit c = false | EmptyString => True end ->
  takeDigits (NilEmpty.string_of_uint u ++ rest) = (NilEmpty.string_of_uint u, rest).
Proof.
  intros Hrest. induction u; cbn [NilEmpty.string_of_uint append takeDigits];
    try (change (isDigit _) with true; cbv iota; rewrite IHu; reflexivity).
  destruct rest as [|c rest]; [reflexivity|]. cbn [takeDigits]. now rewrite Hrest.
Qed.

Lemma append_empty_r (s : string) : (s ++ "")%string = s.
Proof. induction s as [|c s IH]; simpl; [reflexivity | now rewrite IH]. Qed.

Lemma digitsValue_uint u : digitsValue (NilEmpty.string_of_uint u) = Z.of_uint u.
Proof. unfold digitsValue. now rewrite NilEmpty.usu. Qed.

Lemma nonneg_numeral k :
  0 <= k ->
  exists u, Z_to_string k = NilEmpty.string_of_uint u
            /\ u <> Decimal.Nil /\ Z.of_uint u = k.
Proof.
  intros Hk. destruct k as [|p|p]; [| |lia].
  - exists (Decimal.D0 Decimal.Nil). repeat split. discriminate.
  - exists (Pos.to_uint p).
    pose proof (DecimalPos.Unsigned.to_uint_nonnil p) as Hn.
    split; [|split; [assumption|]].
    + unfold Z_to_string. simpl. destruct (Pos.to_uint p); try reflexivity.
      contradiction.
    + unfold Z.of_uint. now rewrite DecimalPos.Unsigned.of_to.
Qed.

Lemma numeral_unsigned u t :
  u <> Decimal.Nil ->
  match (NilEmpty.string_of_uint u ++ t)%string with
  | String "-" r => (true, r)
  | String "+" r => (false, r)
  | _ => (false, (NilEmpty.string_of_uint u ++ t)%string)
  end = (false, (NilEmpty.string_of_uint u ++ t)%string).
Proof. destruct u; [contradiction|..]; reflexivity. Qed.

Lemma numeral_length u : u <> Decimal.Nil -> String.length (NilEmpty.string_of_uint u) <> 0%nat.
Proof. destruct u; [contradiction|..]; discriminate. Qed.

(** A non-negative number printed with one digit after the point parses
    back to that number of tenths. *)
Lemma parseFloat_tenths n :
  0 <= n ->
  exists v,
    parseFloat (Z_to_string (n / 10) ++ "." ++ Z_to_string (n mod 10)) = Some v
    /\ (v == inject_Z n / 10)%Q.
Proof.
  intros Hn.
  pose proof (Z.div_mod n 10 ltac:(lia)) as Hdm.
  pose proof (Z.mod_pos_bound n 10 ltac:(lia)) as Hr.
  assert (Hq : 0 <= n / 10) by (apply Z.div_pos; lia).
  destruct (nonneg_numeral (n / 10) Hq) as (u & Eu & Hu & Vu).
  destruct (nonneg_numeral (n mod 10) ltac:(lia)) as (w & Ew & Hw & Vw).
  assert (Lw : String.length (NilEmpty.string_of_uint w) = 1%nat).
  { rewrite <- Ew.
    apply (range_cases (fun d => String.length (Z_to_string d) = 1%nat) 0 10);
      [repeat constructor | lia]. }
  rewrite Eu, Ew. change ("." ++ ?x)%string with (String "." x).
  unfold parseFloat.
  rewrite numeral_unsigned, takeDigits_uint by (assumption || reflexivity).
  replace (takeDigits (NilEmpty.string_of_uint w))
    with (NilEmpty.string_of_uint w, ""%string)
    by (rewrite <- (takeDigits_uint w "" I); now rewrite append_empty_r).
  destruct (Nat.eqb_spec
              (String.length (NilEmpty.string_of_uint u)
               + String.length (NilEmpty.string_of_uint w)) 0) as [E|_].
  { pose proof (numeral_length u Hu). lia. }
  eexists. split; [reflexivity|].
  rewrite !digitsValue_uint, Vu, Vw, Lw.
  change (inject_Z (10 ^ Z.of_nat 1)) with 10%Q.
  assert (En : (inject_Z n == 10 * inject_Z (n / 10) + inject_Z (n mod 10))%Q).
  { rewrite Hdm at 1. rewrite inject_Z_plus, inject_Z_mult. reflexivity. }
  rewrite En. field.
Qed.

Lemma Qfloor_ge_iff z x : z <= Qfloor x <-> (inject_Z z <= x)%Q.
Proof.
  split; intros H.
  - eapply Qle_trans; [|apply Qfloor_le]. now rewrite <- Zle_Qle.
  - rewrite <- (Qfloor_Z z). now apply Qfloor_resp_le.
Qed.

Lemma geb_tenths t n v :
  (v == inject_Z n / 10)%Q -> Qle_bool (inject_Z t) v = (10 * t <=? n).
Proof.
  intros Hv. apply eq_true_iff_eq. rewrite Qle_bool_iff, Z.leb_le.
  assert (Hn : (inject_Z n == 10 * v)%Q) by (rewrite Hv; field).
  split; intros H.
  - assert (H' : (inject_Z (10 * t) <= inject_Z n)%Q).
    { rewrite inject_Z_mult. change (inject_Z 10) with 10%Q. lra. }
    now rewrite <- Zle_Qle in H'.
  - rewrite Zle_Qle, inject_Z_mult in H. change (inject_Z 10) with 10%Q in H. lra.
Qed.

(** X22.  The confidence label of a match follows the percentage that is
    displayed.  For a similarity that is not negative, let [p] be the
    product [similarity * 100] as computed, in binary64.  The text
    [p.toFixed(1)] shows the number of tenths of a percent nearest to [p]
    (the larger on a tie), [parseFloat] reads that number back, and the
    label is picked from it: Excellent from 90.0 displayed, High from
    75.0, Medium from 60.0, Low from 40.0, Very Low below.  So a product
    from 89.95 on is already Excellent and one from 39.95 on already
    Low. *)
Theorem confidence_follows_displayed_percentage (r : RawMatch) :
  (0 <= similarity r)%Q ->
  let p := binary64 (similarity r * 100) in
  let n := roundHalfUp (Qabs p * 10) in
  similarityText r = (Z_to_string (n / 10) ++ "." ++ Z_to_string (n mod 10))%string
  /\ (exists v, parseFloat (similarityText r) = Some v
                /\ (v == inject_Z n / 10)%Q)
  /\ getConfidenceLevel (similarityText r) = labelOfTenths n
  /\ (0 <= p)%Q
  /\ (Qabs (p - similarity r * 100) <= (1 # 2) * ulp (similarity r * 100))%Q
  /\ (900 <= n <-> (8995 # 100 <= p)%Q)
  /\ (750 <= n <-> (7495 # 100 <= p)%Q)
  /\ (600 <= n <-> (5995 # 100 <= p)%Q)
  /\ (400 <= n <-> (3995 # 100 <= p)%Q).
Proof.
  intros Hs p n.
  assert (Hp0 : (0 <= p)%Q) by (apply binary64_nonneg; lra).
  assert (Habs : (Qabs p == p)%Q) by now apply Qabs_pos.
  assert (Hn : 0 <= n).
  { unfold n, roundHalfUp. apply Qfloor_ge_iff. rewrite Habs.
    change (inject_Z 0) with 0%Q. lra. }
  assert (Htext : similarityText r
                  = (Z_to_string (n / 10) ++ "." ++ Z_to_string (n mod 10))%string).
  { unfold similarityText, toFixed1, signOf. fold p. fold n.
    assert (Hsign : Qltb p 0 = false).
    { apply not_true_iff_false. rewrite Qltb_lt. apply Qle_not_lt. lra. }
    now rewrite Hsign. }
  destruct (parseFloat_tenths n Hn) as (v & Hp & Hv).
  assert (Hthr : forall t, t <= n <-> (inject_Z t <= p * 10 + (1 # 2))%Q).
  { intros t. unfold n, roundHalfUp. rewrite Qfloor_ge_iff, Habs.
    split; intros H; lra. }
  split; [exact Htext|]. split; [exists v; rewrite Htext; now split|].
  split.
  { unfold getConfidenceLevel, labelOfTenths. rewrite Htext, Hp. unfold num_geb.
    change 90%Q with (inject_Z 90). change 75%Q with (inject_Z 75).
    change 60%Q with (inject_Z 60). change 40%Q with (inject_Z 40).
    rewrite !(geb_tenths _ n v Hv). reflexivity. }
  split; [exact Hp0|]. split; [apply binary64_nearest|].
  repeat split; intros H;
    first [ apply Hthr in H; unfold inject_Z in H; lra
          | apply Hthr; unfold inject_Z; lra ].
Qed.

Lemma confidence_follows_displayed_percentage_witness :
  let p := binary64 (similarity Sample.match_a * 100) in
  let n := roundHalfUp (Qabs p * 10) in
  similarityText Sample.match_a
  = (Z_to_string (n / 10) ++ "." ++ Z_to_string (n mod 10))%string
  /\ (exists v, parseFloat (similarityText Sample.match_a) = Some v
                /\ (v == inject_Z n / 10)%Q)
  /\ getConfidenceLevel (similarityText Sample.match_a) = labelOfTenths n
  /\ (0 <= p)%Q
  /\ (Qabs (p - similarity Sample.match_a * 100)
      <= (1 # 2) * ulp (similarity Sample.match_a * 100))%Q
  /\ (900 <= n <-> (8995 # 100 <= p)%Q)
  /\ (750 <= n <-> (7495 # 100 <= p)%Q)
  /\ (600 <= n <-> (5995 # 100 <= p)%Q)
  /\ (400 <= n <-> (3995 # 100 <= p)%Q).
Proof.
  apply (confidence_follows_displayed_percentage Sample.match_a).
  discriminate.
Defined.

(** X23.  Two searches send the same request URL exactly when their
    trimmed URL values are the same: a search by file posts to the bare
    endpoint, a search by URL puts the escaped URL after [?url=], and
    different URLs are never escaped to the same text. *)
Theorem buildSearchUrl_iff (trim : string -> string) (s1 s2 : State) :
  buildSearchUrl trim s1 = buildSearchUrl trim s2
  <-> urlValueOf trim s1 = urlValueOf trim s2.
Proof.
  unfold buildSearchUrl. cbv zeta.
  set (u1 := urlValueOf trim s1). set (u2 := urlValueOf trim s2).
  split; [|now intros ->].
  destruct (String.eqb_spec u1 ""), (String.eqb_spec u2 ""); simpl.
  - congruence.
  - discriminate.
  - discriminate.
  - intros [= H].
    now apply encodeURIComponent_inj.
Qed.

(** ** [assessImageQuality] *)

Lemma brightness_nonneg r g b :
  isByte r -> isByte g -> isByte b -> (0 <= inject_Z (r + g + b) / 3)%Q.
Proof.
  unfold isByte. intros Hr Hg Hb. apply Qle_shift_div_l; [reflexivity|].
  assert (H : (0 <= inject_Z (r + g + b))%Q) by (unfold Qle; simpl; lia). lra.
Qed.

(** The loop over whole pixels never produces [NaN], and its two sums
    only grow.  When every pixel has the brightness of the one before,
    the sharpness sum does not move. *)
Lemma qualityLoop_pixels ps :
  forall first prev sh ct,
    (first = true \/ exists pv, prev = Some pv) ->
    Forall isPixel ps -> (0 <= sh)%Q -> (0 <= ct)%Q ->
    exists sh' ct',
      qualityLoop first prev (flattenPixels ps) (Some sh) (Some ct)
      = (Some sh', Some ct')
      /\ (0 <= sh')%Q /\ (0 <= ct')%Q
      /\ ((forall p, In p ps ->
             let '(r, g, b, _) := p in
             first = true \/ prev = Some (inject_Z (r + g + b) / 3)%Q) ->
          (forall p q, In p ps -> In q ps ->
             let '(r, g, b, _) := p in let '(r', g', b', _) := q in
             r + g + b = r' + g' + b') ->
          (sh' == sh)%Q).
Proof.
  induction ps as [|[[[r g] b] a] ps IH]; intros first prev sh ct Hprev Hpx Hsh Hct.
  - exists sh, ct. simpl.
    split; [reflexivity|]. split; [assumption|]. split; [assumption|].
    intros _ _. reflexivity.
  - apply Forall_cons_iff in Hpx as [(Hr & Hg & Hb & _) Hpx].
    pose proof (brightness_nonneg r g b Hr Hg Hb) as Hbr.
    set (br := (inject_Z (r + g + b) / 3)%Q) in *.
    set (sh1 := if first then sh
                else match prev with
                     | Some pv => (sh + Qabs (br - pv))%Q
                     | None => sh
                     end).
    assert (Hsh1 : (0 <= sh1)%Q).
    { unfold sh1. destruct first; [assumption|]. destruct prev as [pv|]; [|assumption].
      pose proof (Qabs_nonneg (br - pv)). lra. }
    assert (Hct1 : (0 <= ct + br)%Q) by lra.
    destruct (IH false (Some br) sh1 (ct + br)%Q
                 (or_intror (ex_intro _ br eq_refl)) Hpx Hsh1 Hct1)
      as (sh' & ct' & E & Hs' & Hc' & Hflat).
    exists sh', ct'. split; [|split; [assumption|split; [assumption|]]].
    + change (flattenPixels ((r, g, b, a) :: ps))
        with (r :: g :: b :: a :: flattenPixels ps).
      cbn [qualityLoop nth_error brightnessOf num_add num_abs num_sub].
      fold br. rewrite <- E. f_equal.
      unfold sh1. destruct first; [reflexivity|].
      destruct Hprev as [Hf|[pv ->]]; [discriminate | reflexivity].
    + intros Hsame Hall.
      assert (E1 : (sh1 == sh)%Q).
      { unfold sh1. destruct first; [reflexivity|].
        destruct (Hsame (r, g, b, a) (or_introl eq_refl)) as [Hf|Hp];
          [discriminate|].
        rewrite Hp. fold br.
        assert (Hz : (br - br == 0)%Q) by ring.
        rewrite Hz. simpl. ring. }
      rewrite <- E1. apply Hflat.
      * intros [[[r' g'] b'] a'] Hin. right.
        pose proof (Hall (r, g, b, a) (r', g', b', a') (or_introl eq_refl)
                         (or_intror Hin)) as Heq. simpl in Heq.
        unfold br. now rewrite Heq.
      * intros p q Hp Hq. apply Hall; now right.
Qed.

Lemma flattenPixels_length ps :
  List.length (flattenPixels ps) = (4 * List.length ps)%nat.
Proof.
  induction ps as [|[[[r g] b] a] ps IH]; [reflexivity|].
  change (flattenPixels ((r, g, b, a) :: ps))
    with (r :: g :: b :: a :: flattenPixels ps).
  simpl List.length. rewrite IH. lia.
Qed.

Lemma num_div_pos x d :
  (0 < d)%Q -> num_div (Some x) d = Some (x / d)%Q.
Proof.
  intros Hd. unfold num_div.
  destruct (Qeq_bool d 0) eqn:E; [|reflexivity].
  apply Qeq_bool_iff in E. rewrite E in Hd. discriminate.
Qed.

(** X24.  The quality score of a decoded image.  For every image of at
    least one pixel the score is a number between 0 and 1, never [NaN].
    For an image whose pixels all have the same brightness, a
    single-colour image for one, the score is 0, below the threshold:
    such an image is always flagged as low quality. *)
Theorem assessImageQuality_range (ps : list (Z * Z * Z * Z)) :
  ps <> [] -> Forall isPixel ps ->
  exists q,
    assessImageQuality (ImgLoaded (flattenPixels ps)) = Resolved (Some q)
    /\ (0 <= q)%Q /\ (q <= 1)%Q
    /\ ((forall p p', In p ps -> In p' ps ->
           let '(r, g, b, _) := p in let '(r', g', b', _) := p' in
           r + g + b = r' + g' + b') ->
        (q == 0)%Q
        /\ num_ltb (Some q) IMAGE_QUALITY_THRESHOLD = true).
Proof.
  intros Hne Hpx. unfold assessImageQuality.
  destruct (qualityLoop_pixels ps true None 0%Q 0%Q (or_introl eq_refl) Hpx
              ltac:(apply Qle_refl) ltac:(apply Qle_refl))
    as (sh & ct & E & Hsh & Hct & Hflat).
  rewrite E, flattenPixels_length.
  set (P := (inject_Z (Z.of_nat (4 * List.length ps)) / 4)%Q).
  assert (HP : (0 < P)%Q).
  { unfold P. apply Qlt_shift_div_l; [reflexivity|].
    assert (H : (0 < inject_Z (Z.of_nat (4 * List.length ps)))%Q).
    { unfold Qlt. simpl. destruct ps; [contradiction | simpl List.length; lia]. }
    lra. }
  rewrite !(num_div_pos _ P HP).
  rewrite !num_div_pos by reflexivity.
  cbn [num_mul Math_min1].
  set (v := (sh / P / 50 * (ct / P / 128))%Q).
  assert (Ha : (0 <= sh / P)%Q) by (apply Qle_shift_div_l; [assumption | lra]).
  assert (Hb : (0 <= ct / P)%Q) by (apply Qle_shift_div_l; [assumption | lra]).
  assert (Hv : (0 <= v)%Q).
  { unfold v. apply Qmult_le_0_compat;
      (apply Qle_shift_div_l; [reflexivity | lra]). }
  assert (Hzero : (forall p p', In p ps -> In p' ps ->
                     let '(r, g, b, _) := p in let '(r', g', b', _) := p' in
                     r + g + b = r' + g' + b') -> (v == 0)%Q).
  { intros Hall.
    assert (Es : (sh == 0)%Q).
    { apply Hflat; [|exact Hall]. intros [[[r g] b] a] _. now left. }
    unfold v. rewrite Es. unfold Qdiv. ring. }
  destruct (Qle_bool 1 v) eqn:E1.
  - exists 1%Q. split; [reflexivity|]. split; [discriminate|]. split; [apply Qle_refl|].
    intros Hall. apply Qle_bool_iff in E1. pose proof (Hzero Hall). exfalso. lra.
  - exists v. split; [reflexivity|]. split; [assumption|].
    assert (Hlt : (v < 1)%Q).
    { apply Qnot_le_lt. intros H. apply Qle_bool_iff in H. congruence. }
    split; [lra|]. intros Hall. split; [now apply Hzero|].
    unfold num_ltb. apply Qltb_lt. rewrite (Hzero Hall). reflexivity.
Qed.

Lemma assessImageQuality_range_witness :
  exists q,
    assessImageQuality (ImgLoaded (flattenPixels [(10, 20, 30, 255); (30, 20, 10, 255)]))
    = Resolved (Some q)
    /\ (0 <= q)%Q /\ (q <= 1)%Q
    /\ ((forall p p', In p [(10, 20, 30, 255); (30, 20, 10, 255)] ->
                      In p' [(10, 20, 30, 255); (30, 20, 10, 255)] ->
           let '(r, g, b, _) := p in let '(r', g', b', _) := p' in
           r + g + b = r' + g' + b') ->
        (q == 0)%Q
        /\ num_ltb (Some q) IMAGE_QUALITY_THRESHOLD = true).
Proof.
  apply (assessImageQuality_range [(10, 20, 30, 255); (30, 20, 10, 255)]).
  - discriminate.
  - repeat constructor; unfold isByte; lia.
Defined.

(** ** The presentation on concrete inputs *)

Example scene_at_ten_seconds :
  formatTimestamp (Some 10%Q) (Some 13%Q) = Some "0:10 - 0:13"%string
  /\ formatTimestamp (Some 3725%Q) (Some 3725%Q) = Some "At 62:05"%string
  /\ formatTimestamp None (Some 13%Q) = None.
Proof. repeat split. Qed.

Example episode_three_of_twelve :
  formatEpisode (EpString "3|12") = "Episode 3 of 12"%string
  /\ formatEpisode (EpNumber 7) = "Episode 7"%string.
Proof. split; reflexivity. Qed.

Example ninety_five_percent :
  similarityText Sample.match_a = "95.0"%string
  /\ getConfidenceLevel (similarityText Sample.match_a)
     = ("high", "🟢 Excellent")%string
  /\ getConfidenceLevel "not a number" = ("low", "🔴 Very Low")%string.
Proof. repeat split. Qed.

(** Products that binary64 rounds away from the decimal one reads: the
    nearest binary64 number to 0.2895, times 100, is just below 28.95 and
    is shown as 28.9; that of 0.0015 gives 0.1; that of 0.8995 is just
    above 89.95, is shown as 90.0 and labelled Excellent. *)
Example rounded_percentages :
  similarityText (mkMatch (binary64 (2895 # 10000)) "a.mp4" None) = "28.9"%string
  /\ similarityText (mkMatch (binary64 (15 # 10000)) "a.mp4" None) = "0.1"%string
  /\ similarityText (mkMatch (binary64 (8995 # 10000)) "a.mp4" None) = "90.0"%string
  /\ getConfidenceLevel
       (similarityText (mkMatch (binary64 (8995 # 10000)) "a.mp4" None))
     = ("high", "🟢 Excellent")%string.
Proof. repeat split; vm_compute; reflexivity. Qed.

Example network_failure_message :
  getErrorMessage Sample.TypeError
  = "🌐 Network error. Please check your internet connection and try again."%string.
Proof. reflexivity. Qed.

Example escaped_query :
  buildSearchUrl Sample.no_trim
    (with_urlInput Sample.url_state (Some "https://x.org/a b.png?c=1&d=é"%string))
  = "https://api.trace.moe/search?url=https%3A%2F%2Fx.org%2Fa%20b.png%3Fc%3D1%26d%3D%C3%A9"%string.
Proof. reflexivity. Qed.
